(** * Sysmon process tree: registry, tree builder and report renderer

    A shallow embedding of [sysmon2tree.py] (class [SysmonParser]) and
    [sysmon_csv_tree.py] (class [SysmonCSVParser]).

    Python values are modelled as follows.
    - [str] is [string]: a sequence of characters, compared
      lexicographically character by character as Python does.
    - [int] is [Z]; [None]-or-int is [option Z].
    - a [dict] is an association list kept in insertion order, which is
      the order Python iterates it in.
    - a [try ... except: pass] block is a function that returns the state
      it was given when the body raises. *)

From Stdlib Require Import List String Ascii ZArith Lia Bool Arith.
From Stdlib Require Import Permutation Sorted DecimalString.
Import ListNotations.

Open Scope string_scope.
Open Scope Z_scope.

Set Implicit Arguments.

(* ------------------------------------------------------------------ *)
(** ** Python strings *)

(** The double quote character, code point 34. *)
Definition dquote : ascii := Eval cbv in ascii_of_nat 34.
Definition dq : string := String dquote EmptyString.

(** [q s] is [s] between double quotes, as in an attribute value. *)
Definition q (s : string) : string := dq ++ s ++ dq.

(** Truth value of a [str]: non-empty. *)
Definition str_truthy (s : string) : bool :=
  match s with
  | EmptyString => false
  | String _ _ => true
  end.

(** [t.replace(c, by)] for a one-character pattern [c]. *)
Fixpoint str_replace (c : ascii) (by_ : string) (t : string) : string :=
  match t with
  | EmptyString => EmptyString
  | String a rest =>
      if Ascii.eqb a c then by_ ++ str_replace c by_ rest
      else String a (str_replace c by_ rest)
  end.

(** [c in t] for a one-character [c]. *)
Fixpoint str_contains (c : ascii) (t : string) : bool :=
  match t with
  | EmptyString => false
  | String a rest => Ascii.eqb a c || str_contains c rest
  end.

(** [t[:n]] *)
Fixpoint str_prefix (n : nat) (t : string) : string :=
  match n, t with
  | O, _ => EmptyString
  | _, EmptyString => EmptyString
  | S k, String a rest => String a (str_prefix k rest)
  end.

(** [t.split(c)[-1]]: what follows the last occurrence of [c]
    (the whole of [t] when [c] does not occur). *)
Fixpoint last_component (c : ascii) (t : string) : string :=
  match t with
  | EmptyString => EmptyString
  | String a rest =>
      if Ascii.eqb a c then last_component c rest
      else if str_contains c rest then last_component c rest
      else t
  end.

(** [str(n)] for an [int]. *)
Definition str_of_Z (z : Z) : string := NilZero.string_of_int (Z.to_int z).

(** [''.join(l)] *)
Definition join (l : list string) : string := String.concat "" l.

(* ------------------------------------------------------------------ *)
(** ** The escaping function

    [_esc] is the same in both files (sysmon2tree.py 293-295,
    sysmon_csv_tree.py 228-230):
<<
    def _esc(self, t):
        if not t: return ''
        return t.replace('&','&amp;').replace('<','&lt;')
                .replace('>','&gt;').replace(dquote,'&quot;')
>> *)

Definition _esc (t : string) : string :=
  if negb (str_truthy t) then ""
  else
    str_replace dquote "&quot;"
      (str_replace ">" "&gt;"
         (str_replace "<" "&lt;"
            (str_replace "&" "&amp;" t))).

(** What [_esc] does to one character, read off the four [replace]
    calls.  Used to state the result of the chain in one pass. *)
Definition entity (a : ascii) : string :=
  if Ascii.eqb a "&" then "&amp;"
  else if Ascii.eqb a "<" then "&lt;"
  else if Ascii.eqb a ">" then "&gt;"
  else if Ascii.eqb a dquote then "&quot;"
  else String a EmptyString.

Fixpoint flat_entities (t : string) : string :=
  match t with
  | EmptyString => EmptyString
  | String a rest => entity a ++ flat_entities rest
  end.

(* ------------------------------------------------------------------ *)
(** ** Python dictionaries

    A [dict] in insertion order.  [d[k] = v] keeps the position of a key
    that is already there and appends a new key at the end. *)

Definition dict (K V : Type) : Type := list (K * V).

Fixpoint dict_get {K V : Type} (eqb : K -> K -> bool) (k : K) (d : dict K V)
  : option V :=
  match d with
  | [] => None
  | (k', v) :: rest => if eqb k' k then Some v else dict_get eqb k rest
  end.

(** [k in d] *)
Definition dict_mem {K V : Type} (eqb : K -> K -> bool) (k : K) (d : dict K V)
  : bool :=
  match dict_get eqb k d with
  | Some _ => true
  | None => false
  end.

(** [d[k] = v] *)
Fixpoint dict_set {K V : Type} (eqb : K -> K -> bool) (k : K) (v : V)
  (d : dict K V) : dict K V :=
  match d with
  | [] => [(k, v)]
  | (k', v') :: rest =>
      if eqb k' k then (k', v) :: rest
      else (k', v') :: dict_set eqb k v rest
  end.

(** In-place mutation of the object stored under [k]. *)
Fixpoint dict_update {K V : Type} (eqb : K -> K -> bool) (k : K) (f : V -> V)
  (d : dict K V) : dict K V :=
  match d with
  | [] => []
  | (k', v') :: rest =>
      if eqb k' k then (k', f v') :: rest
      else (k', v') :: dict_update eqb k f rest
  end.

Definition dict_keys {K V : Type} (d : dict K V) : list K := map fst d.
Definition dict_values {K V : Type} (d : dict K V) : list V := map snd d.

(** [d.get(k, dflt)] *)
Definition dict_get_default {K V : Type} (eqb : K -> K -> bool) (k : K)
  (dflt : V) (d : dict K V) : V :=
  match dict_get eqb k d with
  | Some v => v
  | None => dflt
  end.

(* ------------------------------------------------------------------ *)
(** ** [int(s)] on a string

    Surrounding white space is stripped, one sign is allowed, and the
    digits may be grouped by single underscores.  [None] stands for the
    [ValueError] Python raises.  Characters are those of [ascii]; the
    interpreter's limit on the number of digits is not modelled.

    The blanks [int] strips are the characters 9 to 13 and the space,
    and, of the characters above 127, the two that are white space:
    133 and 160.  The separators 28 to 31 are not stripped. *)

Definition is_space (a : ascii) : bool :=
  let n := nat_of_ascii a in
  ((9 <=? n) && (n <=? 13) || (n =? 32)
   || (n =? 133) || (n =? 160))%nat.

Fixpoint lstrip (cs : list ascii) : list ascii :=
  match cs with
  | a :: rest => if is_space a then lstrip rest else cs
  | [] => []
  end.

Definition strip (cs : list ascii) : list ascii :=
  rev (lstrip (rev (lstrip cs))).

Definition digit_val (a : ascii) : option Z :=
  let n := nat_of_ascii a in
  if ((48 <=? n) && (n <=? 57))%nat then Some (Z.of_nat (n - 48)) else None.

(** The digits after the first one; [after_us] tells that the previous
    character was an underscore, which a digit must follow. *)
Fixpoint digits_tail (acc : Z) (after_us : bool) (cs : list ascii)
  : option Z :=
  match cs with
  | [] => if after_us then None else Some acc
  | a :: rest =>
      if Ascii.eqb a "_" then
        if after_us then None else digits_tail acc true rest
      else
        match digit_val a with
        | Some d => digits_tail (10 * acc + d) false rest
        | None => None
        end
  end.

Definition digits (cs : list ascii) : option Z :=
  match cs with
  | [] => None
  | a :: rest =>
      match digit_val a with
      | Some d => digits_tail d false rest
      | None => None
      end
  end.

Definition py_int (s : string) : option Z :=
  match strip (list_ascii_of_string s) with
  | a :: rest =>
      if Ascii.eqb a "-" then option_map Z.opp (digits rest)
      else if Ascii.eqb a "+" then digits rest
      else digits (a :: rest)
  | [] => None
  end.

(** [int(data.get(key, 0))]: the default is the integer [0], which
    [int] returns as it is. *)
Definition int_of_field (key : string) (data : dict string string)
  : option Z :=
  match dict_get String.eqb key data with
  | Some s => py_int s
  | None => Some 0
  end.

(** [int(data.get(key, 0)) if data.get(key) else None]; the outer
    [None] is a raised [ValueError]. *)
Definition optional_int_of_field (key : string) (data : dict string string)
  : option (option Z) :=
  match dict_get String.eqb key data with
  | Some s => if str_truthy s then option_map Some (py_int s) else Some None
  | None => Some None
  end.

(* ------------------------------------------------------------------ *)
(** ** The process record and the registry *)

Record ProcessInfo : Type := mkProcessInfo {
  pid : Z;
  name : string;
  ppid : option Z;
  command_line : string;
  current_directory : string;
  user : string;
  timestamp : string;
  children : list Z
}.

(** [ProcessInfo.__init__]: the child list starts empty. *)
Definition ProcessInfo_init (pid : Z) (name : string) (ppid : option Z)
  (command_line current_directory user timestamp : string) : ProcessInfo :=
  mkProcessInfo pid name ppid command_line current_directory user timestamp [].

(** [self.processes] *)
Definition registry : Type := dict Z ProcessInfo.

Definition reg_get (k : Z) (procs : registry) : option ProcessInfo :=
  dict_get Z.eqb k procs.
Definition reg_mem (k : Z) (procs : registry) : bool :=
  dict_mem Z.eqb k procs.
Definition reg_set (k : Z) (p : ProcessInfo) (procs : registry) : registry :=
  dict_set Z.eqb k p procs.

(** The parser object; [start_time] is wall-clock time and is left out. *)
Record SysmonParser : Type := mkParser {
  processes : registry;
  total_events : Z;
  process_events : Z
}.

Definition SysmonParser_init : SysmonParser := mkParser [] 0 0.

(** [image.split(bs)[-1] if bs in image else image] with [bs] the
    backslash. *)
Definition image_name (image : string) : string :=
  if str_contains "\" image then last_component "\" image else image.

(** Truth value of an optional integer: neither [None] nor [0]. *)
Definition int_truthy (v : option Z) : bool :=
  match v with
  | Some n => negb (n =? 0)
  | None => false
  end.

(* ------------------------------------------------------------------ *)
(** ** The EVTX front end (sysmon2tree.py)

    An event is seen through the queries the code runs on the parsed
    XML tree: each [find] gives the element if there is one, with the
    text or attribute the code reads from it. *)

Record DataElem : Type := mkDataElem {
  elem_Name : option string;   (* elem.get(Name) *)
  elem_text : option string    (* elem.text *)
}.

Record XmlRoot : Type := mkXmlRoot {
  find_EventID_ns : option (option string);      (* text of the element *)
  find_EventID : option (option string);
  findall_Data_ns : list DataElem;
  findall_Data : list DataElem;
  find_TimeCreated_ns : option (option string);  (* its SystemTime *)
  find_TimeCreated : option (option string)
}.

(** One record of the log: [None] when [ET.fromstring] raises
    [ParseError]. *)
Definition evtx_unit : Type := option XmlRoot.

(** Lines 93-97 and 100-103: [if name and elem.text: data[name] = elem.text] *)
Definition collect_data (elems : list DataElem) : dict string string :=
  fold_left
    (fun data e =>
       match elem_Name e, elem_text e with
       | Some n, Some t =>
           if str_truthy n && str_truthy t then dict_set String.eqb n t data
           else data
       | _, _ => data
       end)
    elems [].

(** Lines 93-103: the namespaced elements, or the plain ones when the
    first pass found nothing. *)
Definition evtx_data (root : XmlRoot) : dict string string :=
  match collect_data (findall_Data_ns root) with
  | [] => collect_data (findall_Data root)
  | data => data
  end.

(** Lines 105-108 *)
Definition evtx_timestamp (root : XmlRoot) : string :=
  let ts_elem :=
    match find_TimeCreated_ns root with
    | None => find_TimeCreated root
    | Some e => Some e
    end in
  match ts_elem with
  | Some (Some t) => str_prefix 19 t
  | Some None => str_prefix 19 ""
  | None => ""
  end.

(** Lines 91-119.  Every exception ends in [except: pass], which leaves
    the registry as it was. *)
Definition _extract_process_data (root : XmlRoot) (procs : registry)
  : registry :=
  let data := evtx_data root in
  let timestamp := evtx_timestamp root in
  match int_of_field "ProcessId" data with
  | None => procs
  | Some pid =>
      if 0 <? pid then
        match optional_int_of_field "ParentProcessId" data with
        | None => procs
        | Some ppid =>
            let image := dict_get_default String.eqb "Image" "Unknown" data in
            reg_set pid
              (ProcessInfo_init pid (image_name image) ppid
                 (dict_get_default String.eqb "CommandLine" "" data)
                 (dict_get_default String.eqb "CurrentDirectory" "" data)
                 (dict_get_default String.eqb "User" "" data)
                 timestamp)
              procs
        end
      else procs
  end.

(** [max_events and event_count > max_events] *)
Definition cap_reached (max_events : option Z) (event_count : Z) : bool :=
  match max_events with
  | Some m => negb (m =? 0) && (m <? event_count)
  | None => false
  end.

(** Lines 65-70: the EventID element, namespaced first, and the test
    [event_id_elem is None or event_id_elem.text != 1]. *)
Definition evtx_is_process_creation (root : XmlRoot) : bool :=
  let event_id_elem :=
    match find_EventID_ns root with
    | None => find_EventID root
    | Some e => Some e
    end in
  match event_id_elem with
  | Some (Some t) => String.eqb t "1"
  | _ => false
  end.

(** The loop of [parse_evtx], lines 54-79.  [event_count] is the local
    counter; the [skipped_count] local is never read and is left out. *)
Fixpoint evtx_loop (max_events : option Z) (units : list evtx_unit)
  (event_count : Z) (self : SysmonParser) : SysmonParser :=
  match units with
  | [] => self
  | u :: rest =>
      let event_count := event_count + 1 in
      let self := mkParser (processes self) event_count (process_events self) in
      if cap_reached max_events event_count then self
      else
        match u with
        | None => evtx_loop max_events rest event_count self
        | Some root =>
            if evtx_is_process_creation root then
              evtx_loop max_events rest event_count
                (mkParser (_extract_process_data root (processes self))
                   (total_events self)
                   (process_events self + 1))
            else evtx_loop max_events rest event_count self
        end
  end.

(* ------------------------------------------------------------------ *)
(** ** The CSV front end (sysmon_csv_tree.py)

    A row as [csv.DictReader] gives it, with the Payload column already
    through [json.loads] and the two [get] calls of line 79. *)

Record PayloadItem : Type := mkPayloadItem {
  item_Name : option string;   (* the @Name key *)
  item_text : option string    (* the #text key *)
}.

Inductive Payload : Type :=
| BadPayload                            (* decoding or traversal raises *)
| PayloadData (items : list PayloadItem).

Record CsvRow : Type := mkCsvRow {
  row_EventId : option string;
  row_Payload : option Payload;   (* [None]: no such column *)
  row_UserName : option string;
  row_TimeCreated : option string
}.

Definition opt_default (dflt : string) (v : option string) : string :=
  match v with
  | Some s => s
  | None => dflt
  end.

(** Lines 80-85: [if name: data[name] = text], both with default [''] *)
Definition csv_data (items : list PayloadItem) : dict string string :=
  fold_left
    (fun data item =>
       let name := opt_default "" (item_Name item) in
       let text := opt_default "" (item_text item) in
       if str_truthy name then dict_set String.eqb name text data else data)
    items [].

(** Line 100 *)
Definition csv_timestamp (row : CsvRow) : string :=
  match row_TimeCreated row with
  | Some t => if str_truthy t then str_prefix 19 t else ""
  | None => ""
  end.

(** Lines 72-115.  The counter is incremented after the insertion, in
    the same [try] block. *)
Definition _extract_process_from_row (row : CsvRow) (self : SysmonParser)
  : SysmonParser :=
  match
    match row_Payload row with
    | None => Some []
    | Some BadPayload => None
    | Some (PayloadData items) => Some items
    end
  with
  | None => self
  | Some event_data =>
      let data := csv_data event_data in
      match int_of_field "ProcessId" data with
      | None => self
      | Some pid =>
          if pid <=? 0 then self
          else
            match optional_int_of_field "ParentProcessId" data with
            | None => self
            | Some ppid =>
                let image :=
                  dict_get_default String.eqb "Image" "Unknown" data in
                let command_line :=
                  dict_get_default String.eqb "CommandLine" "" data in
                let current_directory :=
                  dict_get_default String.eqb "CurrentDirectory" "" data in
                let user :=
                  dict_get_default String.eqb "User"
                    (opt_default "" (row_UserName row)) data in
                let timestamp := csv_timestamp row in
                mkParser
                  (reg_set pid
                     (ProcessInfo_init pid (image_name image) ppid
                        command_line current_directory user timestamp)
                     (processes self))
                  (total_events self)
                  (process_events self + 1)
            end
      end
  end.

(** The loop of [parse_csv], lines 38-55. *)
Fixpoint csv_loop (max_events : option Z) (rows : list CsvRow)
  (self : SysmonParser) : SysmonParser :=
  match rows with
  | [] => self
  | row :: rest =>
      let self :=
        mkParser (processes self) (total_events self + 1)
          (process_events self) in
      if cap_reached max_events (total_events self) then self
      else
        match row_EventId row with
        | Some t =>
            if String.eqb t "1" then
              csv_loop max_events rest (_extract_process_from_row row self)
            else csv_loop max_events rest self
        | None => csv_loop max_events rest self
        end
  end.

(* ------------------------------------------------------------------ *)
(** ** The tree builder (the same in both files) *)

(** [p.children] extended by [more]; nothing else of [p] changes. *)
Definition add_children (p : ProcessInfo) (more : list Z) : ProcessInfo :=
  mkProcessInfo (pid p) (name p) (ppid p) (command_line p)
    (current_directory p) (user p) (timestamp p)
    (children p ++ more)%list.

(** [self.processes[parent].children.append(child)] *)
Definition append_child (parent child : Z) (procs : registry) : registry :=
  dict_update Z.eqb parent (fun p => add_children p [child]) procs.

(** One turn of the loop of [_build_tree]:
    [if proc.ppid and proc.ppid in self.processes: ...] *)
Definition link_one (procs : registry) (item : Z * ProcessInfo) : registry :=
  let (k, proc) := item in
  match ppid proc with
  | Some pp =>
      if int_truthy (ppid proc) && reg_mem pp procs
      then append_child pp k procs
      else procs
  | None => procs
  end.

(** [_build_tree]: the loop runs over the items of the dictionary, whose
    keys and parent ids the loop body does not change. *)
Definition _build_tree (procs : registry) : registry :=
  fold_left link_one procs procs.

(** [parse_evtx] on a file that exists and decodes: the loop, then the
    link step. *)
Definition parse_evtx (units : list evtx_unit) (max_events : option Z)
  (self : SysmonParser) : SysmonParser :=
  let self := evtx_loop max_events units 0 self in
  mkParser (_build_tree (processes self)) (total_events self)
    (process_events self).

Definition parse_csv (rows : list CsvRow) (max_events : option Z)
  (self : SysmonParser) : SysmonParser :=
  let self := csv_loop max_events rows self in
  mkParser (_build_tree (processes self)) (total_events self)
    (process_events self).

(** [l.sort(key=lambda x: x.timestamp)]: a stable sort, which compares
    keys with [<] only.  Insertion from the right keeps equal keys in
    their original order. *)
Fixpoint insert_by_timestamp (x : ProcessInfo) (l : list ProcessInfo)
  : list ProcessInfo :=
  match l with
  | [] => [x]
  | y :: rest =>
      if String.ltb (timestamp y) (timestamp x)
      then y :: insert_by_timestamp x rest
      else x :: l
  end.

Fixpoint sort_by_timestamp (l : list ProcessInfo) : list ProcessInfo :=
  match l with
  | [] => []
  | x :: rest => insert_by_timestamp x (sort_by_timestamp rest)
  end.

(** [p.ppid is None or p.ppid not in self.processes] *)
Definition is_root (procs : registry) (p : ProcessInfo) : bool :=
  match ppid p with
  | None => true
  | Some pp => negb (reg_mem pp procs)
  end.

Definition get_root_processes (procs : registry) : list ProcessInfo :=
  sort_by_timestamp (filter (is_root procs) (dict_values procs)).

(* ------------------------------------------------------------------ *)
(** ** The renderer *)

(** Lines 285-286:
    [children = [self.processes[c] for c in proc.children
                 if c in self.processes]], then the sort. *)
Definition sorted_children (procs : registry) (proc : ProcessInfo)
  : list ProcessInfo :=
  sort_by_timestamp
    (flat_map
       (fun c => match reg_get c procs with
                 | Some p => [p]
                 | None => []
                 end)
       (children proc)).

(** All results, or [None] when one of them is missing. *)
Fixpoint all_some {A : Type} (l : list (option A)) : option (list A) :=
  match l with
  | [] => Some []
  | Some a :: rest =>
      match all_some rest with
      | Some r => Some (a :: r)
      | None => None
      end
  | None :: _ => None
  end.

(** The recursion of [_gen_proc_html].  [node] builds the result for one
    record from the results for its children, in their sorted order.
    [path] is the list of the pids of the calls that are still open, the
    innermost first; the code does not keep it.  The recursion is not
    bounded in the code: [None] stands for a walk that is still running
    when [fuel] nested calls are open. *)
Fixpoint walk {A : Type} (node : list Z -> ProcessInfo -> list A -> A)
  (procs : registry) (fuel : nat) (path : list Z) (proc : ProcessInfo)
  : option A :=
  match fuel with
  | O => None
  | S fuel' =>
      let kids :=
        if (0 <? List.length (children proc))%nat
        then sorted_children procs proc
        else [] in
      match all_some
              (map (walk node procs fuel' (pid proc :: path)) kids) with
      | Some results => Some (node path proc results)
      | None => None
      end
  end.

(** One [detail-row] of the details block, present for a non-empty
    value only. *)
Definition detail_row (label : string) (shown : string) (value : string)
  : string :=
  if str_truthy value then
    "<div class=" ++ q "detail-row" ++ "><span class=" ++ q "detail-label"
      ++ ">" ++ label ++ "</span>" ++ shown ++ "</div>"
  else "".

(** [proc.ppid or 'ROOT'] inside the f-string *)
Definition ppid_or_ROOT (v : option Z) : string :=
  match v with
  | Some n => if n =? 0 then "ROOT" else str_of_Z n
  | None => "ROOT"
  end.

(** The text [_gen_proc_html] builds for one record, given the texts of
    its children.  The two files differ by the blank [sep] between the
    spans of the header: none in sysmon2tree.py (lines 271-291), one
    space in sysmon_csv_tree.py (lines 206-226). *)
Definition html_node (sep : string) (proc : ProcessInfo)
  (child_html : list string) : string :=
  let has_ch := (0 <? List.length (children proc))%nat in
  let tog :=
    "<span class=" ++ q "toggle" ++ ">" ++ (if has_ch then "[+]" else "")
      ++ "</span>" in
  let h :=
    "<div class=" ++ q "process" ++ "><div class=" ++ q "process-header"
      ++ " onclick=" ++ q "toggleProcess(this)" ++ ">" ++ tog in
  let h :=
    h ++ "<span class=" ++ q "pid" ++ ">PID:" ++ str_of_Z (pid proc)
      ++ "</span>" ++ sep ++ "<span class=" ++ q "ppid" ++ ">| PPID:"
      ++ ppid_or_ROOT (ppid proc) ++ "</span>" ++ sep in
  let h :=
    h ++ "<span class=" ++ q "name" ++ ">| " ++ _esc (name proc)
      ++ "</span>" in
  let h :=
    if has_ch then
      h ++ sep ++ "<span style=" ++ q "color:#6c757d" ++ ">("
        ++ str_of_Z (Z.of_nat (List.length (children proc)))
        ++ " children)</span>"
    else h in
  let h := h ++ "</div><div class=" ++ q "details" ++ ">" in
  let h := h ++ detail_row "CMD:" (_esc (command_line proc))
                  (command_line proc) in
  let h := h ++ detail_row "DIR:" (_esc (current_directory proc))
                  (current_directory proc) in
  let h := h ++ detail_row "USER:" (_esc (user proc)) (user proc) in
  let h := h ++ detail_row "TIME:" (timestamp proc) (timestamp proc) in
  let h := h ++ "</div>" in
  let h :=
    if has_ch then
      h ++ "<div class=" ++ q "children" ++ ">" ++ join child_html
        ++ "</div>"
    else h in
  h ++ "</div>".

Definition _gen_proc_html (sep : string) (procs : registry) (fuel : nat)
  (proc : ProcessInfo) : option string :=
  walk (fun _ p child_html => html_node sep p child_html) procs fuel [] proc.

(** [''.join([self._gen_proc_html(r) for r in roots])] *)
Definition _gen_tree_html (sep : string) (procs : registry) (fuel : nat)
  (roots : list ProcessInfo) : option string :=
  match all_some (map (_gen_proc_html sep procs fuel) roots) with
  | Some parts => Some (join parts)
  | None => None
  end.

(** The tree part of [generate_html]: the roots, then their rendering.
    The rest of the page is a fixed template around it. *)
Definition generate_html_tree (sep : string) (procs : registry) (fuel : nat)
  : option string :=
  _gen_tree_html sep procs fuel (get_root_processes procs).

(** The calls of [_gen_proc_html] made for one record, in the order they
    are entered: each with the path that is open when it is entered and
    the record it is made on. *)
Definition calls_node (path : list Z) (p : ProcessInfo)
  (below : list (list (list Z * ProcessInfo))) : list (list Z * ProcessInfo) :=
  (path, p) :: List.concat below.

Definition calls (procs : registry) (fuel : nat) (proc : ProcessInfo)
  : option (list (list Z * ProcessInfo)) :=
  walk calls_node procs fuel [] proc.

(** The calls made while the whole tree is rendered. *)
Definition tree_calls (procs : registry) (fuel : nat)
  : option (list (list Z * ProcessInfo)) :=
  match all_some (map (calls procs fuel) (get_root_processes procs)) with
  | Some cs => Some (List.concat cs)
  | None => None
  end.

(** The registry after a sequence of insertions
    [self.processes[r.pid] = r]. *)
Definition insert_all (records : list ProcessInfo) (procs : registry)
  : registry :=
  fold_left (fun d r => reg_set (pid r) r d) records procs.

(** The last element of [l] that satisfies [f]. *)
Definition find_last {A : Type} (f : A -> bool) (l : list A) : option A :=
  find f (rev l).

(** The four [replace] calls, without the test for the empty string. *)
Definition esc_chain (t : string) : string :=
  str_replace dquote "&quot;"
    (str_replace ">" "&gt;"
       (str_replace "<" "&lt;"
          (str_replace "&" "&amp;" t))).

(** [x] comes no later than [y] in timestamp order. *)
Definition ts_le (x y : ProcessInfo) : Prop :=
  String.leb (timestamp x) (timestamp y) = true.

(** The two programs: each [main] makes a fresh parser, parses its
    file and renders the registry. *)
Inductive input : Type :=
| EvtxFile (units : list evtx_unit)
| CsvFile (rows : list CsvRow).

Definition analyze (i : input) (max_events : option Z) : SysmonParser :=
  match i with
  | EvtxFile units => parse_evtx units max_events SysmonParser_init
  | CsvFile rows => parse_csv rows max_events SysmonParser_init
  end.

(** The blank between the header spans of the program that reads [i]. *)
Definition sep_of (i : input) : string :=
  match i with
  | EvtxFile _ => ""
  | CsvFile _ => " "
  end.

(** The pids whose record names [k] as its parent in a way the link step
    accepts, in the order of the registry. *)
Definition linked_children (procs : registry) (k : Z) : list Z :=
  map fst
    (filter (fun item =>
               match ppid (snd item) with
               | Some pp => int_truthy (Some pp) && (pp =? k)
               | None => false
               end)
       procs).

(** What holds of a registry when parsing ends and the link step has not
    run yet: no pid twice, each record under its own pid, no child
    recorded. *)
Definition unlinked (procs : registry) : Prop :=
  NoDup (dict_keys procs)
  /\ Forall (fun item => pid (snd item) = fst item
                         /\ children (snd item) = []) procs.

(** The registry with the child list of each record extended by what
    [more] gives for its key. *)
Definition with_children (more : Z -> list Z) (procs : registry) : registry :=
  map (fun item => (fst item, add_children (snd item) (more (fst item))))
    procs.

(** The first [k] records of an input, and their number. *)
Definition input_firstn (k : nat) (i : input) : input :=
  match i with
  | EvtxFile units => EvtxFile (firstn k units)
  | CsvFile rows => CsvFile (firstn k rows)
  end.

Definition input_length (i : input) : nat :=
  match i with
  | EvtxFile units => List.length units
  | CsvFile rows => List.length rows
  end.

(** ProcessId absent, not a number, or not positive. *)
Definition invalid_pid (data : dict string string) : Prop :=
  match int_of_field "ProcessId" data with
  | Some p => p <= 0
  | None => True
  end.

(** The field mapping the CSV code builds from a row (lines 75-85), when
    the payload decodes. *)
Definition csv_row_data (row : CsvRow) : option (dict string string) :=
  match row_Payload row with
  | None => Some (csv_data [])
  | Some BadPayload => None
  | Some (PayloadData items) => Some (csv_data items)
  end.

(* ------------------------------------------------------------------ *)
(** ** Inputs for the examples

    A process-creation event with the given fields, as each front end
    sees it. *)

Definition evtx_event (fields : list (string * string)) (time : string)
  : evtx_unit :=
  Some (mkXmlRoot (Some (Some "1")) None
          (map (fun kv => mkDataElem (Some (fst kv)) (Some (snd kv))) fields)
          [] (Some (Some time)) None).

Definition csv_event (fields : list (string * string)) (time : string)
  : CsvRow :=
  mkCsvRow (Some "1")
    (Some (PayloadData
             (map (fun kv => mkPayloadItem (Some (fst kv)) (Some (snd kv)))
                fields)))
    None (Some time).

(** The XML tree inside an [evtx_event]. *)
Definition xml_of (fields : list (string * string)) (time : string)
  : XmlRoot :=
  mkXmlRoot (Some (Some "1")) None
    (map (fun kv => mkDataElem (Some (fst kv)) (Some (snd kv))) fields)
    [] (Some (Some time)) None.

(** What holds of a registry after the link step: no pid twice, each
    record under its own pid, and its child list the pids that name it
    as parent. *)
Definition linked (procs : registry) : Prop :=
  NoDup (dict_keys procs)
  /\ forall k p, In (k, p) procs ->
                 pid p = k /\ children p = linked_children procs k.

(** [path] is the chain of parent pids that leads from the record [p] of
    the registry up to a root: empty when [p] is a root, and otherwise the
    parent pid of [p] followed by the chain of the parent. *)
Fixpoint ancestry (procs : registry) (p : ProcessInfo) (path : list Z)
  : Prop :=
  In (pid p, p) procs
  /\ match path with
     | [] => is_root procs p = true
     | a :: rest =>
         ppid p = Some a
         /\ exists q, reg_get a procs = Some q /\ ancestry procs q rest
     end.

(** A log with cyclic parent data: pid 1 names 2 as its parent and 2
    names 1; pid 3 has no parent and 4 is its child. *)
Definition cyclic_input : input :=
  EvtxFile
    [evtx_event [("ProcessId", "1"); ("ParentProcessId", "2")]
       "2024-01-01T00:00:01";
     evtx_event [("ProcessId", "2"); ("ParentProcessId", "1")]
       "2024-01-01T00:00:02";
     evtx_event [("ProcessId", "3")] "2024-01-01T00:00:03";
     evtx_event [("ProcessId", "4"); ("ParentProcessId", "3")]
       "2024-01-01T00:00:04"].

(** The pids of a set form a parent cycle in the registry: each is the
    pid of a record whose parent pid is in the set too. *)
Definition parent_cycle (procs : registry) (members : list Z) : Prop :=
  forall k, In k members ->
    exists r, reg_get k procs = Some r
              /\ exists k', In k' members /\ ppid r = Some k'.

(* ------------------------------------------------------------------ *)
(** ** The records an input gives *)

(** The record lines 110-117 of sysmon2tree.py build from an event, when
    they build one: [None] when the ProcessId is missing, not a number or
    not positive, or the ParentProcessId is not a number. *)
Definition evtx_record (root : XmlRoot) : option ProcessInfo :=
  let data := evtx_data root in
  match int_of_field "ProcessId" data with
  | None => None
  | Some pid =>
      if 0 <? pid then
        match optional_int_of_field "ParentProcessId" data with
        | None => None
        | Some ppid =>
            Some (ProcessInfo_init pid
                    (image_name
                       (dict_get_default String.eqb "Image" "Unknown" data))
                    ppid
                    (dict_get_default String.eqb "CommandLine" "" data)
                    (dict_get_default String.eqb "CurrentDirectory" "" data)
                    (dict_get_default String.eqb "User" "" data)
                    (evtx_timestamp root))
        end
      else None
  end.

(** The record lines 88-110 of sysmon_csv_tree.py build from a row. *)
Definition csv_record (row : CsvRow) : option ProcessInfo :=
  match csv_row_data row with
  | None => None
  | Some data =>
      match int_of_field "ProcessId" data with
      | None => None
      | Some pid =>
          if pid <=? 0 then None
          else
            match optional_int_of_field "ParentProcessId" data with
            | None => None
            | Some ppid =>
                Some (ProcessInfo_init pid
                        (image_name
                           (dict_get_default String.eqb "Image" "Unknown"
                              data))
                        ppid
                        (dict_get_default String.eqb "CommandLine" "" data)
                        (dict_get_default String.eqb "CurrentDirectory" ""
                           data)
                        (dict_get_default String.eqb "User"
                           (opt_default "" (row_UserName row)) data)
                        (csv_timestamp row))
            end
      end
  end.

Definition option_list {A : Type} (o : option A) : list A :=
  match o with
  | Some a => [a]
  | None => []
  end.

(** A record of the log that the loop hands to the extraction: it
    parses and its EventID is 1. *)
Definition evtx_qualifies (u : evtx_unit) : bool :=
  match u with
  | Some root => evtx_is_process_creation root
  | None => false
  end.

Definition csv_qualifies (row : CsvRow) : bool :=
  match row_EventId row with
  | Some t => String.eqb t "1"
  | None => false
  end.

(** The records built from a log, in the order of the log. *)
Definition evtx_records (units : list evtx_unit) : list ProcessInfo :=
  flat_map
    (fun u => match u with
              | Some root =>
                  if evtx_is_process_creation root
                  then option_list (evtx_record root) else []
              | None => []
              end)
    units.

Definition csv_records (rows : list CsvRow) : list ProcessInfo :=
  flat_map
    (fun row => if csv_qualifies row then option_list (csv_record row)
                else [])
    rows.

(** The part of the input the loop gets to under a cap. *)
Definition cap_prefix {A : Type} (max_events : option Z) (l : list A)
  : list A :=
  match max_events with
  | Some m => if m =? 0 then l else firstn (Z.to_nat m) l
  | None => l
  end.

Definition input_records (max_events : option Z) (i : input)
  : list ProcessInfo :=
  match i with
  | EvtxFile units => evtx_records (cap_prefix max_events units)
  | CsvFile rows => csv_records (cap_prefix max_events rows)
  end.

(** The number of records of the input that qualify, under a cap. *)
Definition input_qualifying (max_events : option Z) (i : input) : nat :=
  match i with
  | EvtxFile units =>
      List.length (filter evtx_qualifies (cap_prefix max_events units))
  | CsvFile rows =>
      List.length (filter csv_qualifies (cap_prefix max_events rows))
  end.

(** The elements of [l] in the order of their first occurrence, those of
    [seen] left out. *)
Fixpoint first_occurrences (seen : list Z) (l : list Z) : list Z :=
  match l with
  | [] => []
  | k :: rest =>
      if existsb (Z.eqb k) seen then first_occurrences seen rest
      else k :: first_occurrences (k :: seen) rest
  end.

(** What holds of every record the extraction builds. *)
Definition well_formed_record (r : ProcessInfo) : Prop :=
  0 < pid r
  /\ children r = []
  /\ (String.length (timestamp r) <= 19)%nat
  /\ str_contains "\" (name r) = false.

(** [p] is [r] but for the child list. *)
Definition same_but_children (p r : ProcessInfo) : Prop :=
  pid p = pid r /\ name p = name r /\ ppid p = ppid r
  /\ command_line p = command_line r
  /\ current_directory p = current_directory r
  /\ user p = user r /\ timestamp p = timestamp r.

(** The sum of the lengths of the child lists of a registry: the number
    of records that are shown below another one. *)
Definition total_children (procs : registry) : nat :=
  list_sum (map (fun item => List.length (children (snd item))) procs).

(** The pids of the registry whose record names [k] as its parent, in
    the order of the registry. *)
Definition naming_parent (procs : registry) (k : Z) : list Z :=
  map fst
    (filter (fun item =>
               match ppid (snd item) with
               | Some pp => pp =? k
               | None => false
               end)
       procs).

(** The Data element [e] assigns the field [n] in the loops of lines
    94-97 and 100-103 of sysmon2tree.py: its name is [n] and neither the
    name nor the text is empty. *)
Definition sets_field (n : string) (e : DataElem) : bool :=
  match elem_Name e, elem_text e with
  | Some m, Some t => str_truthy m && str_truthy t && String.eqb m n
  | _, _ => false
  end.

(** The payload item [it] assigns the field [n] in the loop of lines
    81-85 of sysmon_csv_tree.py: its name is [n] and is not empty. *)
Definition item_sets_field (n : string) (it : PayloadItem) : bool :=
  let name := opt_default "" (item_Name it) in
  str_truthy name && String.eqb name n.

(** A run in which the reader of the log raises after it has given the
    records of [i], with no cap set: the [except Exception] clause of
    [parse_evtx] (lines 81-83) or of [parse_csv] (lines 57-61) prints the
    error and returns, so [_build_tree] is not run; [main] goes on to
    [generate_html] with the registry as the loop left it. *)
Definition analyze_interrupted (i : input) : SysmonParser :=
  match i with
  | EvtxFile units => evtx_loop None units 0 SysmonParser_init
  | CsvFile rows => csv_loop None rows SysmonParser_init
  end.

(** The parser when the loop of [parse_evtx] (lines 54-79) or of
    [parse_csv] (lines 38-55) has ended and [_build_tree] has not run
    yet: the registry is what the assignments
    [self.processes[pid] = ProcessInfo(...)] have left. *)
Definition after_loop (i : input) (max_events : option Z) : SysmonParser :=
  match i with
  | EvtxFile units => evtx_loop max_events units 0 SysmonParser_init
  | CsvFile rows => csv_loop max_events rows SysmonParser_init
  end.

(* ================================================================== *)
(** * Properties *)

(* ------------------------------------------------------------------ *)
(** ** Strings *)

Lemma str_app_assoc (s1 s2 s3 : string) :
  (s1 ++ s2) ++ s3 = s1 ++ (s2 ++ s3).
Proof.
  induction s1 as [|a s1 IH]; simpl; [reflexivity|]. now rewrite IH.
Qed.

Lemma str_replace_app (c : ascii) (by_ s1 s2 : string) :
  str_replace c by_ (s1 ++ s2) = str_replace c by_ s1 ++ str_replace c by_ s2.
Proof.
  induction s1 as [|a s1 IH]; simpl; [reflexivity|].
  destruct (Ascii.eqb a c); simpl; rewrite IH; [|reflexivity].
  now rewrite str_app_assoc.
Qed.

Lemma str_contains_app (c : ascii) (s1 s2 : string) :
  str_contains c (s1 ++ s2) = str_contains c s1 || str_contains c s2.
Proof.
  induction s1 as [|a s1 IH]; simpl; [reflexivity|].
  now rewrite IH, orb_assoc.
Qed.

Lemma esc_chain_app (s1 s2 : string) :
  esc_chain (s1 ++ s2) = esc_chain s1 ++ esc_chain s2.
Proof.
  unfold esc_chain. now rewrite !str_replace_app.
Qed.

Lemma esc_chain_char (a : ascii) :
  esc_chain (String a EmptyString) = entity a.
Proof.
  unfold esc_chain, entity; simpl.
  destruct (Ascii.eqb a "&") eqn:E1.
  - reflexivity.
  - simpl. destruct (Ascii.eqb a "<") eqn:E2.
    + reflexivity.
    + simpl. destruct (Ascii.eqb a ">") eqn:E3.
      * reflexivity.
      * simpl. destruct (Ascii.eqb a dquote) eqn:E4; reflexivity.
Qed.

Lemma esc_chain_flat (t : string) : esc_chain t = flat_entities t.
Proof.
  induction t as [|a t IH]; [reflexivity|].
  change (String a t) with (String a EmptyString ++ t).
  rewrite esc_chain_app, esc_chain_char, IH. reflexivity.
Qed.

Lemma esc_flat (t : string) : _esc t = flat_entities t.
Proof.
  destruct t as [|a t]; [reflexivity|].
  change (_esc (String a t)) with (esc_chain (String a t)).
  apply esc_chain_flat.
Qed.

Lemma flat_entities_no_markup (c : ascii) (t : string) :
  In c ["<"; ">"; dquote]%char -> str_contains c (flat_entities t) = false.
Proof.
  intros Hc. induction t as [|a t IH]; [reflexivity|].
  simpl. rewrite str_contains_app, IH, orb_false_r.
  unfold entity.
  destruct (Ascii.eqb_spec a "&") as [->|N1];
    [simpl in Hc; decompose [or] Hc; subst; try reflexivity; contradiction|].
  destruct (Ascii.eqb_spec a "<") as [->|N2];
    [simpl in Hc; decompose [or] Hc; subst; try reflexivity; contradiction|].
  destruct (Ascii.eqb_spec a ">") as [->|N3];
    [simpl in Hc; decompose [or] Hc; subst; try reflexivity; contradiction|].
  destruct (Ascii.eqb_spec a dquote) as [->|N4];
    [simpl in Hc; decompose [or] Hc; subst; try reflexivity; contradiction|].
  simpl. rewrite orb_false_r.
  apply Ascii.eqb_neq. simpl in Hc; decompose [or] Hc; subst;
    try assumption; contradiction.
Qed.

Lemma flat_entities_apostrophe (t : string) :
  str_contains "'" (flat_entities t) = str_contains "'" t.
Proof.
  induction t as [|a t IH]; [reflexivity|].
  simpl. rewrite str_contains_app, IH. f_equal.
  unfold entity.
  destruct (Ascii.eqb_spec a "&") as [->|N1]; [reflexivity|].
  destruct (Ascii.eqb_spec a "<") as [->|N2]; [reflexivity|].
  destruct (Ascii.eqb_spec a ">") as [->|N3]; [reflexivity|].
  destruct (Ascii.eqb_spec a dquote) as [->|N4]; [reflexivity|].
  simpl. now rewrite orb_false_r.
Qed.

(** C1, as the code has it: [_esc] replaces each of the four characters
    ampersand, less-than, greater-than and double quote by its entity and
    copies every other character, the apostrophe included.  So the
    result holds no raw less-than, greater-than or double quote, and it
    holds an apostrophe exactly when the argument does. *)
Theorem C1_esc_four_entities (t : string) :
  _esc t = flat_entities t
  /\ str_contains "<" (_esc t) = false
  /\ str_contains ">" (_esc t) = false
  /\ str_contains dquote (_esc t) = false
  /\ str_contains "'" (_esc t) = str_contains "'" t.
Proof.
  rewrite esc_flat. repeat split.
  - apply flat_entities_no_markup; simpl; auto.
  - apply flat_entities_no_markup; simpl; auto.
  - apply flat_entities_no_markup; simpl; auto.
  - apply flat_entities_apostrophe.
Qed.

(** C1 as stated fails: the apostrophe of a value comes out raw. *)
Lemma C1_apostrophe_left_raw :
  _esc "it's <b>" = "it's &lt;b&gt;"
  /\ str_contains "'" (_esc "it's <b>") = true.
Proof. split; reflexivity. Qed.

(* ------------------------------------------------------------------ *)
(** ** The registry as a dictionary *)

Lemma reg_get_set_same (k : Z) (v : ProcessInfo) (d : registry) :
  reg_get k (reg_set k v d) = Some v.
Proof.
  unfold reg_get, reg_set.
  induction d as [|[k' v'] d IH]; simpl.
  - now rewrite Z.eqb_refl.
  - destruct (Z.eqb_spec k' k) as [->|N]; simpl.
    + now rewrite Z.eqb_refl.
    + destruct (Z.eqb_spec k' k); [contradiction|exact IH].
Qed.

Lemma reg_get_set_other (k k' : Z) (v : ProcessInfo) (d : registry) :
  k <> k' -> reg_get k' (reg_set k v d) = reg_get k' d.
Proof.
  intros N. unfold reg_get, reg_set.
  induction d as [|[k1 v1] d IH]; simpl.
  - destruct (Z.eqb_spec k k'); [contradiction|reflexivity].
  - destruct (Z.eqb_spec k1 k) as [->|N1]; simpl.
    + destruct (Z.eqb_spec k k'); [contradiction|reflexivity].
    + now rewrite IH.
Qed.

Lemma reg_mem_In (k : Z) (d : registry) :
  reg_mem k d = true <-> In k (dict_keys d).
Proof.
  unfold reg_mem, dict_mem, dict_keys.
  induction d as [|[k' v'] d IH]; simpl.
  - split; [discriminate|contradiction].
  - destruct (Z.eqb_spec k' k) as [->|N].
    + split; auto.
    + rewrite IH. split; [auto|]. intros [E|H]; [contradiction|exact H].
Qed.

Lemma reg_mem_false (k : Z) (d : registry) :
  reg_mem k d = false <-> ~ In k (dict_keys d).
Proof.
  rewrite <- reg_mem_In. destruct (reg_mem k d); split; intros H;
    congruence.
Qed.

Lemma reg_get_None (k : Z) (d : registry) :
  reg_get k d = None <-> ~ In k (dict_keys d).
Proof.
  rewrite <- reg_mem_false. unfold reg_mem, dict_mem, reg_get.
  destruct (dict_get Z.eqb k d); split; congruence.
Qed.

Lemma reg_get_In_item (k : Z) (v : ProcessInfo) (d : registry) :
  reg_get k d = Some v -> In (k, v) d.
Proof.
  unfold reg_get.
  induction d as [|[k' v'] d IH]; simpl; [discriminate|].
  destruct (Z.eqb_spec k' k) as [->|N].
  - intros [= ->]. now left.
  - intros H. right. now apply IH.
Qed.

Lemma In_item_reg_get (k : Z) (v : ProcessInfo) (d : registry) :
  NoDup (dict_keys d) -> In (k, v) d -> reg_get k d = Some v.
Proof.
  unfold reg_get, dict_keys.
  induction d as [|[k' v'] d IH]; simpl; [contradiction|].
  intros ND [E|H].
  - injection E as -> ->. now rewrite Z.eqb_refl.
  - inversion ND as [|? ? Hn ND']; subst.
    destruct (Z.eqb_spec k' k) as [->|N].
    + exfalso. apply Hn. change k with (fst (k, v)). now apply in_map.
    + now apply IH.
Qed.

Lemma keys_reg_set (k : Z) (v : ProcessInfo) (d : registry) :
  dict_keys (reg_set k v d) =
    if reg_mem k d then dict_keys d else (dict_keys d ++ [k])%list.
Proof.
  unfold reg_set, reg_mem, dict_mem, dict_keys.
  induction d as [|[k' v'] d IH]; simpl; [reflexivity|].
  destruct (Z.eqb_spec k' k) as [->|N]; simpl; [reflexivity|].
  rewrite IH. now destruct (dict_get Z.eqb k d).
Qed.

Lemma NoDup_app_single (l : list Z) (k : Z) :
  NoDup l -> ~ In k l -> NoDup (l ++ [k])%list.
Proof.
  induction l as [|a l IH]; simpl; intros ND Hn.
  - constructor; [intros []|constructor].
  - inversion ND; subst. constructor.
    + rewrite in_app_iff. simpl. intros [H|[H|[]]]; [contradiction|].
      apply Hn. now left.
    + apply IH; [assumption|]. intros H. apply Hn. now right.
Qed.

Lemma NoDup_keys_reg_set (k : Z) (v : ProcessInfo) (d : registry) :
  NoDup (dict_keys d) -> NoDup (dict_keys (reg_set k v d)).
Proof.
  intros ND. rewrite keys_reg_set.
  destruct (reg_mem k d) eqn:E; [assumption|].
  apply NoDup_app_single; [assumption|]. now apply reg_mem_false.
Qed.

Lemma In_keys_reg_set (k k' : Z) (v : ProcessInfo) (d : registry) :
  In k' (dict_keys (reg_set k v d)) <-> k' = k \/ In k' (dict_keys d).
Proof.
  rewrite keys_reg_set. destruct (reg_mem k d) eqn:E.
  - apply reg_mem_In in E. split; [auto|]. intros [->|H]; assumption.
  - rewrite in_app_iff. simpl. intuition congruence.
Qed.

(* ------------------------------------------------------------------ *)
(** ** Insertion: one record per pid, the last one wins *)

Lemma find_app {A : Type} (f : A -> bool) (l1 l2 : list A) :
  find f (l1 ++ l2)%list =
    match find f l1 with
    | Some x => Some x
    | None => find f l2
    end.
Proof.
  induction l1 as [|a l1 IH]; simpl; [reflexivity|].
  now destruct (f a).
Qed.

Lemma insert_all_get (records : list ProcessInfo) (d : registry) (k : Z) :
  reg_get k (insert_all records d) =
    match find_last (fun r => pid r =? k) records with
    | Some r => Some r
    | None => reg_get k d
    end.
Proof.
  unfold insert_all, find_last. revert d.
  induction records as [|r rs IH]; intros d; simpl; [reflexivity|].
  rewrite IH, find_app. simpl.
  destruct (find (fun r0 => pid r0 =? k) (rev rs)); [reflexivity|].
  destruct (Z.eqb_spec (pid r) k) as [<-|N].
  - apply reg_get_set_same.
  - now apply reg_get_set_other.
Qed.

Lemma insert_all_NoDup (records : list ProcessInfo) (d : registry) :
  NoDup (dict_keys d) -> NoDup (dict_keys (insert_all records d)).
Proof.
  unfold insert_all. revert d.
  induction records as [|r rs IH]; intros d ND; simpl; [assumption|].
  apply IH. now apply NoDup_keys_reg_set.
Qed.

Lemma insert_all_keys (records : list ProcessInfo) (d : registry) (k : Z) :
  In k (dict_keys (insert_all records d)) <->
  In k (map pid records) \/ In k (dict_keys d).
Proof.
  unfold insert_all. revert d.
  induction records as [|r rs IH]; intros d; simpl; [tauto|].
  rewrite IH, In_keys_reg_set. intuition congruence.
Qed.

(** After any sequence of insertions into an empty registry, the
    registry has no pid twice, its pids are those of the inserted
    records, and the record under a pid is the last one inserted with
    that pid. *)
Lemma insert_all_last_wins (records : list ProcessInfo) :
  let procs := insert_all records [] in
  NoDup (dict_keys procs)
  /\ (forall k, In k (dict_keys procs) <-> In k (map pid records))
  /\ (forall k, reg_get k procs
                = find_last (fun r => pid r =? k) records)
  /\ (forall k r, In (k, r) procs <->
                  find_last (fun r => pid r =? k) records = Some r).
Proof.
  simpl. assert (ND : NoDup (dict_keys (insert_all records []))).
  { apply insert_all_NoDup. constructor. }
  assert (G : forall k, reg_get k (insert_all records [])
                        = find_last (fun r => pid r =? k) records).
  { intros k. rewrite insert_all_get.
    now destruct (find_last (fun r => pid r =? k) records). }
  split; [exact ND|]. split; [|split; [exact G|]].
  - intros k. rewrite insert_all_keys. simpl. tauto.
  - intros k r. rewrite <- G. split.
    + now apply In_item_reg_get.
    + apply reg_get_In_item.
Qed.

(* ------------------------------------------------------------------ *)
(** ** Order on timestamps and the stable sort *)

Lemma str_compare_refl (s : string) : String.compare s s = Eq.
Proof.
  pose proof (String.compare_antisym s s) as H.
  destruct (String.compare s s); simpl in H; congruence.
Qed.

Lemma str_ltb_irrefl (s : string) : String.ltb s s = false.
Proof. unfold String.ltb. now rewrite str_compare_refl. Qed.

Lemma str_ltb_leb (s1 s2 : string) :
  String.ltb s1 s2 = true -> String.leb s1 s2 = true.
Proof.
  unfold String.ltb, String.leb. now destruct (String.compare s1 s2).
Qed.

Lemma str_not_ltb_leb (s1 s2 : string) :
  String.ltb s1 s2 = false -> String.leb s2 s1 = true.
Proof.
  unfold String.ltb, String.leb. rewrite (String.compare_antisym s1 s2).
  now destruct (String.compare s2 s1).
Qed.

Lemma str_leb_empty (s : string) : String.leb "" s = true.
Proof. now destruct s. Qed.

Lemma str_leb_trans (s1 s2 s3 : string) :
  String.leb s1 s2 = true -> String.leb s2 s3 = true ->
  String.leb s1 s3 = true.
Proof.
  unfold String.leb. revert s2 s3.
  induction s1 as [|c1 s1 IH]; intros [|c2 s2] [|c3 s3]; simpl;
    try congruence.
  unfold Ascii.compare.
  destruct (N.compare_spec (N_of_ascii c1) (N_of_ascii c2)) as [E12|L12|G12];
    destruct (N.compare_spec (N_of_ascii c2) (N_of_ascii c3)) as [E23|L23|G23];
    try congruence.
  - rewrite E12, E23, N.compare_refl. apply IH.
  - rewrite E12. intros _ _.
    now rewrite (proj2 (N.compare_lt_iff _ _) L23).
  - rewrite <- E23. intros _ _.
    now rewrite (proj2 (N.compare_lt_iff _ _) L12).
  - intros _ _.
    now rewrite (proj2 (N.compare_lt_iff _ _) (N.lt_trans _ _ _ L12 L23)).
Qed.

Lemma insert_by_timestamp_perm (x : ProcessInfo) (l : list ProcessInfo) :
  Permutation (insert_by_timestamp x l) (x :: l).
Proof.
  induction l as [|y l IH]; simpl; [apply Permutation_refl|].
  destruct (String.ltb (timestamp y) (timestamp x)).
  - eapply perm_trans; [apply perm_skip, IH|apply perm_swap].
  - apply Permutation_refl.
Qed.

Lemma sort_by_timestamp_perm (l : list ProcessInfo) :
  Permutation (sort_by_timestamp l) l.
Proof.
  induction l as [|x l IH]; simpl; [constructor|].
  eapply perm_trans; [apply insert_by_timestamp_perm|now apply perm_skip].
Qed.

Lemma sort_by_timestamp_In (x : ProcessInfo) (l : list ProcessInfo) :
  In x (sort_by_timestamp l) <-> In x l.
Proof.
  split; apply Permutation_in;
    [|apply Permutation_sym]; apply sort_by_timestamp_perm.
Qed.

Lemma insert_by_timestamp_sorted (x : ProcessInfo) (l : list ProcessInfo) :
  StronglySorted ts_le l -> StronglySorted ts_le (insert_by_timestamp x l).
Proof.
  induction l as [|y l IH]; simpl; intros S.
  - constructor; constructor.
  - inversion S as [|? ? S' F]; subst.
    destruct (String.ltb (timestamp y) (timestamp x)) eqn:E.
    + constructor; [now apply IH|].
      apply Forall_forall. intros z Hz.
      apply (Permutation_in _ (insert_by_timestamp_perm x l)) in Hz.
      destruct Hz as [<-|Hz].
      * now apply str_ltb_leb.
      * rewrite Forall_forall in F. now apply F.
    + constructor; [assumption|].
      assert (Hxy : ts_le x y) by now apply str_not_ltb_leb.
      constructor; [assumption|].
      rewrite Forall_forall in *. intros z Hz.
      unfold ts_le in *. eapply str_leb_trans; [exact Hxy|now apply F].
Qed.

Lemma sort_by_timestamp_sorted (l : list ProcessInfo) :
  StronglySorted ts_le (sort_by_timestamp l).
Proof.
  induction l as [|x l IH]; simpl; [constructor|].
  now apply insert_by_timestamp_sorted.
Qed.

(** Stability: the records of any one timestamp come out in the order
    they went in. *)
Lemma insert_by_timestamp_stable (t : string) (x : ProcessInfo)
  (l : list ProcessInfo) :
  filter (fun p => String.eqb (timestamp p) t) (insert_by_timestamp x l)
  = filter (fun p => String.eqb (timestamp p) t) (x :: l).
Proof.
  induction l as [|y l IH]; [reflexivity|].
  simpl insert_by_timestamp.
  destruct (String.ltb (timestamp y) (timestamp x)) eqn:E; [|reflexivity].
  simpl. simpl in IH. rewrite IH.
  destruct (String.eqb_spec (timestamp x) t) as [Ex|Nx];
    destruct (String.eqb_spec (timestamp y) t) as [Ey|Ny]; try reflexivity.
  rewrite Ex, Ey, str_ltb_irrefl in E. discriminate.
Qed.

Lemma sort_by_timestamp_stable (t : string) (l : list ProcessInfo) :
  filter (fun p => String.eqb (timestamp p) t) (sort_by_timestamp l)
  = filter (fun p => String.eqb (timestamp p) t) l.
Proof.
  induction l as [|x l IH]; [reflexivity|].
  simpl sort_by_timestamp. rewrite insert_by_timestamp_stable.
  simpl. now rewrite IH.
Qed.

(** In a sorted list an empty timestamp has only empty timestamps
    before it. *)
Lemma sorted_empty_first (l1 l2 : list ProcessInfo) (x : ProcessInfo) :
  StronglySorted ts_le (l1 ++ x :: l2)%list -> timestamp x = "" ->
  Forall (fun y => timestamp y = "") l1.
Proof.
  induction l1 as [|y l1 IH]; simpl; intros S Hx; [constructor|].
  inversion S as [|? ? S' F]; subst. constructor; [|now apply IH].
  rewrite Forall_forall in F.
  assert (H : ts_le y x) by (apply F, in_or_app; right; now left).
  unfold ts_le in H. rewrite Hx in H.
  apply String.leb_antisym; [exact H|apply str_leb_empty].
Qed.

(* ------------------------------------------------------------------ *)
(** ** The link step *)

Lemma add_children_nil (p : ProcessInfo) : add_children p [] = p.
Proof. destruct p. unfold add_children. simpl. now rewrite app_nil_r. Qed.

Lemma add_children_add (p : ProcessInfo) (l1 l2 : list Z) :
  add_children (add_children p l1) l2 = add_children p (l1 ++ l2)%list.
Proof. unfold add_children. simpl. now rewrite app_assoc. Qed.

Lemma with_children_nil (d : registry) : with_children (fun _ => []) d = d.
Proof.
  unfold with_children. induction d as [|[k p] d IH]; simpl; [reflexivity|].
  now rewrite add_children_nil, IH.
Qed.

Lemma with_children_keys (g : Z -> list Z) (d : registry) :
  dict_keys (with_children g d) = dict_keys d.
Proof.
  unfold with_children, dict_keys. rewrite map_map. reflexivity.
Qed.

Lemma with_children_ext (g1 g2 : Z -> list Z) (d : registry) :
  (forall k, In k (dict_keys d) -> g1 k = g2 k) ->
  with_children g1 d = with_children g2 d.
Proof.
  unfold with_children, dict_keys. intros H. apply map_ext_in.
  intros [k p] Hin. simpl. rewrite (H k); [reflexivity|].
  change k with (fst (k, p)). now apply in_map.
Qed.

Lemma with_children_mem (g : Z -> list Z) (d : registry) (k : Z) :
  reg_mem k (with_children g d) = reg_mem k d.
Proof.
  destruct (reg_mem k d) eqn:E.
  - apply reg_mem_In. rewrite with_children_keys. now apply reg_mem_In.
  - apply reg_mem_false. rewrite with_children_keys. now apply reg_mem_false.
Qed.

Lemma with_children_get (g : Z -> list Z) (d : registry) (k : Z) :
  reg_get k (with_children g d) =
    match reg_get k d with
    | Some p => Some (add_children p (g k))
    | None => None
    end.
Proof.
  unfold reg_get, with_children.
  induction d as [|[k' p] d IH]; simpl; [reflexivity|].
  destruct (Z.eqb_spec k' k) as [->|N]; [reflexivity|exact IH].
Qed.

Lemma append_child_with_children (g : Z -> list Z) (d : registry)
  (pp c : Z) :
  NoDup (dict_keys d) ->
  append_child pp c (with_children g d)
  = with_children (fun k => if k =? pp then (g k ++ [c])%list else g k) d.
Proof.
  unfold append_child, with_children, dict_keys.
  induction d as [|[k p] d IH]; simpl; intros ND; [reflexivity|].
  inversion ND as [|? ? Hn ND']; subst.
  destruct (Z.eqb_spec k pp) as [->|N].
  - rewrite add_children_add. f_equal.
    apply map_ext_in. intros [k' p'] Hin. simpl.
    destruct (Z.eqb_spec k' pp) as [->|N']; [|reflexivity].
    exfalso. apply Hn. change pp with (fst (pp, p')). now apply in_map.
  - f_equal. now apply IH.
Qed.

Lemma linked_children_cons (k c : Z) (proc : ProcessInfo) (items : registry) :
  linked_children ((c, proc) :: items) k =
    match ppid proc with
    | Some pp =>
        if int_truthy (Some pp) && (pp =? k)
        then c :: linked_children items k
        else linked_children items k
    | None => linked_children items k
    end.
Proof.
  unfold linked_children. cbn [filter snd].
  destruct (ppid proc) as [pp|]; [|reflexivity].
  now destruct (int_truthy (Some pp) && (pp =? k)).
Qed.

Lemma link_one_with_children (g : Z -> list Z) (d : registry) (c : Z)
  (proc : ProcessInfo) :
  NoDup (dict_keys d) ->
  link_one (with_children g d) (c, proc)
  = with_children
      (fun k => (g k ++ linked_children [(c, proc)] k)%list) d.
Proof.
  intros ND. unfold link_one.
  destruct (ppid proc) as [pp|] eqn:Epp.
  - rewrite with_children_mem.
    destruct (int_truthy (Some pp) && reg_mem pp d) eqn:C.
    + rewrite append_child_with_children by assumption.
      apply with_children_ext. intros k Hk.
      rewrite linked_children_cons, Epp.
      apply andb_prop in C. destruct C as [C1 C2]. rewrite C1.
      rewrite (Z.eqb_sym pp k). simpl.
      destruct (k =? pp); [reflexivity|now rewrite app_nil_r].
    + apply with_children_ext. intros k Hk.
      rewrite linked_children_cons, Epp.
      destruct (int_truthy (Some pp)) eqn:C1;
        [|simpl; now rewrite app_nil_r].
      simpl in C. cbn [andb].
      destruct (Z.eqb_spec pp k) as [->|N]; [|simpl; now rewrite app_nil_r].
      apply reg_mem_In in Hk. congruence.
  - apply with_children_ext. intros k _.
    rewrite linked_children_cons, Epp. simpl. now rewrite app_nil_r.
Qed.

Lemma linked_children_split (a : Z * ProcessInfo) (items : registry) (k : Z) :
  linked_children (a :: items) k
  = (linked_children [a] k ++ linked_children items k)%list.
Proof.
  change (a :: items) with ([a] ++ items)%list.
  unfold linked_children. now rewrite filter_app, map_app.
Qed.

Lemma fold_link_one (items d : registry) (g : Z -> list Z) :
  NoDup (dict_keys d) ->
  fold_left link_one items (with_children g d)
  = with_children (fun k => (g k ++ linked_children items k)%list) d.
Proof.
  intros ND. revert g.
  induction items as [|[c proc] items IH]; intros g.
  - apply with_children_ext. intros k _. unfold linked_children. simpl.
    now rewrite app_nil_r.
  - cbn [fold_left]. rewrite link_one_with_children by assumption.
    rewrite IH. apply with_children_ext. intros k _.
    rewrite (linked_children_split (c, proc) items k).
    now rewrite <- app_assoc.
Qed.

(** The link step adds to each record the pids that name it as their
    parent, in registry order, and changes nothing else. *)
Lemma build_tree_with_children (d : registry) :
  NoDup (dict_keys d) ->
  _build_tree d = with_children (linked_children d) d.
Proof.
  intros ND. unfold _build_tree.
  rewrite <- (with_children_nil d) at 2.
  rewrite fold_link_one by assumption. reflexivity.
Qed.

Lemma build_tree_keys (d : registry) :
  NoDup (dict_keys d) -> dict_keys (_build_tree d) = dict_keys d.
Proof.
  intros ND. rewrite build_tree_with_children by assumption.
  apply with_children_keys.
Qed.

Lemma build_tree_get (d : registry) (k : Z) :
  NoDup (dict_keys d) ->
  reg_get k (_build_tree d) =
    match reg_get k d with
    | Some p => Some (add_children p (linked_children d k))
    | None => None
    end.
Proof.
  intros ND. rewrite build_tree_with_children by assumption.
  apply with_children_get.
Qed.

(* ------------------------------------------------------------------ *)
(** ** What parsing leaves in the registry *)

Lemma reg_set_Forall (P : Z * ProcessInfo -> Prop) (k : Z) (v : ProcessInfo)
  (d : registry) :
  Forall P d -> P (k, v) -> Forall P (reg_set k v d).
Proof.
  unfold reg_set. intros F Pv.
  induction d as [|[k' v'] d IH]; simpl.
  - constructor; [assumption|constructor].
  - inversion F; subst.
    destruct (Z.eqb_spec k' k) as [->|N]; constructor; auto.
Qed.

Lemma unlinked_nil : unlinked [].
Proof. split; constructor. Qed.

Lemma unlinked_reg_set (k : Z) (v : ProcessInfo) (d : registry) :
  unlinked d -> pid v = k -> children v = [] -> unlinked (reg_set k v d).
Proof.
  intros [ND F] Hp Hc. split.
  - now apply NoDup_keys_reg_set.
  - apply reg_set_Forall; [assumption|]. simpl. now split.
Qed.

Lemma extract_process_data_unlinked (root : XmlRoot) (d : registry) :
  unlinked d -> unlinked (_extract_process_data root d).
Proof.
  intros U. unfold _extract_process_data.
  destruct (int_of_field "ProcessId" (evtx_data root)) as [p|]; [|assumption].
  destruct (0 <? p); [|assumption].
  destruct (optional_int_of_field "ParentProcessId" (evtx_data root));
    [|assumption].
  now apply unlinked_reg_set.
Qed.

Lemma extract_process_from_row_unlinked (row : CsvRow) (self : SysmonParser) :
  unlinked (processes self) ->
  unlinked (processes (_extract_process_from_row row self)).
Proof.
  intros U. unfold _extract_process_from_row.
  destruct (row_Payload row) as [[|items]|]; try assumption.
  destruct (int_of_field "ProcessId" (csv_data items)) as [p|];
    [|assumption].
  destruct (p <=? 0); [assumption|].
  destruct (optional_int_of_field "ParentProcessId" (csv_data items));
    [|assumption].
  simpl. now apply unlinked_reg_set.
Qed.

Lemma evtx_loop_unlinked (max_events : option Z) (units : list evtx_unit)
  (n : Z) (self : SysmonParser) :
  unlinked (processes self) ->
  unlinked (processes (evtx_loop max_events units n self)).
Proof.
  revert n self.
  induction units as [|u units IH]; intros n self U; simpl; [assumption|].
  destruct (cap_reached max_events (n + 1)); [assumption|].
  destruct u as [root|]; [|now apply IH].
  destruct (evtx_is_process_creation root); apply IH; simpl;
    [now apply extract_process_data_unlinked|assumption].
Qed.

Lemma csv_loop_unlinked (max_events : option Z) (rows : list CsvRow)
  (self : SysmonParser) :
  unlinked (processes self) ->
  unlinked (processes (csv_loop max_events rows self)).
Proof.
  revert self.
  induction rows as [|row rows IH]; intros self U; simpl; [assumption|].
  destruct (cap_reached max_events (total_events self + 1)); [assumption|].
  destruct (row_EventId row) as [t|]; [|now apply IH].
  destruct (String.eqb t "1"); apply IH; [|assumption].
  now apply extract_process_from_row_unlinked.
Qed.

(** The registry of either program is the link step applied to a
    registry that parsing left unlinked. *)
Lemma analyze_linked (i : input) (max_events : option Z) :
  exists d, unlinked d /\ processes (analyze i max_events) = _build_tree d.
Proof.
  destruct i as [units|rows]; simpl.
  - eexists. split; [|reflexivity].
    apply evtx_loop_unlinked. apply unlinked_nil.
  - eexists. split; [|reflexivity].
    apply csv_loop_unlinked. apply unlinked_nil.
Qed.

(* ------------------------------------------------------------------ *)
(** ** Roots *)

Lemma is_root_spec (procs : registry) (r : ProcessInfo) :
  is_root procs r = true <->
  ppid r = None \/ exists pp, ppid r = Some pp /\ ~ In pp (dict_keys procs).
Proof.
  unfold is_root. destruct (ppid r) as [pp|].
  - rewrite negb_true_iff, reg_mem_false. split.
    + intros H. right. now exists pp.
    + intros [H|[pp' [[= <-] H]]]; [discriminate|assumption].
  - split; auto.
Qed.

(** C4: a record of the registry is in the root sequence exactly when
    its parent pid is absent or is not a pid of the registry.  This holds
    of every registry; in particular, after any sequence of insertions
    followed by the link step, whether a record is a root depends on the
    set of inserted pids only, not on the order of the insertions. *)
Theorem C4_root_iff :
  (forall (procs : registry) (r : ProcessInfo),
      In r (get_root_processes procs) <->
      In r (dict_values procs)
      /\ (ppid r = None
          \/ exists pp, ppid r = Some pp /\ ~ In pp (dict_keys procs)))
  /\ (forall (records : list ProcessInfo) (r : ProcessInfo),
        let procs := _build_tree (insert_all records []) in
        In r (get_root_processes procs) <->
        In r (dict_values procs)
        /\ (ppid r = None
            \/ exists pp, ppid r = Some pp /\ ~ In pp (map pid records))).
Proof.
  assert (G : forall procs r,
             In r (get_root_processes procs) <->
             In r (dict_values procs)
             /\ (ppid r = None
                 \/ exists pp, ppid r = Some pp
                               /\ ~ In pp (dict_keys procs))).
  { intros procs r. unfold get_root_processes.
    rewrite sort_by_timestamp_In, filter_In, is_root_spec. reflexivity. }
  split; [exact G|].
  intros records r procs. rewrite G. subst procs.
  assert (ND : NoDup (dict_keys (insert_all records []))).
  { apply insert_all_NoDup. constructor. }
  rewrite build_tree_keys by assumption.
  assert (K : forall pp, In pp (dict_keys (insert_all records []))
                         <-> In pp (map pid records)).
  { intros pp. rewrite insert_all_keys. simpl. tauto. }
  split; intros [H1 [H2|[pp [H2 H3]]]]; split; auto; right; exists pp;
    split; auto; now rewrite ?K in *.
Qed.

(* ------------------------------------------------------------------ *)
(** ** The parent pid of a stored record *)

Lemma optional_int_missing (key : string) (data : dict string string) :
  dict_get String.eqb key data = None
  \/ dict_get String.eqb key data = Some "" ->
  optional_int_of_field key data = Some None.
Proof.
  unfold optional_int_of_field. now intros [-> | ->].
Qed.

Lemma optional_int_present (key s : string) (n : Z)
  (data : dict string string) :
  dict_get String.eqb key data = Some s -> s <> "" -> py_int s = Some n ->
  optional_int_of_field key data = Some (Some n).
Proof.
  unfold optional_int_of_field. intros -> Hs ->.
  destruct s; [contradiction|reflexivity].
Qed.

Lemma extract_process_data_stores (root : XmlRoot) (procs : registry)
  (p : Z) (v : option Z) :
  int_of_field "ProcessId" (evtx_data root) = Some p -> 0 < p ->
  optional_int_of_field "ParentProcessId" (evtx_data root) = Some v ->
  exists r, reg_get p (_extract_process_data root procs) = Some r
            /\ pid r = p /\ ppid r = v.
Proof.
  intros Hp Hpos Hv. unfold _extract_process_data. rewrite Hp, Hv.
  apply Z.ltb_lt in Hpos. rewrite Hpos.
  eexists. split; [apply reg_get_set_same|split; reflexivity].
Qed.

Lemma extract_process_from_row_stores (row : CsvRow) (self : SysmonParser)
  (data : dict string string) (p : Z) (v : option Z) :
  csv_row_data row = Some data ->
  int_of_field "ProcessId" data = Some p -> 0 < p ->
  optional_int_of_field "ParentProcessId" data = Some v ->
  exists r,
    reg_get p (processes (_extract_process_from_row row self)) = Some r
    /\ pid r = p /\ ppid r = v.
Proof.
  intros Hd Hp Hpos Hv. unfold _extract_process_from_row.
  unfold csv_row_data in Hd.
  destruct (row_Payload row) as [[|items]|]; try discriminate;
    injection Hd as <-; rewrite Hp, Hv;
    (destruct (Z.leb_spec p 0) as [L|_]; [lia|]);
    simpl; eexists; (split; [apply reg_get_set_same|split; reflexivity]).
Qed.

(** C3, as the code has it.  For a field mapping with a valid ProcessId,
    in either front end: when ParentProcessId is missing or empty the
    stored record has no parent pid; when it is a non-empty numeral the
    stored parent pid is that number, the number zero included. *)
Theorem C3_ppid_absent_iff_field_missing :
  (forall (root : XmlRoot) (procs : registry) (p : Z),
      int_of_field "ProcessId" (evtx_data root) = Some p -> 0 < p ->
      let field := dict_get String.eqb "ParentProcessId" (evtx_data root) in
      let procs' := _extract_process_data root procs in
      (field = None \/ field = Some "" ->
       exists r, reg_get p procs' = Some r /\ ppid r = None)
      /\ (forall s n, field = Some s -> s <> "" -> py_int s = Some n ->
          exists r, reg_get p procs' = Some r /\ ppid r = Some n))
  /\ (forall (row : CsvRow) (self : SysmonParser) (data : dict string string)
             (p : Z),
        csv_row_data row = Some data ->
        int_of_field "ProcessId" data = Some p -> 0 < p ->
        let field := dict_get String.eqb "ParentProcessId" data in
        let procs' := processes (_extract_process_from_row row self) in
        (field = None \/ field = Some "" ->
         exists r, reg_get p procs' = Some r /\ ppid r = None)
        /\ (forall s n, field = Some s -> s <> "" -> py_int s = Some n ->
            exists r, reg_get p procs' = Some r /\ ppid r = Some n)).
Proof.
  split.
  - intros root procs p Hp Hpos field procs'. split.
    + intros H. apply optional_int_missing in H.
      destruct (extract_process_data_stores root procs Hp Hpos H)
        as [r [H1 [_ H2]]]. now exists r.
    + intros s n Hf Hs Hn.
      pose proof (optional_int_present _ _ Hf Hs Hn) as H.
      destruct (extract_process_data_stores root procs Hp Hpos H)
        as [r [H1 [_ H2]]]. now exists r.
  - intros row self data p Hd Hp Hpos field procs'. split.
    + intros H. apply optional_int_missing in H.
      destruct (extract_process_from_row_stores row self Hd Hp Hpos H)
        as [r [H1 [_ H2]]]. now exists r.
    + intros s n Hf Hs Hn.
      pose proof (optional_int_present _ _ Hf Hs Hn) as H.
      destruct (extract_process_from_row_stores row self Hd Hp Hpos H)
        as [r [H1 [_ H2]]]. now exists r.
Qed.

(** The theorem at an event with ProcessId 5 and ParentProcessId 0: the
    stored parent pid is the number 0. *)
Lemma C3_witness :
  exists r,
    reg_get 5 (_extract_process_data
                 (xml_of [("ProcessId", "5"); ("ParentProcessId", "0")] "")
                 [])
    = Some r
    /\ ppid r = Some 0.
Proof.
  apply (proj2 (proj1 C3_ppid_absent_iff_field_missing
                  (xml_of [("ProcessId", "5"); ("ParentProcessId", "0")] "")
                  [] 5 eq_refl eq_refl) "0" 0).
  - reflexivity.
  - discriminate.
  - reflexivity.
Defined.

(** C3 as stated fails: a ParentProcessId field equal to zero is stored
    as the parent pid 0, which is not an absent parent pid. *)
Lemma C3_zero_parent_is_stored :
  option_map ppid
    (reg_get 5 (_extract_process_data
                  (xml_of [("ProcessId", "5"); ("ParentProcessId", "0")] "")
                  []))
  = Some (Some 0)
  /\ option_map ppid
       (reg_get 5
          (processes
             (_extract_process_from_row
                (csv_event [("ProcessId", "5"); ("ParentProcessId", "0")] "")
                SysmonParser_init)))
     = Some (Some 0).
Proof. split; reflexivity. Qed.

(* ------------------------------------------------------------------ *)
(** ** Events with an invalid ProcessId *)

Lemma extract_process_data_invalid (root : XmlRoot) (procs : registry) :
  invalid_pid (evtx_data root) -> _extract_process_data root procs = procs.
Proof.
  unfold invalid_pid, _extract_process_data.
  destruct (int_of_field "ProcessId" (evtx_data root)) as [p|];
    [|reflexivity].
  intros H. destruct (Z.ltb_spec 0 p); [lia|reflexivity].
Qed.

Lemma extract_process_from_row_invalid (row : CsvRow) (self : SysmonParser) :
  match csv_row_data row with
  | Some data => invalid_pid data
  | None => True
  end ->
  _extract_process_from_row row self = self.
Proof.
  unfold csv_row_data, invalid_pid, _extract_process_from_row.
  destruct (row_Payload row) as [[|items]|]; try reflexivity.
  destruct (int_of_field "ProcessId" (csv_data items)) as [p|];
    [|reflexivity].
  intros H. destruct (Z.leb_spec p 0); [reflexivity|lia].
Qed.

(** In the EVTX loop an event with EventID 1 is counted whether or not
    its record is inserted. *)
Lemma evtx_loop_counts_invalid (root : XmlRoot) (n : Z) (self : SysmonParser) :
  evtx_is_process_creation root = true ->
  invalid_pid (evtx_data root) ->
  evtx_loop None [Some root] n self
  = mkParser (processes self) (n + 1) (process_events self + 1).
Proof.
  intros H1 H2. simpl. rewrite H1.
  now rewrite extract_process_data_invalid.
Qed.

(** In the CSV loop such a row leaves the registry and the counter of
    process events as they were. *)
Lemma csv_loop_skips_invalid (row : CsvRow) (self : SysmonParser) :
  match csv_row_data row with
  | Some data => invalid_pid data
  | None => True
  end ->
  csv_loop None [row] self
  = mkParser (processes self) (total_events self + 1) (process_events self).
Proof.
  intros H. simpl.
  destruct (row_EventId row) as [t|]; [|reflexivity].
  destruct (String.eqb t "1"); [|reflexivity].
  now rewrite extract_process_from_row_invalid.
Qed.

(** C2 at an event with EventID 1 and ProcessId 0.  Neither program
    inserts a record.  The CSV program leaves the counter of process
    events at 0, as the claim says; the EVTX program counts the event. *)
Theorem C2_evtx_counts_rejected_event :
  let evtx := analyze (EvtxFile [evtx_event [("ProcessId", "0")] ""]) None in
  let csv := analyze (CsvFile [csv_event [("ProcessId", "0")] ""]) None in
  processes evtx = [] /\ total_events evtx = 1 /\ process_events evtx = 1
  /\ processes csv = [] /\ total_events csv = 1 /\ process_events csv = 0.
Proof. repeat split. Qed.

(* ------------------------------------------------------------------ *)
(** ** The cap on the number of events *)

Lemma cap_reached_spec (m n : Z) :
  cap_reached (Some m) n = true <-> m <> 0 /\ m < n.
Proof.
  unfold cap_reached.
  rewrite andb_true_iff, negb_true_iff, Z.eqb_neq, Z.ltb_lt. reflexivity.
Qed.

Lemma evtx_loop_cap_zero (units : list evtx_unit) (n : Z)
  (self : SysmonParser) :
  evtx_loop (Some 0) units n self = evtx_loop None units n self.
Proof.
  revert n self. induction units as [|u units IH]; intros n self; simpl;
    [reflexivity|].
  destruct u as [root|]; [|apply IH].
  destruct (evtx_is_process_creation root); apply IH.
Qed.

Lemma csv_loop_cap_zero (rows : list CsvRow) (self : SysmonParser) :
  csv_loop (Some 0) rows self = csv_loop None rows self.
Proof.
  revert self. induction rows as [|row rows IH]; intros self; simpl;
    [reflexivity|].
  destruct (row_EventId row) as [t|]; [|apply IH].
  destruct (String.eqb t "1"); apply IH.
Qed.

Lemma evtx_loop_total (units : list evtx_unit) (n : Z) (self : SysmonParser) :
  total_events self = n ->
  total_events (evtx_loop None units n self)
  = n + Z.of_nat (List.length units).
Proof.
  revert n self. induction units as [|u units IH]; intros n self H.
  - simpl. lia.
  - cbn [evtx_loop cap_reached List.length]. rewrite Nat2Z.inj_succ.
    destruct u as [root|]; [destruct (evtx_is_process_creation root)|];
      rewrite IH; simpl; lia.
Qed.

Lemma extract_process_from_row_total (row : CsvRow) (self : SysmonParser) :
  total_events (_extract_process_from_row row self) = total_events self.
Proof.
  unfold _extract_process_from_row.
  destruct (row_Payload row) as [[|items]|]; try reflexivity.
  - destruct (int_of_field "ProcessId" (csv_data items)) as [p|];
      [|reflexivity].
    destruct (p <=? 0); [reflexivity|].
    now destruct (optional_int_of_field "ParentProcessId" (csv_data items)).
Qed.

Lemma csv_loop_total (rows : list CsvRow) (self : SysmonParser) :
  total_events (csv_loop None rows self)
  = total_events self + Z.of_nat (List.length rows).
Proof.
  revert self. induction rows as [|row rows IH]; intros self.
  - simpl. lia.
  - cbn [csv_loop cap_reached List.length]. rewrite Nat2Z.inj_succ.
    destruct (row_EventId row) as [t|]; [destruct (String.eqb t "1")|];
      rewrite IH; rewrite ?extract_process_from_row_total; simpl; lia.
Qed.

(** C10: a cap of 0 is no cap.  Either program run with the cap 0 ends
    in the state it ends in without a cap, having counted every record of
    the input; the cap stops the loop only when it is not zero and the
    count has passed it. *)
Theorem C10_cap_zero_is_no_cap :
  (forall i, analyze i (Some 0) = analyze i None)
  /\ (forall i, total_events (analyze i (Some 0)) = Z.of_nat (input_length i))
  /\ (forall m n, cap_reached (Some m) n = true <-> m <> 0 /\ m < n).
Proof.
  assert (E : forall i, analyze i (Some 0) = analyze i None).
  { intros [units|rows]; unfold analyze, parse_evtx, parse_csv.
    - now rewrite evtx_loop_cap_zero.
    - now rewrite csv_loop_cap_zero. }
  split; [exact E|]. split; [|exact cap_reached_spec].
  intros i. rewrite E. destruct i as [units|rows]; simpl.
  - now rewrite evtx_loop_total.
  - now rewrite csv_loop_total.
Qed.

(** With a cap that is not zero, the registry and the count of process
    events are built from the records up to the cap. *)
Lemma evtx_loop_cap (m : Z) (units : list evtx_unit) (n : Z)
  (self : SysmonParser) :
  m <> 0 ->
  let capped := evtx_loop (Some m) units n self in
  let prefix := evtx_loop None (firstn (Z.to_nat (m - n)) units) n self in
  processes capped = processes prefix
  /\ process_events capped = process_events prefix.
Proof.
  intros Hm. revert n self.
  induction units as [|u units IH]; intros n self.
  - simpl. now rewrite firstn_nil.
  - cbn [evtx_loop]. destruct (cap_reached (Some m) (n + 1)) eqn:C.
    + apply cap_reached_spec in C.
      replace (Z.to_nat (m - n)) with O by lia. simpl. now split.
    + assert (L : n + 1 <= m).
      { destruct (Z.le_gt_cases (n + 1) m) as [L|G]; [exact L|].
        assert (cap_reached (Some m) (n + 1) = true)
          by (apply cap_reached_spec; lia).
        congruence. }
      replace (Z.to_nat (m - n)) with (S (Z.to_nat (m - (n + 1)))) by lia.
      cbn [firstn evtx_loop cap_reached].
      destruct u as [root|]; [destruct (evtx_is_process_creation root)|];
        apply IH.
Qed.

Lemma csv_loop_cap (m : Z) (rows : list CsvRow) (self : SysmonParser) :
  m <> 0 ->
  let capped := csv_loop (Some m) rows self in
  let prefix :=
    csv_loop None (firstn (Z.to_nat (m - total_events self)) rows) self in
  processes capped = processes prefix
  /\ process_events capped = process_events prefix.
Proof.
  intros Hm. revert self.
  induction rows as [|row rows IH]; intros self.
  - simpl. now rewrite firstn_nil.
  - cbn [csv_loop total_events].
    destruct (cap_reached (Some m) (total_events self + 1)) eqn:C.
    + apply cap_reached_spec in C.
      replace (Z.to_nat (m - total_events self)) with O by lia.
      simpl. now split.
    + assert (L : total_events self + 1 <= m).
      { destruct (Z.le_gt_cases (total_events self + 1) m) as [L|G];
          [exact L|].
        assert (cap_reached (Some m) (total_events self + 1) = true)
          by (apply cap_reached_spec; lia).
        congruence. }
      replace (Z.to_nat (m - total_events self))
        with (S (Z.to_nat (m - (total_events self + 1)))) by lia.
      cbn [firstn csv_loop cap_reached total_events].
      destruct (row_EventId row) as [t|]; [destruct (String.eqb t "1")|].
      * specialize (IH (_extract_process_from_row row
                          (mkParser (processes self) (total_events self + 1)
                             (process_events self)))).
        rewrite extract_process_from_row_total in IH. exact IH.
      * exact (IH (mkParser (processes self) (total_events self + 1)
                     (process_events self))).
      * exact (IH (mkParser (processes self) (total_events self + 1)
                     (process_events self))).
Qed.

(* ------------------------------------------------------------------ *)
(** ** Order of roots and of children *)

Lemma str_ltb_empty_r (s : string) : String.ltb s "" = false.
Proof. now destruct s. Qed.

Lemma str_ltb_empty_l (s : string) : s <> "" -> String.ltb "" s = true.
Proof. destruct s; [contradiction|reflexivity]. Qed.

Lemma str_ltb_asym (s1 s2 : string) :
  String.ltb s1 s2 = true -> String.ltb s2 s1 = false.
Proof.
  unfold String.ltb. rewrite (String.compare_antisym s1 s2).
  now destruct (String.compare s2 s1).
Qed.

Lemma linked_children_with_children (g : Z -> list Z) (d : registry) (k : Z) :
  linked_children (with_children g d) k = linked_children d k.
Proof.
  unfold linked_children, with_children.
  induction d as [|[c p] d IH]; [reflexivity|].
  cbn [map filter snd fst add_children ppid].
  destruct (ppid p) as [pp|]; [|exact IH].
  destruct (int_truthy (Some pp) && (pp =? k)); cbn [map fst];
    now rewrite IH.
Qed.

(** After the link step the child list of a record is the list of the
    pids that name it as parent, in registry order. *)
Lemma build_tree_children (d : registry) (k : Z) (p : ProcessInfo) :
  unlinked d -> In (k, p) (_build_tree d) ->
  children p = linked_children (_build_tree d) k.
Proof.
  intros [ND F] Hin.
  rewrite build_tree_with_children in * by assumption.
  rewrite linked_children_with_children.
  unfold with_children in Hin. apply in_map_iff in Hin.
  destruct Hin as [[k0 p0] [E Hin0]]. simpl in E. injection E as <- <-.
  rewrite Forall_forall in F. destruct (F _ Hin0) as [_ Hc]. simpl in Hc.
  unfold add_children. simpl. now rewrite Hc.
Qed.

Lemma sort_three_empty_middle (c1 c2 c3 : ProcessInfo) :
  timestamp c2 = "" ->
  String.ltb (timestamp c1) (timestamp c3) = true ->
  map timestamp (sort_by_timestamp [c1; c2; c3])
  = [timestamp c2; timestamp c1; timestamp c3]
  /\ (timestamp c1 <> "" -> sort_by_timestamp [c1; c2; c3] = [c2; c1; c3]).
Proof.
  intros H2 H13.
  cbn [sort_by_timestamp insert_by_timestamp].
  rewrite H2, str_ltb_empty_r. cbn [insert_by_timestamp]. rewrite H2.
  destruct (timestamp c1) as [|a s] eqn:E1.
  - rewrite str_ltb_irrefl. cbn [map]. rewrite H2, E1.
    split; [reflexivity|]. intros N. now contradiction N.
  - rewrite str_ltb_empty_l by discriminate. cbn [insert_by_timestamp].
    rewrite (str_ltb_asym _ _ H13). cbn [map]. rewrite H2, E1.
    now split.
Qed.

(** C6: the root sequence and the children of each rendered record are
    sorted by timestamp in ascending string order, by a stable sort, so
    that empty timestamps come first and records of equal timestamp keep
    the order they had: registry order for the roots, and for the
    children too, since the link step records them in registry order.
    The renderer descends into the children in that sorted order.  For
    three children with timestamps t1, t2, t3 where t2 is empty and
    t1 < t3 the sorted timestamps are t2, t1, t3. *)
Theorem C6_sorted_by_timestamp_stable :
  (forall l,
      StronglySorted ts_le (sort_by_timestamp l)
      /\ Permutation (sort_by_timestamp l) l
      /\ (forall t,
             filter (fun p => String.eqb (timestamp p) t)
               (sort_by_timestamp l)
             = filter (fun p => String.eqb (timestamp p) t) l)
      /\ (forall l1 x l2,
             sort_by_timestamp l = (l1 ++ x :: l2)%list ->
             timestamp x = "" -> Forall (fun y => timestamp y = "") l1))
  /\ (forall procs,
         get_root_processes procs
         = sort_by_timestamp (filter (is_root procs) (dict_values procs)))
  /\ (forall (A : Type) node procs fuel path proc,
         (0 < List.length (children proc))%nat ->
         @walk A node procs (S fuel) path proc
         = match all_some
                   (map (walk node procs fuel (pid proc :: path))
                      (sort_by_timestamp
                         (flat_map
                            (fun c => match reg_get c procs with
                                      | Some p => [p]
                                      | None => []
                                      end)
                            (children proc)))) with
           | Some results => Some (node path proc results)
           | None => None
           end)
  /\ (forall i max_events k p,
         In (k, p) (processes (analyze i max_events)) ->
         children p = linked_children (processes (analyze i max_events)) k)
  /\ (forall c1 c2 c3,
         timestamp c2 = "" ->
         String.ltb (timestamp c1) (timestamp c3) = true ->
         map timestamp (sort_by_timestamp [c1; c2; c3])
         = [timestamp c2; timestamp c1; timestamp c3]
         /\ (timestamp c1 <> "" ->
             sort_by_timestamp [c1; c2; c3] = [c2; c1; c3])).
Proof.
  split; [|split; [|split; [|split]]].
  - intros l. split; [apply sort_by_timestamp_sorted|].
    split; [apply sort_by_timestamp_perm|].
    split; [intros t; apply sort_by_timestamp_stable|].
    intros l1 x l2 E. apply (sorted_empty_first l1 l2 x). rewrite <- E.
    apply sort_by_timestamp_sorted.
  - reflexivity.
  - intros A node procs fuel path proc H. cbn [walk].
    apply Nat.ltb_lt in H. now rewrite H.
  - intros i max_events k p Hin.
    destruct (analyze_linked i max_events) as [d [U E]].
    rewrite E in *. now apply build_tree_children.
  - exact sort_three_empty_middle.
Qed.

(** The last part of the theorem at three children with timestamps
    [2024-01-01T00:00:05], empty and [2024-01-01T00:00:09]. *)
Lemma C6_witness :
  let c1 := ProcessInfo_init 11 "a.exe" (Some 4) "" "" ""
              "2024-01-01T00:00:05" in
  let c2 := ProcessInfo_init 12 "b.exe" (Some 4) "" "" "" "" in
  let c3 := ProcessInfo_init 13 "c.exe" (Some 4) "" "" ""
              "2024-01-01T00:00:09" in
  sort_by_timestamp [c1; c2; c3] = [c2; c1; c3].
Proof.
  intros c1 c2 c3.
  apply (proj2 (proj2 (proj2 (proj2 C6_sorted_by_timestamp_stable)))
           c1 c2 c3 eq_refl eq_refl).
  discriminate.
Defined.

(* ------------------------------------------------------------------ *)
(** ** The registry after the link step *)

Lemma build_tree_linked (d : registry) : unlinked d -> linked (_build_tree d).
Proof.
  intros U. pose proof U as [ND F]. split.
  - now rewrite build_tree_keys.
  - intros k p Hin. split; [|now apply build_tree_children].
    rewrite build_tree_with_children in Hin by assumption.
    unfold with_children in Hin. apply in_map_iff in Hin.
    destruct Hin as [[k0 p0] [E Hin0]]. simpl in E. injection E as <- <-.
    rewrite Forall_forall in F. now destruct (F _ Hin0).
Qed.

Lemma analyze_is_linked (i : input) (max_events : option Z) :
  linked (processes (analyze i max_events)).
Proof.
  destruct (analyze_linked i max_events) as [d [U ->]].
  now apply build_tree_linked.
Qed.

Lemma linked_get (procs : registry) (p : ProcessInfo) :
  linked procs -> In (pid p, p) procs -> reg_get (pid p) procs = Some p.
Proof. intros [ND _] H. now apply In_item_reg_get. Qed.

Lemma linked_get_pid (procs : registry) (k : Z) (p : ProcessInfo) :
  linked procs -> reg_get k procs = Some p -> In (pid p, p) procs.
Proof.
  intros [_ L] H. apply reg_get_In_item in H.
  destruct (L _ _ H) as [-> _]. exact H.
Qed.

Lemma linked_value (procs : registry) (p : ProcessInfo) :
  linked procs -> In p (dict_values procs) -> In (pid p, p) procs.
Proof.
  intros [_ L] H. unfold dict_values in H. apply in_map_iff in H.
  destruct H as [[k p0] [E Hin]]. simpl in E. subst p0.
  destruct (L _ _ Hin) as [-> _]. exact Hin.
Qed.

Lemma linked_children_In (procs : registry) (k c : Z) :
  In c (linked_children procs k) ->
  exists r, In (c, r) procs /\ ppid r = Some k.
Proof.
  unfold linked_children. intros H. apply in_map_iff in H.
  destruct H as [[c0 r] [E H]]. simpl in E. subst c0.
  apply filter_In in H. destruct H as [Hin Hf]. simpl in Hf.
  exists r. split; [assumption|].
  destruct (ppid r) as [pp|]; [|discriminate].
  apply andb_prop in Hf. destruct Hf as [_ Hf].
  apply Z.eqb_eq in Hf. now subst.
Qed.

(** A record the renderer descends into from [p] names [p] as its
    parent. *)
Lemma sorted_children_parent (procs : registry) (p x : ProcessInfo) :
  linked procs -> In (pid p, p) procs -> In x (sorted_children procs p) ->
  In (pid x, x) procs /\ ppid x = Some (pid p).
Proof.
  intros L Hp Hx. unfold sorted_children in Hx.
  apply (proj1 (sort_by_timestamp_In _ _)) in Hx. apply in_flat_map in Hx.
  destruct Hx as [c [Hc Hx]].
  destruct (reg_get c procs) as [x0|] eqn:G; [|contradiction].
  destruct Hx as [<-|[]].
  pose proof (@linked_get_pid _ _ _ L G) as Hin. split; [exact Hin|].
  destruct L as [ND L]. destruct (L _ _ Hp) as [_ Hch].
  rewrite Hch in Hc. apply linked_children_In in Hc.
  destruct Hc as [r [Hr Hpp]].
  apply (@In_item_reg_get _ _ _ ND) in Hr. congruence.
Qed.

(* ------------------------------------------------------------------ *)
(** ** Chains of parents *)

Lemma ancestry_In (procs : registry) (p : ProcessInfo) (path : list Z) :
  ancestry procs p path -> In (pid p, p) procs.
Proof. destruct path; now intros [H _]. Qed.

(** A record has one chain of parents at most. *)
Lemma ancestry_det (procs : registry) (p : ProcessInfo) (l1 l2 : list Z) :
  ancestry procs p l1 -> ancestry procs p l2 -> l1 = l2.
Proof.
  revert p l2. induction l1 as [|a l1 IH]; intros p [|b l2]; simpl.
  - reflexivity.
  - intros [_ R] [_ [Hb [q [G _]]]]. unfold is_root in R. rewrite Hb in R.
    unfold reg_mem, dict_mem in R. fold (reg_get b procs) in R.
    rewrite G in R. discriminate.
  - intros [_ [Ha [q [G _]]]] [_ R]. unfold is_root in R. rewrite Ha in R.
    unfold reg_mem, dict_mem in R. fold (reg_get a procs) in R.
    rewrite G in R. discriminate.
  - intros [_ [Ha [q [G A]]]] [_ [Hb [q' [G' A']]]].
    assert (a = b) by congruence. subst b.
    assert (q' = q) by congruence. subst q'.
    f_equal. now apply (IH q).
Qed.

(** Every pid on the chain of [p] is the pid of a record whose own chain
    is the rest of the chain. *)
Lemma ancestry_split (procs : registry) (p : ProcessInfo) (path : list Z)
  (x : Z) :
  ancestry procs p path -> In x path ->
  exists q l1 l2,
    path = (l1 ++ x :: l2)%list /\ reg_get x procs = Some q
    /\ ancestry procs q l2.
Proof.
  revert p. induction path as [|a path IH]; intros p; simpl;
    [intros _ []|].
  intros [_ [Ha [q [G A]]]] [->|Hx].
  - exists q, [], path. now repeat split.
  - destruct (IH q A Hx) as [q' [l1 [l2 [E [G' A']]]]].
    exists q', (a :: l1), l2. rewrite E. now repeat split.
Qed.

Lemma ancestry_not_on_path (procs : registry) (p : ProcessInfo)
  (path : list Z) :
  linked procs -> ancestry procs p path -> ~ In (pid p) path.
Proof.
  intros L A Hin.
  destruct (@ancestry_split _ _ _ _ A Hin) as [q [l1 [l2 [E [G A']]]]].
  rewrite (@linked_get _ _ L (@ancestry_In _ _ _ A)) in G. injection G as <-.
  pose proof (@ancestry_det _ _ _ _ A A') as E'. rewrite E' in E at 1.
  apply (f_equal (@List.length Z)) in E.
  rewrite length_app in E. simpl in E. lia.
Qed.

Lemma ancestry_NoDup (procs : registry) (p : ProcessInfo) (path : list Z) :
  linked procs -> ancestry procs p path -> NoDup (pid p :: path).
Proof.
  intros L. revert p. induction path as [|a path IH]; intros p A.
  - constructor; [intros []|constructor].
  - constructor; [now apply (@ancestry_not_on_path _ _ _ L A)|].
    destruct A as [_ [_ [q [G A]]]].
    pose proof (@linked_get_pid _ _ _ L G) as Hq.
    pose proof (@linked_get _ _ L Hq) as G'.
    assert (a = pid q).
    { destruct L as [_ L']. apply reg_get_In_item in G.
      now destruct (L' _ _ G). }
    subst a. now apply IH.
Qed.

Lemma ancestry_keys (procs : registry) (p : ProcessInfo) (path : list Z) :
  ancestry procs p path -> incl (pid p :: path) (dict_keys procs).
Proof.
  revert p. induction path as [|a path IH]; intros p A k [<-|Hk].
  - apply ancestry_In in A. change (pid p) with (fst (pid p, p)).
    now apply in_map.
  - destruct Hk.
  - apply ancestry_In in A. change (pid p) with (fst (pid p, p)).
    now apply in_map.
  - destruct A as [_ [_ [q [G A]]]].
    destruct Hk as [<-|Hk].
    + apply reg_mem_In. unfold reg_mem, dict_mem. fold (reg_get a procs).
      now rewrite G.
    + apply (IH q A). now right.
Qed.

(** The chain of a record is shorter than the registry. *)
Lemma ancestry_length (procs : registry) (p : ProcessInfo) (path : list Z) :
  linked procs -> ancestry procs p path ->
  (S (List.length path) <= List.length procs)%nat.
Proof.
  intros L A.
  pose proof (@NoDup_incl_length _ _ _ (@ancestry_NoDup _ _ _ L A)
                (@ancestry_keys _ _ _ A))
    as H.
  unfold dict_keys in H. rewrite length_map in H. exact H.
Qed.

Lemma root_ancestry (procs : registry) (r : ProcessInfo) :
  linked procs -> In r (get_root_processes procs) -> ancestry procs r [].
Proof.
  intros L H. unfold get_root_processes in H.
  apply (proj1 (sort_by_timestamp_In _ _)) in H. apply filter_In in H.
  destruct H as [Hv Hr]. split; [now apply linked_value|exact Hr].
Qed.

Lemma child_ancestry (procs : registry) (p x : ProcessInfo) (path : list Z) :
  linked procs -> ancestry procs p path -> In x (sorted_children procs p) ->
  ancestry procs x (pid p :: path).
Proof.
  intros L A Hx. pose proof (@ancestry_In _ _ _ A) as Hp.
  destruct (@sorted_children_parent _ _ _ L Hp Hx) as [Hin Hpp].
  simpl. split; [exact Hin|]. split; [exact Hpp|].
  exists p. split; [now apply linked_get|exact A].
Qed.

(* ------------------------------------------------------------------ *)
(** ** The walk of the renderer *)

Lemma all_some_map_Some {A B : Type} (f : A -> option B) (l : list A) :
  (forall x, In x l -> exists b, f x = Some b) ->
  exists r, all_some (map f l) = Some r.
Proof.
  induction l as [|x l IH]; intros H; simpl; [now exists []|].
  destruct (H x (or_introl eq_refl)) as [b ->].
  destruct IH as [r ->]; [intros y Hy; apply H; now right|].
  now exists (b :: r).
Qed.

Lemma all_some_map_In {A B : Type} (f : A -> option (list B)) (l : list A)
  (rs : list (list B)) (y : B) :
  all_some (map f l) = Some rs -> In y (List.concat rs) ->
  exists x r, In x l /\ f x = Some r /\ In y r.
Proof.
  revert rs. induction l as [|x l IH]; intros rs; simpl.
  - intros [= <-] [].
  - destruct (f x) as [r|] eqn:E; [|discriminate].
    destruct (all_some (map f l)) as [rs'|]; [|discriminate].
    intros [= <-]. simpl. rewrite in_app_iff. intros [H|H].
    + exists x, r. auto.
    + destruct (IH rs' eq_refl H) as [x' [r' [H1 [H2 H3]]]].
      exists x', r'. auto.
Qed.

(** The records the walk descends into from [proc]. *)
Lemma walk_kids_In (procs : registry) (proc x : ProcessInfo) :
  In x (if (0 <? List.length (children proc))%nat
        then sorted_children procs proc else []) ->
  In x (sorted_children procs proc).
Proof. destruct (0 <? List.length (children proc))%nat; [auto|intros []]. Qed.

(** The walk ends: started on a record with its chain of parents as the
    open path, it needs no more nested calls than the registry has
    records. *)
Lemma walk_succeeds {A : Type} (node : list Z -> ProcessInfo -> list A -> A)
  (procs : registry) :
  linked procs ->
  forall fuel p path,
    ancestry procs p path ->
    (List.length procs <= fuel + List.length path)%nat ->
    exists a, walk node procs fuel path p = Some a.
Proof.
  intros L. induction fuel as [|fuel IH]; intros p path An Hf.
  - pose proof (@ancestry_length _ _ _ L An). simpl in Hf. lia.
  - cbn [walk].
    destruct (@all_some_map_Some _ _
                (walk node procs fuel (pid p :: path))
                (if (0 <? List.length (children p))%nat
                 then sorted_children procs p else [])) as [r ->].
    + intros x Hx. apply walk_kids_In in Hx. apply IH.
      * now apply child_ancestry.
      * simpl. lia.
    + now eexists.
Qed.

(** Every call of the walk is made on a record whose chain of parents is
    the path open at that moment. *)
Lemma walk_calls_ancestry (procs : registry) :
  linked procs ->
  forall fuel p path cs,
    ancestry procs p path ->
    walk calls_node procs fuel path p = Some cs ->
    forall path' q, In (path', q) cs -> ancestry procs q path'.
Proof.
  intros L. induction fuel as [|fuel IH]; intros p path cs An;
    [discriminate|].
  cbn [walk].
  destruct (all_some
              (map (walk calls_node procs fuel (pid p :: path))
                 (if (0 <? List.length (children p))%nat
                  then sorted_children procs p else []))) as [rs|] eqn:E;
    [|discriminate].
  intros [= <-] path' q. unfold calls_node. intros [[= <- <-]|H].
  - exact An.
  - destruct (all_some_map_In _ _ _ E H) as [x [r [Hx [Hw Hr]]]].
    apply walk_kids_In in Hx.
    apply (IH x (pid p :: path) r); [now apply child_ancestry|exact Hw|exact Hr].
Qed.

Lemma tree_calls_ancestry (procs : registry) (fuel : nat)
  (cs : list (list Z * ProcessInfo)) :
  linked procs -> tree_calls procs fuel = Some cs ->
  forall path p, In (path, p) cs -> ancestry procs p path.
Proof.
  intros L. unfold tree_calls.
  destruct (all_some (map (calls procs fuel) (get_root_processes procs)))
    as [rs|] eqn:E; [|discriminate].
  intros [= <-] path p H.
  destruct (all_some_map_In _ _ _ E H) as [r [c [Hr [Hw Hc]]]].
  unfold calls in Hw.
  apply (@walk_calls_ancestry procs L fuel r [] c);
    [now apply root_ancestry|exact Hw|exact Hc].
Qed.

Lemma tree_calls_succeeds (procs : registry) (fuel : nat) :
  linked procs -> (List.length procs <= fuel)%nat ->
  exists cs, tree_calls procs fuel = Some cs.
Proof.
  intros L Hf. unfold tree_calls.
  destruct (@all_some_map_Some _ _ (calls procs fuel)
              (get_root_processes procs)) as [r ->]; [|now eexists].
  intros x Hx. unfold calls. apply walk_succeeds; [assumption| |simpl; lia].
  now apply root_ancestry.
Qed.

Lemma generate_html_tree_succeeds (sep : string) (procs : registry)
  (fuel : nat) :
  linked procs -> (List.length procs <= fuel)%nat ->
  exists html, generate_html_tree sep procs fuel = Some html.
Proof.
  intros L Hf. unfold generate_html_tree, _gen_tree_html.
  destruct (@all_some_map_Some _ _ (_gen_proc_html sep procs fuel)
              (get_root_processes procs)) as [r ->]; [|now eexists].
  intros x Hx. unfold _gen_proc_html.
  apply walk_succeeds; [assumption| |simpl; lia].
  now apply root_ancestry.
Qed.

(** C7: while either program renders its registry, a call of
    [_gen_proc_html] is never made on a pid that is on the open path, and
    the open path holds no pid twice; the rendering ends, with no more
    nested calls than the registry has records.  This holds of every
    input, cyclic parent data included: the records of a cycle are not
    below any root. *)
Theorem C7_render_never_revisits_and_ends (i : input)
  (max_events : option Z) :
  let procs := processes (analyze i max_events) in
  (forall fuel cs,
      tree_calls procs fuel = Some cs ->
      forall path p, In (path, p) cs -> ~ In (pid p) path /\ NoDup path)
  /\ (forall fuel,
         (List.length procs <= fuel)%nat ->
         exists cs, tree_calls procs fuel = Some cs)
  /\ (forall fuel,
         (List.length procs <= fuel)%nat ->
         exists html, generate_html_tree (sep_of i) procs fuel = Some html).
Proof.
  intros procs. pose proof (analyze_is_linked i max_events) as L.
  fold procs in L. split; [|split].
  - intros fuel cs H path p Hin.
    pose proof (@tree_calls_ancestry _ _ _ L H path p Hin) as An.
    pose proof (@ancestry_NoDup _ _ _ L An) as ND.
    inversion ND; subst. now split.
  - intros fuel Hf. now apply tree_calls_succeeds.
  - intros fuel Hf. now apply generate_html_tree_succeeds.
Qed.

(** The theorem at the log with the cycle between pids 1 and 2: four
    records, and four nested calls are enough. *)
Lemma C7_witness :
  (List.length (processes (analyze cyclic_input None)) <= 4)%nat
  /\ exists html,
       generate_html_tree "" (processes (analyze cyclic_input None)) 4
       = Some html.
Proof.
  assert (H : (List.length (processes (analyze cyclic_input None)) <= 4)%nat)
    by (vm_compute; apply le_n).
  split; [exact H|].
  exact (proj2 (proj2 (C7_render_never_revisits_and_ends cyclic_input None))
           4%nat H).
Defined.

(* ------------------------------------------------------------------ *)
(** ** Cycles of parents *)

(** A member of a parent cycle has no chain of parents up to a root. *)
Lemma cycle_no_ancestry (procs : registry) (members : list Z) :
  linked procs -> parent_cycle procs members ->
  forall path p, In (pid p) members -> ~ ancestry procs p path.
Proof.
  intros L C. induction path as [|a path IH]; intros p Hm An.
  - destruct An as [Hin R].
    destruct (C _ Hm) as [r [G [k' [Hk' Hpp]]]].
    rewrite (@linked_get _ _ L Hin) in G. injection G as <-.
    destruct (C _ Hk') as [r' [G' _]].
    unfold is_root in R. rewrite Hpp in R.
    unfold reg_mem, dict_mem in R. fold (reg_get k' procs) in R.
    rewrite G' in R. discriminate.
  - destruct An as [Hin [Ha [q [Gq Aq]]]].
    destruct (C _ Hm) as [r [G [k' [Hk' Hpp]]]].
    rewrite (@linked_get _ _ L Hin) in G. injection G as <-.
    assert (a = k') by congruence. subst a.
    apply (IH q); [|exact Aq].
    destruct L as [_ L']. apply reg_get_In_item in Gq.
    destruct (L' _ _ Gq) as [-> _]. exact Hk'.
Qed.

(** C9: when the registry of either program holds a parent cycle, no
    member of the cycle is in the root sequence, and [_gen_proc_html] is
    called on no member while the tree is rendered: the document, which
    is put together from the records of these calls, holds none of
    them. *)
Theorem C9_cycle_members_not_rendered (i : input) (max_events : option Z)
  (members : list Z) :
  let procs := processes (analyze i max_events) in
  parent_cycle procs members ->
  (forall r, In r (get_root_processes procs) -> ~ In (pid r) members)
  /\ (forall fuel cs,
         tree_calls procs fuel = Some cs ->
         forall path p, In (path, p) cs -> ~ In (pid p) members).
Proof.
  intros procs C. pose proof (analyze_is_linked i max_events) as L.
  fold procs in L. split.
  - intros r Hr Hm.
    apply (@cycle_no_ancestry _ _ L C [] r Hm). now apply root_ancestry.
  - intros fuel cs H path p Hin Hm.
    apply (@cycle_no_ancestry _ _ L C path p Hm).
    exact (@tree_calls_ancestry _ _ _ L H path p Hin).
Qed.

(** The theorem at the log with the cycle between pids 1 and 2: the
    calls of the rendering are on pids 3 and 4 only. *)
Lemma C9_witness :
  parent_cycle (processes (analyze cyclic_input None)) [1; 2]
  /\ (forall r,
         In r (get_root_processes (processes (analyze cyclic_input None))) ->
         ~ In (pid r) [1; 2])
  /\ option_map (map (fun c => pid (snd c)))
       (tree_calls (processes (analyze cyclic_input None)) 4)
     = Some [3; 4].
Proof.
  assert (C : parent_cycle (processes (analyze cyclic_input None)) [1; 2]).
  { intros k [<-|[<-|[]]].
    - eexists. split; [reflexivity|]. exists 2. split; [simpl; auto|reflexivity].
    - eexists. split; [reflexivity|]. exists 1. split; [simpl; auto|reflexivity]. }
  split; [exact C|]. split.
  - exact (proj1 (C9_cycle_members_not_rendered cyclic_input None C)).
  - reflexivity.
Defined.

(* ------------------------------------------------------------------ *)
(** ** The calls are those of the rendering *)

Lemma all_some_map_None {A B : Type} (f : A -> option B) (l : list A) :
  all_some (map f l) = None <-> exists x, In x l /\ f x = None.
Proof.
  induction l as [|x l IH]; simpl.
  - split; [discriminate|intros [x [[] _]]].
  - destruct (f x) as [b|] eqn:E.
    + destruct (all_some (map f l)) as [r|].
      * split; [discriminate|].
        intros [y [[<-|Hy] Hn]]; [congruence|].
        assert (H : exists x0, In x0 l /\ f x0 = None) by now exists y.
        apply IH in H. discriminate.
      * split; [|reflexivity]. intros _.
        destruct (proj1 IH eq_refl) as [y [Hy Hn]]. exists y. auto.
    + split; [|reflexivity]. intros _. exists x. auto.
Qed.

(** Whether the walk ends within [fuel] nested calls depends neither on
    what is built at each record nor on the path handed down: the walk
    that lists the calls runs out of fuel exactly when the walk that
    builds the text does. *)
Lemma walk_None_indep {A B : Type}
  (node1 : list Z -> ProcessInfo -> list A -> A)
  (node2 : list Z -> ProcessInfo -> list B -> B) (procs : registry) :
  forall fuel path1 path2 p,
    walk node1 procs fuel path1 p = None ->
    walk node2 procs fuel path2 p = None.
Proof.
  induction fuel as [|fuel IH]; intros path1 path2 p; [reflexivity|].
  cbn [walk].
  destruct (all_some
              (map (walk node1 procs fuel (pid p :: path1))
                 (if (0 <? List.length (children p))%nat
                  then sorted_children procs p else []))) eqn:E1;
    [discriminate|].
  intros _. apply all_some_map_None in E1. destruct E1 as [x [Hx Hn]].
  assert (E2 : all_some
                 (map (walk node2 procs fuel (pid p :: path2))
                    (if (0 <? List.length (children p))%nat
                     then sorted_children procs p else [])) = None).
  { apply all_some_map_None. exists x. split; [exact Hx|].
    now apply (IH (pid p :: path1)). }
  now rewrite E2.
Qed.

Lemma calls_follow_rendering (sep : string) (procs : registry) (fuel : nat) :
  tree_calls procs fuel = None <-> generate_html_tree sep procs fuel = None.
Proof.
  unfold tree_calls, generate_html_tree, _gen_tree_html.
  destruct (all_some (map (calls procs fuel) (get_root_processes procs)))
    eqn:E1;
    destruct (all_some
                (map (_gen_proc_html sep procs fuel)
                   (get_root_processes procs))) eqn:E2;
    split; try discriminate; try reflexivity; intros _; exfalso.
  - apply all_some_map_None in E2. destruct E2 as [x [Hx Hn]].
    assert (H : all_some (map (calls procs fuel) (get_root_processes procs))
                = None).
    { apply all_some_map_None. exists x. split; [exact Hx|].
      unfold calls. unfold _gen_proc_html in Hn.
      now apply (walk_None_indep _ calls_node procs fuel [] [] x Hn). }
    congruence.
  - apply all_some_map_None in E1. destruct E1 as [x [Hx Hn]].
    assert (H : all_some
                  (map (_gen_proc_html sep procs fuel)
                     (get_root_processes procs)) = None).
    { apply all_some_map_None. exists x. split; [exact Hx|].
      unfold calls in Hn. unfold _gen_proc_html.
      now apply (walk_None_indep calls_node _ procs fuel [] [] x Hn). }
    congruence.
Qed.

(** The recursion of [_gen_proc_html] has no guard of its own: called on
    a member of the cycle of [cyclic_input] it has not returned after any
    number of nested calls.  The rendering never makes such a call, since
    it starts from the roots. *)
Lemma gen_proc_html_on_cycle_member (sep : string) (fuel : nat) :
  let procs := processes (analyze cyclic_input None) in
  forall k r, In k [1; 2] -> reg_get k procs = Some r ->
              _gen_proc_html sep procs fuel r = None.
Proof.
  intros procs. unfold _gen_proc_html.
  assert (G : forall path k r, In k [1; 2] -> reg_get k procs = Some r ->
                walk (fun _ p child_html => html_node sep p child_html)
                  procs fuel path r = None);
    [|intros k r; apply G].
  induction fuel as [|fuel IH]; intros path k r Hk Hr; [reflexivity|].
  cbn [walk].
  assert (E : exists k' r', In k' [1; 2] /\ reg_get k' procs = Some r'
                            /\ (if (0 <? List.length (children r))%nat
                                then sorted_children procs r else [])
                               = [r']).
  { destruct Hk as [<-|[<-|[]]]; vm_compute in Hr; injection Hr as <-.
    - exists 2. eexists. split; [simpl; auto|]. split; reflexivity.
    - exists 1. eexists. split; [simpl; auto|]. split; reflexivity. }
  destruct E as [k' [r' [Hk' [Hr' ->]]]].
  cbn [map all_some]. now rewrite (IH (pid r :: path) k' r' Hk' Hr').
Qed.

(* ================================================================== *)
(** * Further properties of the two programs *)

(* ------------------------------------------------------------------ *)
(** ** Parsing is a sequence of insertions *)

Lemma extract_process_data_record (root : XmlRoot) (procs : registry) :
  _extract_process_data root procs =
    match evtx_record root with
    | Some r => reg_set (pid r) r procs
    | None => procs
    end.
Proof.
  unfold _extract_process_data, evtx_record.
  destruct (int_of_field "ProcessId" (evtx_data root)) as [p|];
    [|reflexivity].
  destruct (0 <? p); [|reflexivity].
  now destruct (optional_int_of_field "ParentProcessId" (evtx_data root)).
Qed.

Lemma extract_process_from_row_record (row : CsvRow) (self : SysmonParser) :
  _extract_process_from_row row self =
    match csv_record row with
    | Some r =>
        mkParser (reg_set (pid r) r (processes self)) (total_events self)
          (process_events self + 1)
    | None => self
    end.
Proof.
  unfold _extract_process_from_row, csv_record, csv_row_data.
  destruct (row_Payload row) as [[|items]|]; try reflexivity.
  destruct (int_of_field "ProcessId" (csv_data items)) as [p|];
    [|reflexivity].
  destruct (p <=? 0); [reflexivity|].
  now destruct (optional_int_of_field "ParentProcessId" (csv_data items)).
Qed.

Lemma insert_all_app (l1 l2 : list ProcessInfo) (d : registry) :
  insert_all (l1 ++ l2)%list d = insert_all l2 (insert_all l1 d).
Proof. unfold insert_all. apply fold_left_app. Qed.

Lemma evtx_loop_insert_all (units : list evtx_unit) (n : Z)
  (self : SysmonParser) :
  processes (evtx_loop None units n self)
  = insert_all (evtx_records units) (processes self).
Proof.
  revert n self. induction units as [|u units IH]; intros n self;
    [reflexivity|].
  cbn [evtx_loop cap_reached evtx_records flat_map].
  fold (evtx_records units). rewrite insert_all_app.
  destruct u as [root|]; [|now rewrite IH].
  destruct (evtx_is_process_creation root); rewrite IH; [|reflexivity].
  cbn [processes]. rewrite extract_process_data_record.
  now destruct (evtx_record root).
Qed.

Lemma csv_loop_insert_all (rows : list CsvRow) (self : SysmonParser) :
  processes (csv_loop None rows self)
  = insert_all (csv_records rows) (processes self).
Proof.
  revert self. induction rows as [|row rows IH]; intros self;
    [reflexivity|].
  cbn [csv_loop cap_reached csv_records flat_map].
  fold (csv_records rows). rewrite insert_all_app. unfold csv_qualifies.
  destruct (row_EventId row) as [t|]; [|now rewrite IH].
  destruct (String.eqb t "1"); rewrite IH; [|reflexivity].
  rewrite extract_process_from_row_record.
  now destruct (csv_record row).
Qed.

Lemma analyze_cap_prefix (i : input) (max_events : option Z) :
  processes (analyze i max_events)
  = processes
      (analyze (match i with
                | EvtxFile units => EvtxFile (cap_prefix max_events units)
                | CsvFile rows => CsvFile (cap_prefix max_events rows)
                end) None)
  /\ process_events (analyze i max_events)
     = process_events
         (analyze (match i with
                   | EvtxFile units => EvtxFile (cap_prefix max_events units)
                   | CsvFile rows => CsvFile (cap_prefix max_events rows)
                   end) None).
Proof.
  destruct max_events as [m|]; [|destruct i; now split].
  unfold cap_prefix. destruct (Z.eqb_spec m 0) as [->|Hm].
  - destruct i as [units|rows]; unfold analyze, parse_evtx, parse_csv;
      [rewrite evtx_loop_cap_zero|rewrite csv_loop_cap_zero]; now split.
  - destruct i as [units|rows]; unfold analyze, parse_evtx, parse_csv;
      cbn [processes process_events].
    + destruct (@evtx_loop_cap m units 0 SysmonParser_init Hm) as [H1 H2].
      rewrite Z.sub_0_r in H1, H2. now rewrite H1, H2.
    + destruct (@csv_loop_cap m rows SysmonParser_init Hm) as [H1 H2].
      cbn [total_events SysmonParser_init] in H1, H2.
      rewrite Z.sub_0_r in H1, H2. now rewrite H1, H2.
Qed.

(** X1: the registry either program ends with is the link step applied
    to the registry obtained by inserting, one after the other in the
    order of the log, the records built from the process-creation events
    that the cap lets through. *)
Theorem X1_registry_is_insertions_then_link (i : input)
  (max_events : option Z) :
  processes (analyze i max_events)
  = _build_tree (insert_all (input_records max_events i) []).
Proof.
  rewrite (proj1 (analyze_cap_prefix i max_events)).
  destruct i as [units|rows]; unfold analyze, parse_evtx, parse_csv,
    input_records; cbn [processes].
  - now rewrite evtx_loop_insert_all.
  - now rewrite csv_loop_insert_all.
Qed.

(* ------------------------------------------------------------------ *)
(** ** The display name and the timestamp *)

Lemma last_component_clean (c : ascii) (t : string) :
  str_contains c (last_component c t) = false.
Proof.
  induction t as [|a t IH]; [reflexivity|]. simpl.
  destruct (Ascii.eqb a c) eqn:E; [exact IH|].
  destruct (str_contains c t) eqn:C; [exact IH|].
  simpl. now rewrite E, C.
Qed.

Lemma last_component_none (c : ascii) (t : string) :
  str_contains c t = false -> last_component c t = t.
Proof.
  induction t as [|b t IH]; [reflexivity|]. simpl.
  destruct (Ascii.eqb b c); [discriminate|]. simpl. now intros ->.
Qed.

Lemma last_component_suffix (c : ascii) (t : string) :
  str_contains c t = true ->
  exists pre, t = pre ++ String c (last_component c t).
Proof.
  induction t as [|a t IH]; [discriminate|]. simpl.
  destruct (Ascii.eqb_spec a c) as [->|N].
  - intros _. destruct (str_contains c t) eqn:C.
    + destruct (IH eq_refl) as [pre E].
      exists (String c pre). simpl. now rewrite <- E.
    + exists "". simpl. now rewrite last_component_none.
  - simpl. intros C. rewrite C. destruct (IH C) as [pre E].
    exists (String a pre). simpl. now rewrite <- E.
Qed.

(** X2: the display name taken from an image path holds no backslash.
    It is the whole path when the path holds none, and otherwise what
    follows the last backslash of the path. *)
Theorem X2_image_name_is_last_component (image : string) :
  str_contains "\" (image_name image) = false
  /\ (str_contains "\" image = false -> image_name image = image)
  /\ (str_contains "\" image = true ->
      exists pre, image = pre ++ "\" ++ image_name image).
Proof.
  unfold image_name. split; [|split].
  - destruct (str_contains "\" image) eqn:C;
      [apply last_component_clean|exact C].
  - now intros ->.
  - intros C. rewrite C. now apply last_component_suffix.
Qed.

(** The theorem at a bare file name and at a Windows path. *)
Lemma X2_witness :
  image_name "cmd.exe" = "cmd.exe"
  /\ exists pre,
       "C:\Windows\System32\svchost.exe"
       = pre ++ "\" ++ image_name "C:\Windows\System32\svchost.exe".
Proof.
  split.
  - apply (proj1 (proj2 (X2_image_name_is_last_component "cmd.exe"))).
    reflexivity.
  - apply (proj2 (proj2 (X2_image_name_is_last_component
                           "C:\Windows\System32\svchost.exe"))).
    reflexivity.
Defined.

Lemma str_prefix_length (n : nat) (t : string) :
  (String.length (str_prefix n t) <= n)%nat.
Proof.
  revert t. induction n as [|n IH]; intros [|a t]; simpl; try lia.
  specialize (IH t). lia.
Qed.

Lemma evtx_timestamp_length (root : XmlRoot) :
  (String.length (evtx_timestamp root) <= 19)%nat.
Proof.
  unfold evtx_timestamp.
  destruct (find_TimeCreated_ns root) as [[t|]|];
    [apply str_prefix_length|simpl; lia|].
  destruct (find_TimeCreated root) as [[t|]|];
    [apply str_prefix_length|simpl; lia|simpl; lia].
Qed.

Lemma csv_timestamp_length (row : CsvRow) :
  (String.length (csv_timestamp row) <= 19)%nat.
Proof.
  unfold csv_timestamp. destruct (row_TimeCreated row) as [t|];
    [|simpl; lia].
  destruct (str_truthy t); [apply str_prefix_length|simpl; lia].
Qed.

(* ------------------------------------------------------------------ *)
(** ** What every record of the registry satisfies *)

Lemma registry_insertions (i : input) (max_events : option Z) :
  processes (analyze i max_events)
  = _build_tree (insert_all (input_records max_events i) []).
Proof.
  rewrite (proj1 (analyze_cap_prefix i max_events)).
  destruct i as [units|rows]; unfold analyze, parse_evtx, parse_csv,
    input_records; cbn [processes].
  - now rewrite evtx_loop_insert_all.
  - now rewrite csv_loop_insert_all.
Qed.

Lemma image_name_clean (image : string) :
  str_contains "\" (image_name image) = false.
Proof.
  unfold image_name. destruct (str_contains "\" image) eqn:C;
    [apply last_component_clean|exact C].
Qed.

Lemma evtx_record_wf (root : XmlRoot) (r : ProcessInfo) :
  evtx_record root = Some r -> well_formed_record r.
Proof.
  unfold evtx_record.
  destruct (int_of_field "ProcessId" (evtx_data root)) as [p|];
    [|discriminate].
  destruct (Z.ltb_spec 0 p) as [Hp|_]; [|discriminate].
  destruct (optional_int_of_field "ParentProcessId" (evtx_data root));
    [|discriminate].
  intros [= <-]. unfold well_formed_record. simpl.
  split; [exact Hp|]. split; [reflexivity|].
  split; [apply evtx_timestamp_length|apply image_name_clean].
Qed.

Lemma csv_record_wf (row : CsvRow) (r : ProcessInfo) :
  csv_record row = Some r -> well_formed_record r.
Proof.
  unfold csv_record. destruct (csv_row_data row) as [data|]; [|discriminate].
  destruct (int_of_field "ProcessId" data) as [p|]; [|discriminate].
  destruct (Z.leb_spec p 0) as [_|Hp]; [discriminate|].
  destruct (optional_int_of_field "ParentProcessId" data); [|discriminate].
  intros [= <-]. unfold well_formed_record. simpl.
  split; [exact Hp|]. split; [reflexivity|].
  split; [apply csv_timestamp_length|apply image_name_clean].
Qed.

Lemma input_records_wf (max_events : option Z) (i : input) (r : ProcessInfo) :
  In r (input_records max_events i) -> well_formed_record r.
Proof.
  destruct i as [units|rows]; unfold input_records, evtx_records,
    csv_records; intros H; apply in_flat_map in H;
    destruct H as [u [_ H]].
  - destruct u as [root|]; [|contradiction].
    destruct (evtx_is_process_creation root); [|contradiction].
    destruct (evtx_record root) as [r0|] eqn:E; [|contradiction].
    destruct H as [<-|[]]. now apply (@evtx_record_wf root).
  - destruct (csv_qualifies u); [|contradiction].
    destruct (csv_record u) as [r0|] eqn:E; [|contradiction].
    destruct H as [<-|[]]. now apply (@csv_record_wf u).
Qed.

Lemma find_last_In {A : Type} (f : A -> bool) (l : list A) (a : A) :
  find_last f l = Some a -> In a l /\ f a = true.
Proof.
  unfold find_last. intros H. apply find_some in H.
  destruct H as [H1 H2]. split; [now apply in_rev|exact H2].
Qed.

Lemma same_but_children_add (r : ProcessInfo) (more : list Z) :
  same_but_children (add_children r more) r.
Proof. unfold same_but_children. simpl. repeat split. Qed.

(** Every record of the final registry is one of the records built from
    the input, with a child list added. *)
Lemma registry_record_origin (i : input) (max_events : option Z) (k : Z)
  (p : ProcessInfo) :
  In (k, p) (processes (analyze i max_events)) ->
  exists r, In r (input_records max_events i) /\ pid r = k
            /\ same_but_children p r.
Proof.
  rewrite registry_insertions.
  set (recs := input_records max_events i).
  assert (ND : NoDup (dict_keys (insert_all recs []))).
  { apply insert_all_NoDup. constructor. }
  rewrite build_tree_with_children by assumption.
  unfold with_children. intros H. apply in_map_iff in H.
  destruct H as [[k0 r0] [E H]]. simpl in E. injection E as <- <-.
  apply (@In_item_reg_get _ _ _ ND) in H.
  rewrite insert_all_get in H. simpl in H.
  destruct (find_last (fun r => pid r =? k0) recs) as [r|] eqn:F;
    [|discriminate].
  injection H as <-. apply find_last_In in F. destruct F as [F1 F2].
  exists r. split; [exact F1|]. split; [now apply Z.eqb_eq|].
  apply same_but_children_add.
Qed.

(** X3: every record of the registry either program ends with sits under
    its own pid, which is positive; its timestamp has 19 characters at
    most and its display name holds no backslash. *)
Theorem X3_registry_records_well_formed (i : input) (max_events : option Z)
  (k : Z) (p : ProcessInfo) :
  In (k, p) (processes (analyze i max_events)) ->
  0 < k /\ pid p = k
  /\ (String.length (timestamp p) <= 19)%nat
  /\ str_contains "\" (name p) = false.
Proof.
  intros H. destruct (registry_record_origin _ _ _ _ H) as [r [Hr [Hk S]]].
  destruct (input_records_wf _ _ _ Hr) as [W1 [_ [W3 W4]]].
  destruct S as [S1 [S2 [_ [_ [_ [_ S7]]]]]].
  rewrite S1, S2, S7, <- Hk. auto.
Qed.

(** The theorem at the record of pid 3 of the log [cyclic_input]. *)
Lemma X3_witness :
  exists p,
    In (3, p) (processes (analyze cyclic_input None))
    /\ 0 < 3 /\ pid p = 3
    /\ (String.length (timestamp p) <= 19)%nat
    /\ str_contains "\" (name p) = false.
Proof.
  eexists. split.
  - vm_compute. right. right. left. reflexivity.
  - apply (X3_registry_records_well_formed cyclic_input None).
    vm_compute. right. right. left. reflexivity.
Defined.

(* ------------------------------------------------------------------ *)
(** ** The counters *)

Lemma evtx_loop_process_events (units : list evtx_unit) (n : Z)
  (self : SysmonParser) :
  process_events (evtx_loop None units n self)
  = process_events self
    + Z.of_nat (List.length (filter evtx_qualifies units)).
Proof.
  revert n self. induction units as [|u units IH]; intros n self.
  - simpl. lia.
  - cbn [evtx_loop cap_reached].
    destruct u as [root|]; cbn [filter evtx_qualifies].
    + destruct (evtx_is_process_creation root); rewrite IH;
        cbn [process_events List.length]; lia.
    + rewrite IH. cbn [process_events]. lia.
Qed.

Lemma csv_loop_process_events (rows : list CsvRow) (self : SysmonParser) :
  process_events (csv_loop None rows self)
  = process_events self + Z.of_nat (List.length (csv_records rows)).
Proof.
  revert self. induction rows as [|row rows IH]; intros self.
  - simpl. lia.
  - cbn [csv_loop cap_reached csv_records flat_map].
    fold (csv_records rows). rewrite length_app. unfold csv_qualifies.
    destruct (row_EventId row) as [t|]; [|rewrite IH; simpl; lia].
    destruct (String.eqb t "1"); rewrite IH; [|simpl; lia].
    rewrite extract_process_from_row_record.
    destruct (csv_record row); simpl; lia.
Qed.

Lemma evtx_loop_total_cap (m : Z) (units : list evtx_unit) (n : Z)
  (self : SysmonParser) :
  m <> 0 -> total_events self = n ->
  total_events (evtx_loop (Some m) units n self)
  = n + Z.of_nat (Nat.min (List.length units) (S (Z.to_nat (m - n)))).
Proof.
  intros Hm. revert n self.
  induction units as [|u units IH]; intros n self Hn.
  - simpl. lia.
  - cbn [evtx_loop List.length].
    destruct (cap_reached (Some m) (n + 1)) eqn:C.
    + apply cap_reached_spec in C. simpl. lia.
    + assert (L : n + 1 <= m).
      { destruct (Z.le_gt_cases (n + 1) m) as [L|G]; [exact L|].
        assert (cap_reached (Some m) (n + 1) = true)
          by (apply cap_reached_spec; lia).
        congruence. }
      destruct u as [root|]; [destruct (evtx_is_process_creation root)|];
        rewrite IH by reflexivity; lia.
Qed.

Lemma csv_loop_total_cap (m : Z) (rows : list CsvRow) (self : SysmonParser) :
  m <> 0 ->
  total_events (csv_loop (Some m) rows self)
  = total_events self
    + Z.of_nat (Nat.min (List.length rows)
                  (S (Z.to_nat (m - total_events self)))).
Proof.
  intros Hm. revert self.
  induction rows as [|row rows IH]; intros self.
  - simpl. lia.
  - cbn [csv_loop List.length total_events].
    destruct (cap_reached (Some m) (total_events self + 1)) eqn:C.
    + apply cap_reached_spec in C. simpl. lia.
    + assert (L : total_events self + 1 <= m).
      { destruct (Z.le_gt_cases (total_events self + 1) m) as [L|G];
          [exact L|].
        assert (cap_reached (Some m) (total_events self + 1) = true)
          by (apply cap_reached_spec; lia).
        congruence. }
      destruct (row_EventId row) as [t|]; [destruct (String.eqb t "1")|];
        rewrite IH; rewrite ?extract_process_from_row_total;
        cbn [total_events]; lia.
Qed.

(* ------------------------------------------------------------------ *)
(** ** The order of the registry *)

Lemma existsb_eqb_In (k : Z) (l : list Z) :
  existsb (Z.eqb k) l = true <-> In k l.
Proof.
  rewrite existsb_exists. split.
  - intros [x [H E]]. apply Z.eqb_eq in E. now subst.
  - intros H. exists k. split; [exact H|apply Z.eqb_refl].
Qed.

Lemma existsb_eqb_ext (k : Z) (s1 s2 : list Z) :
  (forall x, In x s1 <-> In x s2) ->
  existsb (Z.eqb k) s1 = existsb (Z.eqb k) s2.
Proof.
  intros H. destruct (existsb (Z.eqb k) s2) eqn:E.
  - apply existsb_eqb_In. apply H. now apply existsb_eqb_In.
  - destruct (existsb (Z.eqb k) s1) eqn:E1; [|reflexivity].
    apply existsb_eqb_In in E1. apply H in E1.
    apply existsb_eqb_In in E1. congruence.
Qed.

Lemma first_occurrences_ext (l : list Z) (s1 s2 : list Z) :
  (forall x, In x s1 <-> In x s2) ->
  first_occurrences s1 l = first_occurrences s2 l.
Proof.
  revert s1 s2. induction l as [|k l IH]; intros s1 s2 H; [reflexivity|].
  cbn [first_occurrences]. rewrite (@existsb_eqb_ext k s1 s2 H).
  destruct (existsb (Z.eqb k) s2); [now apply IH|].
  f_equal. apply IH. intros x. simpl. rewrite H. reflexivity.
Qed.

Lemma first_occurrences_length (seen l : list Z) :
  (List.length (first_occurrences seen l) <= List.length l)%nat.
Proof.
  revert seen. induction l as [|k l IH]; intros seen; [simpl; lia|].
  cbn [first_occurrences List.length].
  destruct (existsb (Z.eqb k) seen).
  - specialize (IH seen). lia.
  - specialize (IH (k :: seen)). cbn [List.length]. lia.
Qed.

Lemma insert_all_key_order (records : list ProcessInfo) (d : registry) :
  dict_keys (insert_all records d)
  = (dict_keys d
     ++ first_occurrences (dict_keys d) (map pid records))%list.
Proof.
  unfold insert_all. revert d.
  induction records as [|r rs IH]; intros d.
  - simpl. now rewrite app_nil_r.
  - cbn [fold_left map first_occurrences]. rewrite IH, keys_reg_set.
    destruct (reg_mem (pid r) d) eqn:M.
    + apply reg_mem_In in M. apply existsb_eqb_In in M. now rewrite M.
    + assert (X : existsb (Z.eqb (pid r)) (dict_keys d) = false).
      { destruct (existsb (Z.eqb (pid r)) (dict_keys d)) eqn:E;
          [|reflexivity].
        apply existsb_eqb_In in E. apply reg_mem_In in E. congruence. }
      rewrite X, <- app_assoc. cbn [app]. do 2 f_equal.
      apply first_occurrences_ext. intros x. rewrite in_app_iff. simpl.
      tauto.
Qed.

Lemma first_occurrences_In (seen l : list Z) (k : Z) :
  In k (first_occurrences seen l) <-> In k l /\ ~ In k seen.
Proof.
  revert seen. induction l as [|a l IH]; intros seen.
  - simpl. tauto.
  - cbn [first_occurrences].
    destruct (existsb (Z.eqb a) seen) eqn:E.
    + apply existsb_eqb_In in E. rewrite IH. simpl.
      split; [tauto|]. intros [[->|H] N]; [contradiction|tauto].
    + assert (N : ~ In a seen).
      { intros H. apply existsb_eqb_In in H. congruence. }
      simpl. rewrite IH. simpl.
      destruct (Z.eq_dec a k) as [->|D]; [tauto|]. tauto.
Qed.

Lemma analyze_keys (i : input) (max_events : option Z) :
  dict_keys (processes (analyze i max_events))
  = first_occurrences [] (map pid (input_records max_events i)).
Proof.
  rewrite registry_insertions, build_tree_keys
    by (apply insert_all_NoDup; constructor).
  now rewrite insert_all_key_order.
Qed.

(** X4: the registry lists the pids in the order in which each of them
    first occurs among the records built from the log: a later record
    with a pid seen before takes the place of the earlier one and does not
    move it. The renderer and the roots are read in this order before
    they are sorted. *)
Theorem X4_registry_order_is_first_occurrence (i : input)
  (max_events : option Z) :
  dict_keys (processes (analyze i max_events))
  = first_occurrences [] (map pid (input_records max_events i)).
Proof. apply analyze_keys. Qed.

(* ------------------------------------------------------------------ *)
(** ** The counters of the statistics *)

Lemma cap_prefix_length {A : Type} (max_events : option Z) (l : list A) :
  (List.length (cap_prefix max_events l) <= List.length l)%nat.
Proof.
  unfold cap_prefix. destruct max_events as [m|]; [|lia].
  destruct (m =? 0); [lia|]. rewrite length_firstn. lia.
Qed.

Lemma evtx_records_length (units : list evtx_unit) :
  (List.length (evtx_records units)
   <= List.length (filter evtx_qualifies units))%nat.
Proof.
  induction units as [|u units IH]; [simpl; lia|].
  cbn [evtx_records flat_map filter]. fold (evtx_records units).
  rewrite length_app. destruct u as [root|]; cbn [evtx_qualifies].
  - destruct (evtx_is_process_creation root); [|simpl; lia].
    destruct (evtx_record root); simpl; lia.
  - simpl. lia.
Qed.

Lemma csv_records_length (rows : list CsvRow) :
  (List.length (csv_records rows)
   <= List.length (filter csv_qualifies rows))%nat.
Proof.
  induction rows as [|row rows IH]; [simpl; lia|].
  cbn [csv_records flat_map filter]. fold (csv_records rows).
  rewrite length_app. destruct (csv_qualifies row); [|simpl; lia].
  destruct (csv_record row); simpl; lia.
Qed.

Lemma filter_length_le {A : Type} (f : A -> bool) (l : list A) :
  (List.length (filter f l) <= List.length l)%nat.
Proof.
  induction l as [|a l IH]; [simpl; lia|].
  simpl. destruct (f a); simpl; lia.
Qed.

Lemma analyze_process_events (i : input) (max_events : option Z) :
  process_events (analyze i max_events)
  = match i with
    | EvtxFile _ => Z.of_nat (input_qualifying max_events i)
    | CsvFile _ => Z.of_nat (List.length (input_records max_events i))
    end.
Proof.
  rewrite (proj2 (analyze_cap_prefix i max_events)).
  destruct i as [units|rows]; unfold analyze, parse_evtx, parse_csv,
    input_qualifying, input_records; cbn [process_events].
  - rewrite evtx_loop_process_events. reflexivity.
  - rewrite csv_loop_process_events. reflexivity.
Qed.

Lemma analyze_total_events (i : input) (max_events : option Z) :
  total_events (analyze i max_events)
  = match max_events with
    | Some m =>
        if m =? 0 then Z.of_nat (input_length i)
        else Z.of_nat (Nat.min (input_length i) (S (Z.to_nat m)))
    | None => Z.of_nat (input_length i)
    end.
Proof.
  destruct max_events as [m|].
  - destruct (Z.eqb_spec m 0) as [->|Hm].
    + destruct i as [units|rows]; unfold analyze, parse_evtx, parse_csv,
        input_length; cbn [total_events].
      * rewrite evtx_loop_cap_zero. now rewrite evtx_loop_total.
      * rewrite csv_loop_cap_zero. now rewrite csv_loop_total.
    + destruct i as [units|rows]; unfold analyze, parse_evtx, parse_csv,
        input_length; cbn [total_events].
      * rewrite (@evtx_loop_total_cap m units 0 SysmonParser_init Hm)
          by reflexivity.
        now rewrite Z.sub_0_r.
      * rewrite (@csv_loop_total_cap m rows SysmonParser_init Hm).
        cbn [total_events SysmonParser_init]. now rewrite Z.sub_0_r.
  - destruct i as [units|rows]; unfold analyze, parse_evtx, parse_csv,
      input_length; cbn [total_events].
    + now rewrite evtx_loop_total.
    + now rewrite csv_loop_total.
Qed.

Lemma cap_prefix_length_total {A : Type} (max_events : option Z)
  (l : list A) :
  Z.of_nat (List.length (cap_prefix max_events l))
  <= match max_events with
     | Some m =>
         if m =? 0 then Z.of_nat (List.length l)
         else Z.of_nat (Nat.min (List.length l) (S (Z.to_nat m)))
     | None => Z.of_nat (List.length l)
     end.
Proof.
  unfold cap_prefix. destruct max_events as [m|]; [|lia].
  destruct (m =? 0); [lia|]. rewrite length_firstn. lia.
Qed.

(** X5: the three numbers of the statistics block are ordered: the
    registry never holds more records than process events were counted,
    and never more process events are counted than events in total.  The
    count of process events is, in the EVTX program, the number of
    records of the log up to the cap that parse and carry EventID 1 and,
    in the CSV program, the number of records built from them. *)
Theorem X5_counters_ordered (i : input) (max_events : option Z) :
  let s := analyze i max_events in
  Z.of_nat (List.length (processes s)) <= process_events s
  /\ process_events s <= total_events s
  /\ process_events s
     = match i with
       | EvtxFile _ => Z.of_nat (input_qualifying max_events i)
       | CsvFile _ => Z.of_nat (List.length (input_records max_events i))
       end
  /\ (List.length (input_records max_events i)
      <= input_qualifying max_events i)%nat.
Proof.
  cbn zeta.
  assert (L1 : (List.length (processes (analyze i max_events))
                <= List.length (input_records max_events i))%nat).
  { rewrite <- (length_map fst). fold (dict_keys (processes (analyze i max_events))).
    rewrite analyze_keys.
    etransitivity; [apply first_occurrences_length|].
    now rewrite length_map. }
  assert (L2 : (List.length (input_records max_events i)
                <= input_qualifying max_events i)%nat).
  { destruct i as [units|rows]; unfold input_records, input_qualifying;
      [apply evtx_records_length|apply csv_records_length]. }
  assert (L3 : Z.of_nat (input_qualifying max_events i)
               <= total_events (analyze i max_events)).
  { rewrite analyze_total_events.
    destruct i as [units|rows]; unfold input_qualifying, input_length.
    - etransitivity; [|apply cap_prefix_length_total].
      apply inj_le. apply filter_length_le.
    - etransitivity; [|apply cap_prefix_length_total].
      apply inj_le. apply filter_length_le. }
  rewrite analyze_process_events.
  split; [|split; [|split]].
  - destruct i; lia.
  - destruct i; lia.
  - reflexivity.
  - exact L2.
Qed.

(** X6: under a cap that is not zero the total-event counter is the
    number of records the loop has read, the one at which it breaks
    included: one more than the cap when the log is longer than the cap,
    and the length of the log otherwise. *)
Theorem X6_total_events_counts_the_stop_record (i : input) (m : Z) :
  m <> 0 ->
  total_events (analyze i (Some m))
  = Z.of_nat (Nat.min (input_length i) (S (Z.to_nat m)))
  /\ (0 < m < Z.of_nat (input_length i) ->
      total_events (analyze i (Some m)) = m + 1).
Proof.
  intros Hm. rewrite analyze_total_events.
  destruct (Z.eqb_spec m 0) as [E|_]; [contradiction|].
  split; [reflexivity|]. intros H. lia.
Qed.

(** The theorem at the four-record log [cyclic_input] with a cap of 2:
    three events are counted. *)
Lemma X6_witness :
  2 <> 0
  /\ total_events (analyze cyclic_input (Some 2)) = 3.
Proof.
  assert (H : 2 <> 0) by discriminate.
  split; [exact H|].
  apply (proj2 (X6_total_events_counts_the_stop_record cyclic_input H)).
  vm_compute. split; reflexivity.
Defined.

(* ------------------------------------------------------------------ *)
(** ** The forest the link step builds *)

Lemma analyze_keys_pos (i : input) (max_events : option Z) (k : Z) :
  In k (dict_keys (processes (analyze i max_events))) -> 0 < k.
Proof.
  unfold dict_keys. intros H. apply in_map_iff in H.
  destruct H as [[k0 p] [E H]]. simpl in E. subst k0.
  destruct (@registry_record_origin _ _ _ _ H) as [r [Hr [Hk _]]].
  destruct (@input_records_wf _ _ _ Hr) as [W _]. now rewrite <- Hk.
Qed.

Lemma linked_children_naming (procs : registry) (k : Z) :
  k <> 0 -> linked_children procs k = naming_parent procs k.
Proof.
  intros Hk. unfold linked_children, naming_parent. f_equal.
  apply filter_ext. intros [c r]. simpl.
  destruct (ppid r) as [pp|]; [|reflexivity].
  destruct (Z.eqb_spec pp k) as [->|N]; [|apply andb_false_r].
  destruct (Z.eqb_spec k 0); [contradiction|reflexivity].
Qed.

Lemma NoDup_map_fst_filter (f : Z * ProcessInfo -> bool) (d : registry) :
  NoDup (dict_keys d) -> NoDup (map fst (filter f d)).
Proof.
  unfold dict_keys. induction d as [|[k p] d IH]; simpl; intros ND;
    [constructor|].
  inversion ND as [|? ? Hn ND']; subst.
  destruct (f (k, p)); [|now apply IH].
  simpl. constructor; [|now apply IH].
  intros H. apply Hn. apply in_map_iff in H.
  destruct H as [x [E H]]. apply filter_In in H. destruct H as [H _].
  rewrite <- E. now apply in_map.
Qed.

Lemma naming_parent_In (procs : registry) (k c : Z) :
  In c (naming_parent procs k) <->
  exists r, In (c, r) procs /\ ppid r = Some k.
Proof.
  unfold naming_parent. rewrite in_map_iff. split.
  - intros [[c0 r] [E H]]. simpl in E. subst c0.
    apply filter_In in H. destruct H as [H F]. simpl in F.
    exists r. split; [exact H|].
    destruct (ppid r) as [pp|]; [|discriminate].
    apply Z.eqb_eq in F. now subst.
  - intros [r [H E]]. exists (c, r). split; [reflexivity|].
    apply filter_In. split; [exact H|]. simpl. rewrite E.
    apply Z.eqb_refl.
Qed.

(** X7: after the link step the child list of the record of pid [k] is
    the list of the pids of the registry whose record names [k] as its
    parent, in the order of the registry; it holds no pid twice, and a
    pid is in it exactly when its record names [k] as parent. *)
Theorem X7_children_are_the_records_naming_the_parent (i : input)
  (max_events : option Z) (k : Z) (p : ProcessInfo) :
  let procs := processes (analyze i max_events) in
  In (k, p) procs ->
  children p = naming_parent procs k
  /\ NoDup (children p)
  /\ (forall c, In c (children p) <->
                exists r, In (c, r) procs /\ ppid r = Some k).
Proof.
  intros procs H.
  pose proof (analyze_is_linked i max_events) as L. fold procs in L.
  destruct L as [ND L]. destruct (L _ _ H) as [_ C].
  assert (Hk : k <> 0).
  { assert (0 < k); [|lia]. apply (@analyze_keys_pos i max_events).
    fold procs. change k with (fst (k, p)). now apply in_map. }
  rewrite (@linked_children_naming procs k Hk) in C.
  split; [exact C|]. rewrite C. split.
  - now apply NoDup_map_fst_filter.
  - intros c. apply naming_parent_In.
Qed.

(** The theorem at the record of pid 3 of [cyclic_input]: its child list
    is the pid 4. *)
Lemma X7_witness :
  exists p,
    In (3, p) (processes (analyze cyclic_input None))
    /\ children p = [4].
Proof.
  eexists. split.
  - vm_compute. right. right. left. reflexivity.
  - rewrite (proj1 (@X7_children_are_the_records_naming_the_parent
                      cyclic_input None 3 _
                      ltac:(vm_compute; right; right; left; reflexivity))).
    reflexivity.
Defined.

Lemma analyze_children_naming (i : input) (max_events : option Z) (k : Z)
  (p : ProcessInfo) :
  In (k, p) (processes (analyze i max_events)) ->
  children p = naming_parent (processes (analyze i max_events)) k.
Proof.
  intros H. destruct (analyze_is_linked i max_events) as [ND L].
  destruct (L _ _ H) as [_ C]. rewrite C.
  apply linked_children_naming.
  assert (0 < k); [|lia]. apply (@analyze_keys_pos i max_events).
  change k with (fst (k, p)). now apply in_map.
Qed.

Lemma NoDup_keys_item_eq (d : registry) (k : Z) (p q : ProcessInfo) :
  NoDup (dict_keys d) -> In (k, p) d -> In (k, q) d -> p = q.
Proof.
  intros ND Hp Hq. apply (@In_item_reg_get _ _ _ ND) in Hp.
  apply (@In_item_reg_get _ _ _ ND) in Hq. congruence.
Qed.

Lemma In_keys_item (d : registry) (k : Z) :
  In k (dict_keys d) <-> exists p, In (k, p) d.
Proof.
  unfold dict_keys. rewrite in_map_iff. split.
  - intros [[k0 p] [E H]]. simpl in E. subst k0. now exists p.
  - intros [p H]. now exists (k, p).
Qed.

(** The number of keys of [d] equal to [pp] is one when [pp] is a key
    and zero when it is not. *)
Lemma sum_indicator_key (d : registry) (pp : Z) :
  NoDup (dict_keys d) ->
  list_sum (map (fun item : Z * ProcessInfo =>
                   if pp =? fst item then 1%nat else 0%nat) d)
  = if reg_mem pp d then 1%nat else 0%nat.
Proof.
  unfold dict_keys, reg_mem, dict_mem.
  induction d as [|[k p] d IH]; simpl; intros ND; [reflexivity|].
  inversion ND as [|? ? Hn ND']; subst.
  rewrite (IH ND'). rewrite (Z.eqb_sym pp k).
  destruct (Z.eqb_spec k pp) as [->|N]; [|reflexivity].
  assert (R : reg_mem pp d = false) by now apply reg_mem_false.
  unfold reg_mem, dict_mem in R. now rewrite R.
Qed.

Lemma list_sum_map_add {A : Type} (f g : A -> nat) (l : list A) :
  list_sum (map (fun x => f x + g x)%nat l)
  = (list_sum (map f l) + list_sum (map g l))%nat.
Proof. induction l as [|a l IH]; simpl; [reflexivity|]. rewrite IH. lia. Qed.

Lemma naming_parent_count (d l : registry) :
  NoDup (dict_keys d) ->
  list_sum (map (fun item => List.length (naming_parent l (fst item))) d)
  = List.length (filter (fun x => negb (is_root d (snd x))) l).
Proof.
  intros ND. induction l as [|[c r] l IH].
  - unfold naming_parent. simpl. clear ND. induction d; simpl; auto.
  - cbn [filter snd]. unfold is_root at 1.
    destruct (ppid r) as [pp|] eqn:E.
    + rewrite negb_involutive.
      transitivity
        (list_sum
           (map (fun item : Z * ProcessInfo =>
                   ((if Z.eqb pp (fst item) then 1 else 0)
                    + List.length (naming_parent l (fst item)))%nat) d)).
      * f_equal. apply map_ext. intros [k q]. unfold naming_parent.
        cbn [filter snd fst]. rewrite E.
        now destruct (pp =? k).
      * rewrite list_sum_map_add, IH, (@sum_indicator_key d pp ND).
        now destruct (reg_mem pp d).
    + cbn [negb]. rewrite <- IH. f_equal. apply map_ext. intros [k q].
      unfold naming_parent. cbn [filter snd fst]. now rewrite E.
Qed.

Lemma filter_split_length {A : Type} (f : A -> bool) (l : list A) :
  (List.length (filter f l) + List.length (filter (fun x => negb (f x)) l)
   = List.length l)%nat.
Proof.
  induction l as [|a l IH]; [reflexivity|]. simpl.
  destruct (f a); simpl; lia.
Qed.

Lemma filter_map_length {A B : Type} (f : B -> bool) (g : A -> B)
  (l : list A) :
  List.length (filter f (map g l))
  = List.length (filter (fun x => f (g x)) l).
Proof.
  induction l as [|a l IH]; [reflexivity|]. simpl.
  destruct (f (g a)); simpl; now rewrite IH.
Qed.

(** X8: the link step makes a forest of the registry.  A record is a
    root exactly when it is in no child list; a record that is in the
    child list of a record names that record as its parent, so it is in
    one child list at most; and the number of roots and the lengths of
    all child lists add up to the number of records. *)
Theorem X8_every_record_is_a_root_or_one_child (i : input)
  (max_events : option Z) :
  let procs := processes (analyze i max_events) in
  (forall k p, In (k, p) procs ->
     (is_root procs p = true <->
      forall k' q, In (k', q) procs -> ~ In k (children q))
     /\ (forall k' q, In (k', q) procs -> In k (children q) ->
                      ppid p = Some k'))
  /\ (List.length (get_root_processes procs) + total_children procs
      = List.length procs)%nat.
Proof.
  intros procs.
  pose proof (analyze_is_linked i max_events) as L. fold procs in L.
  destruct L as [ND L].
  assert (P : forall k p k' q, In (k, p) procs -> In (k', q) procs ->
              In k (children q) -> ppid p = Some k').
  { intros k p k' q Hp Hq Hc.
    rewrite (@analyze_children_naming i max_events k' q Hq) in Hc.
    apply naming_parent_In in Hc. destruct Hc as [r [Hr E]].
    now rewrite (@NoDup_keys_item_eq procs k p r ND Hp Hr). }
  split.
  - intros k p Hp. split; [split|].
    + intros R k' q Hq Hc. pose proof (P _ _ _ _ Hp Hq Hc) as E.
      unfold is_root in R. rewrite E in R.
      apply negb_true_iff, reg_mem_false in R. apply R.
      apply In_keys_item. now exists q.
    + intros H. unfold is_root. destruct (ppid p) as [pp|] eqn:E;
        [|reflexivity].
      apply negb_true_iff, reg_mem_false. intros Hin.
      apply In_keys_item in Hin. destruct Hin as [q Hq].
      apply (H pp q Hq).
      rewrite (@analyze_children_naming i max_events pp q Hq).
      apply naming_parent_In. now exists p.
    + intros k' q Hq Hc. exact (P _ _ _ _ Hp Hq Hc).
  - unfold get_root_processes.
    rewrite (Permutation_length (sort_by_timestamp_perm _)).
    unfold dict_values. rewrite filter_map_length.
    replace (total_children procs)
      with (List.length
              (filter (fun x => negb (is_root procs (snd x))) procs)).
    + apply filter_split_length.
    + rewrite <- (@naming_parent_count procs procs ND).
      unfold total_children. f_equal. apply map_ext_in. intros [k q] Hq.
      simpl. f_equal. symmetry.
      exact (@analyze_children_naming i max_events k q Hq).
Qed.

(* ------------------------------------------------------------------ *)
(** ** The children the renderer descends into *)

Lemma children_records (procs : registry) (cs : list Z) :
  linked procs -> incl cs (dict_keys procs) ->
  map pid
    (flat_map (fun c => match reg_get c procs with
                        | Some p => [p]
                        | None => []
                        end) cs)
  = cs.
Proof.
  intros [ND L]. induction cs as [|c cs IH]; intros Hc; [reflexivity|].
  cbn [flat_map]. rewrite map_app, IH
    by (intros x Hx; apply Hc; now right).
  destruct (reg_get c procs) as [r|] eqn:G.
  - apply reg_get_In_item in G. destruct (L _ _ G) as [E _].
    simpl. now rewrite E.
  - apply reg_get_None in G. exfalso. apply G, Hc. now left.
Qed.

Lemma linked_children_keys (procs : registry) (k : Z) :
  incl (linked_children procs k) (dict_keys procs).
Proof.
  intros c Hc. apply linked_children_In in Hc. destruct Hc as [r [Hr _]].
  change c with (fst (c, r)). unfold dict_keys. now apply in_map.
Qed.

Lemma sorted_children_pids (procs : registry) (p : ProcessInfo) :
  linked procs -> In (pid p, p) procs ->
  Permutation (map pid (sorted_children procs p)) (children p).
Proof.
  intros L Hp. unfold sorted_children.
  eapply perm_trans;
    [apply Permutation_map; apply sort_by_timestamp_perm|].
  rewrite children_records; [apply Permutation_refl|exact L|].
  destruct L as [_ L]. destruct (L _ _ Hp) as [_ ->].
  apply linked_children_keys.
Qed.

Lemma sorted_children_In_iff (procs : registry) (p x : ProcessInfo) :
  linked procs -> pid p <> 0 -> In (pid p, p) procs ->
  (In x (sorted_children procs p) <->
   In (pid x, x) procs /\ ppid x = Some (pid p)).
Proof.
  intros L Hk Hp. split; [now apply sorted_children_parent|].
  intros [Hx E]. unfold sorted_children.
  apply (proj2 (sort_by_timestamp_In _ _)). apply in_flat_map.
  exists (pid x). rewrite (@linked_get _ _ L Hx). split; [|now left].
  destruct L as [_ L]. destruct (L _ _ Hp) as [_ ->].
  rewrite (@linked_children_naming procs (pid p) Hk).
  apply naming_parent_In. now exists x.
Qed.

(** X9: the records the renderer shows below a record are the records of
    the registry that name it as their parent: their pids are the pids
    of its child list, each once, so the test [c in self.processes] drops
    none of them, and the number in the header, [(n children)], is the
    number of records rendered below it. *)
Theorem X9_shown_child_count_is_children_rendered (i : input)
  (max_events : option Z) (k : Z) (p : ProcessInfo) :
  let procs := processes (analyze i max_events) in
  In (k, p) procs ->
  Permutation (map pid (sorted_children procs p)) (children p)
  /\ List.length (sorted_children procs p) = List.length (children p)
  /\ (forall x, In x (sorted_children procs p) <->
                In (pid x, x) procs /\ ppid x = Some k).
Proof.
  intros procs H.
  pose proof (analyze_is_linked i max_events) as L. fold procs in L.
  assert (E : pid p = k) by (destruct L as [_ L]; now destruct (L _ _ H)).
  subst k.
  pose proof (@sorted_children_pids procs p L H) as P.
  split; [exact P|]. split.
  - rewrite <- (Permutation_length P). now rewrite length_map.
  - intros x. apply sorted_children_In_iff; [exact L| |exact H].
    assert (0 < pid p); [|lia]. apply (@analyze_keys_pos i max_events).
    fold procs. change (pid p) with (fst (pid p, p)). now apply in_map.
Qed.

(** The theorem at the record of pid 3 of [cyclic_input], below which
    the record of pid 4 is rendered. *)
Lemma X9_witness :
  exists p,
    In (3, p) (processes (analyze cyclic_input None))
    /\ List.length (sorted_children (processes (analyze cyclic_input None)) p)
       = List.length (children p).
Proof.
  assert (H : exists p, In (3, p) (processes (analyze cyclic_input None))).
  { eexists. vm_compute. right. right. left. reflexivity. }
  destruct H as [p H]. exists p. split; [exact H|].
  exact (proj1 (proj2 (@X9_shown_child_count_is_children_rendered
                         cyclic_input None 3 p H))).
Defined.

(* ------------------------------------------------------------------ *)
(** ** What the rendering shows *)

Lemma all_some_map_elem {A B : Type} (f : A -> option B) (l : list A)
  (rs : list B) (x : A) :
  all_some (map f l) = Some rs -> In x l ->
  exists r, f x = Some r /\ In r rs.
Proof.
  revert rs. induction l as [|a l IH]; intros rs; simpl; [intros _ []|].
  destruct (f a) as [r|] eqn:E; [|discriminate].
  destruct (all_some (map f l)) as [rs'|]; [|discriminate].
  intros [= <-] [->|H].
  - exists r. split; [exact E|now left].
  - destruct (IH rs' eq_refl H) as [r' [H1 H2]].
    exists r'. split; [exact H1|now right].
Qed.

(** The first call of a walk is the one it is started with. *)
Lemma walk_calls_head (procs : registry) (fuel : nat) (path : list Z)
  (p : ProcessInfo) (cs : list (list Z * ProcessInfo)) :
  walk calls_node procs fuel path p = Some cs -> In (path, p) cs.
Proof.
  destruct fuel as [|fuel]; [discriminate|]. cbn [walk].
  destruct (all_some _); [|discriminate].
  intros [= <-]. now left.
Qed.

(** The open path of every call of a walk ends with the record the walk
    was started on and the path it was started with. *)
Lemma walk_calls_suffix (procs : registry) :
  forall fuel x path0 cs,
    walk calls_node procs fuel path0 x = Some cs ->
    forall path' q, In (path', q) cs ->
      exists l, pid q :: path' = (l ++ pid x :: path0)%list.
Proof.
  induction fuel as [|fuel IH]; intros x path0 cs; [discriminate|].
  cbn [walk].
  destruct (all_some
              (map (walk calls_node procs fuel (pid x :: path0))
                 (if (0 <? List.length (children x))%nat
                  then sorted_children procs x else []))) as [rs|] eqn:E;
    [|discriminate].
  intros [= <-] path' q. unfold calls_node. intros [[= <- <-]|H].
  - now exists [].
  - destruct (all_some_map_In _ _ _ E H) as [y [r [Hy [Hw Hr]]]].
    destruct (IH y (pid x :: path0) r Hw path' q Hr) as [l El].
    exists (l ++ [pid y])%list. rewrite El, <- app_assoc. reflexivity.
Qed.

(** Walks started on records with different pids and the same open path
    make no call on the same record. *)
Lemma walks_apart (procs : registry) (fuel : nat) (path0 : list Z)
  (x y : ProcessInfo) (cx cy : list (list Z * ProcessInfo))
  (p1 p2 : list Z) (q1 q2 : ProcessInfo) :
  linked procs ->
  ancestry procs x path0 -> ancestry procs y path0 ->
  walk calls_node procs fuel path0 x = Some cx ->
  walk calls_node procs fuel path0 y = Some cy ->
  In (p1, q1) cx -> In (p2, q2) cy -> pid q1 = pid q2 -> pid x = pid y.
Proof.
  intros L Ax Ay Wx Wy H1 H2 E.
  pose proof (@walk_calls_ancestry procs L fuel x path0 cx Ax Wx p1 q1 H1)
    as A1.
  pose proof (@walk_calls_ancestry procs L fuel y path0 cy Ay Wy p2 q2 H2)
    as A2.
  assert (Q : q1 = q2).
  { pose proof (@linked_get _ _ L (@ancestry_In _ _ _ A1)) as G1.
    pose proof (@linked_get _ _ L (@ancestry_In _ _ _ A2)) as G2.
    rewrite E in G1. congruence. }
  subst q2. pose proof (@ancestry_det _ _ _ _ A1 A2) as P. subst p2.
  destruct (@walk_calls_suffix procs fuel x path0 cx Wx p1 q1 H1)
    as [l1 E1].
  destruct (@walk_calls_suffix procs fuel y path0 cy Wy p1 q1 H2)
    as [l2 E2].
  rewrite E1 in E2.
  change (pid x :: path0) with ([pid x] ++ path0)%list in E2.
  change (pid y :: path0) with ([pid y] ++ path0)%list in E2.
  rewrite !app_assoc in E2. apply app_inv_tail in E2.
  now apply app_inj_tail in E2.
Qed.

Lemma forest_calls_NoDup (procs : registry) (fuel : nat) (path0 : list Z) :
  linked procs ->
  forall xs rs,
    (forall x, In x xs -> ancestry procs x path0) ->
    NoDup (map pid xs) ->
    (forall x cs, In x xs ->
                  walk calls_node procs fuel path0 x = Some cs ->
                  NoDup (map (fun c => pid (snd c)) cs)) ->
    all_some (map (walk calls_node procs fuel path0) xs) = Some rs ->
    NoDup (map (fun c => pid (snd c)) (List.concat rs)).
Proof.
  intros L. induction xs as [|x xs IH]; intros rs An ND Hw; simpl.
  - intros [= <-]. constructor.
  - destruct (walk calls_node procs fuel path0 x) as [r|] eqn:Wx;
      [|discriminate].
    destruct (all_some (map (walk calls_node procs fuel path0) xs))
      as [rs'|] eqn:E; [|discriminate].
    intros [= <-]. cbn [List.concat]. rewrite map_app.
    inversion ND as [|? ? Hn ND']; subst.
    apply NoDup_app.
    + apply (Hw x r); [now left|exact Wx].
    + apply (IH rs'); [|exact ND'| |reflexivity].
      * intros y Hy. apply An. now right.
      * intros y cs Hy. apply Hw. now right.
    + intros k H1 H2. apply in_map_iff in H1, H2.
      destruct H1 as [[p1 q1] [E1 H1]]. destruct H2 as [[p2 q2] [E2 H2]].
      simpl in E1, E2.
      destruct (all_some_map_In _ _ _ E H2) as [y [r' [Hy [Wy Hr]]]].
      apply Hn. apply in_map_iff. exists y. split; [|exact Hy].
      symmetry.
      apply (@walks_apart procs fuel path0 x y r r' p1 p2 q1 q2 L).
      * apply An. now left.
      * apply An. now right.
      * exact Wx.
      * exact Wy.
      * exact H1.
      * exact Hr.
      * congruence.
Qed.

Lemma kids_NoDup (procs : registry) (p : ProcessInfo) :
  linked procs -> In (pid p, p) procs ->
  NoDup (map pid (if (0 <? List.length (children p))%nat
                  then sorted_children procs p else [])).
Proof.
  intros L Hp. destruct (0 <? List.length (children p))%nat;
    [|constructor].
  apply (Permutation_NoDup
           (Permutation_sym (@sorted_children_pids procs p L Hp))).
  destruct L as [ND L]. destruct (L _ _ Hp) as [_ ->].
  now apply NoDup_map_fst_filter.
Qed.

(** A walk makes one call at most on each record. *)
Lemma walk_calls_NoDup (procs : registry) :
  linked procs ->
  forall fuel p path cs,
    ancestry procs p path ->
    walk calls_node procs fuel path p = Some cs ->
    NoDup (map (fun c => pid (snd c)) cs).
Proof.
  intros L. induction fuel as [|fuel IH]; intros p path cs An;
    [discriminate|].
  intros W. pose proof W as W0. revert W. cbn [walk].
  destruct (all_some
              (map (walk calls_node procs fuel (pid p :: path))
                 (if (0 <? List.length (children p))%nat
                  then sorted_children procs p else []))) as [rs|] eqn:E;
    [|discriminate].
  intros [= <-]. unfold calls_node. cbn [map snd]. constructor.
  - intros H. apply in_map_iff in H. destruct H as [[p' q] [Eq H]].
    simpl in Eq.
    assert (Hin : In (p', q) (calls_node path p rs)) by now right.
    pose proof (@walk_calls_ancestry procs L (S fuel) p path _ An W0 p' q
                  Hin) as Aq.
    destruct (all_some_map_In _ _ _ E H) as [y [r [Hy [Wy Hr]]]].
    destruct (@walk_calls_suffix procs fuel y (pid p :: path) r Wy p' q Hr)
      as [l El].
    apply (@ancestry_not_on_path procs q p' L Aq). rewrite Eq.
    destruct l as [|a l]; simpl in El; injection El as _ ->.
    + now left.
    + rewrite in_app_iff. right. right. now left.
  - apply (@forest_calls_NoDup procs fuel (pid p :: path) L
             (if (0 <? List.length (children p))%nat
              then sorted_children procs p else []) rs).
    + intros x Hx. apply walk_kids_In in Hx. now apply child_ancestry.
    + apply kids_NoDup; [exact L|now apply (@ancestry_In _ _ path)].
    + intros x cs Hx Wx. apply walk_kids_In in Hx.
      apply (IH x (pid p :: path) cs); [now apply child_ancestry|exact Wx].
    + exact E.
Qed.

Lemma NoDup_map_filter {A B : Type} (f : A -> B) (g : A -> bool)
  (l : list A) :
  NoDup (map f l) -> NoDup (map f (filter g l)).
Proof.
  induction l as [|a l IH]; simpl; intros ND; [constructor|].
  inversion ND as [|? ? Hn ND']; subst.
  destruct (g a); [|now apply IH].
  simpl. constructor; [|now apply IH].
  intros H. apply Hn. apply in_map_iff in H.
  destruct H as [x [E H]]. apply filter_In in H. destruct H as [H _].
  rewrite <- E. now apply in_map.
Qed.

Lemma linked_values_pids (procs : registry) :
  linked procs -> map pid (dict_values procs) = dict_keys procs.
Proof.
  intros [_ L]. unfold dict_values, dict_keys. rewrite map_map.
  apply map_ext_in. intros [k p] H. simpl. now destruct (L _ _ H).
Qed.

Lemma roots_NoDup (procs : registry) :
  linked procs -> NoDup (map pid (get_root_processes procs)).
Proof.
  intros L. unfold get_root_processes.
  apply (Permutation_NoDup
           (Permutation_sym
              (Permutation_map pid (sort_by_timestamp_perm _)))).
  apply NoDup_map_filter. rewrite (linked_values_pids L).
  now destruct L.
Qed.

Lemma tree_calls_NoDup (procs : registry) (fuel : nat)
  (cs : list (list Z * ProcessInfo)) :
  linked procs -> tree_calls procs fuel = Some cs ->
  NoDup (map (fun c => pid (snd c)) cs).
Proof.
  intros L. unfold tree_calls.
  destruct (all_some (map (calls procs fuel) (get_root_processes procs)))
    as [rs|] eqn:E; [|discriminate].
  intros [= <-].
  apply (@forest_calls_NoDup procs fuel [] L (get_root_processes procs) rs).
  - intros x Hx. now apply root_ancestry.
  - now apply roots_NoDup.
  - intros x c Hx Wx.
    apply (@walk_calls_NoDup procs L fuel x [] c);
      [now apply root_ancestry|exact Wx].
  - exact E.
Qed.

(** When a call is made on a record, a call is made on each record the
    renderer shows below it, with the path extended by its pid. *)
Lemma walk_calls_closed (procs : registry) :
  forall fuel p0 path0 cs,
    walk calls_node procs fuel path0 p0 = Some cs ->
    forall path' q x,
      In (path', q) cs -> In x (sorted_children procs q) ->
      In (pid q :: path', x) cs.
Proof.
  induction fuel as [|fuel IH]; intros p0 path0 cs; [discriminate|].
  cbn [walk].
  destruct (all_some
              (map (walk calls_node procs fuel (pid p0 :: path0))
                 (if (0 <? List.length (children p0))%nat
                  then sorted_children procs p0 else []))) as [rs|] eqn:E;
    [|discriminate].
  intros [= <-] path' q x. unfold calls_node.
  intros [[= <- <-]|H] Hx; right; apply in_concat.
  - assert (Hk : In x (if (0 <? List.length (children p0))%nat
                       then sorted_children procs p0 else [])).
    { destruct (children p0) as [|c cs'] eqn:C; [|exact Hx].
      unfold sorted_children in Hx. rewrite C in Hx. destruct Hx. }
    destruct (all_some_map_elem _ _ _ E Hk) as [r [Wr Hr]].
    exists r. split; [exact Hr|]. now apply (@walk_calls_head procs fuel).
  - destruct (all_some_map_In _ _ _ E H) as [y [r [Hy [Wy Hr]]]].
    destruct (all_some_map_elem _ _ _ E Hy) as [r' [Wr' Hr']].
    assert (r' = r) by congruence. subst r'.
    exists r. split; [exact Hr'|].
    now apply (IH y (pid p0 :: path0) r Wy path' q x).
Qed.

(** Every record with a chain of parents up to a root is rendered. *)
Lemma tree_calls_complete (procs : registry) (fuel : nat)
  (cs : list (list Z * ProcessInfo)) :
  linked procs -> ~ In 0 (dict_keys procs) ->
  tree_calls procs fuel = Some cs ->
  forall path p, ancestry procs p path -> In (path, p) cs.
Proof.
  intros L Z0. unfold tree_calls.
  destruct (all_some (map (calls procs fuel) (get_root_processes procs)))
    as [rs|] eqn:E; [|discriminate].
  intros [= <-]. induction path as [|a path IH]; intros p An.
  - destruct An as [Hp R].
    assert (Hr : In p (get_root_processes procs)).
    { unfold get_root_processes.
      apply (proj2 (sort_by_timestamp_In _ _)). apply filter_In.
      split; [|exact R]. unfold dict_values.
      change p with (snd (pid p, p)). now apply in_map. }
    destruct (all_some_map_elem _ _ _ E Hr) as [r [Wr Hin]].
    apply in_concat. exists r. split; [exact Hin|].
    now apply (@walk_calls_head procs fuel).
  - destruct An as [Hp [Ea [q [G Aq]]]].
    pose proof (IH q Aq) as Hq. apply in_concat in Hq.
    destruct Hq as [r [Hr Hq]].
    assert (Eq : a = pid q).
    { destruct L as [_ L']. apply reg_get_In_item in G.
      now destruct (L' _ _ G). }
    subst a.
    assert (W : exists y, In y (get_root_processes procs)
                          /\ calls procs fuel y = Some r).
    { clear - E Hr. revert rs E Hr.
      induction (get_root_processes procs) as [|y ys IHy]; intros rs;
        simpl; [intros [= <-] []|].
      destruct (calls procs fuel y) as [c|] eqn:C; [|discriminate].
      destruct (all_some (map (calls procs fuel) ys)) as [rs'|];
        [|discriminate].
      intros [= <-] [<-|H].
      - exists y. split; [now left|exact C].
      - destruct (IHy rs' eq_refl H) as [y' [H1 H2]].
        exists y'. split; [now right|exact H2]. }
    destruct W as [y [_ Wy]]. apply in_concat. exists r.
    split; [exact Hr|].
    apply (@walk_calls_closed procs fuel y [] r Wy path q p Hq).
    apply sorted_children_In_iff; [exact L| | |now split].
    + intros H0. apply Z0. rewrite <- H0.
      apply (@ancestry_keys _ _ _ Aq). now left.
    + now apply (@ancestry_In _ _ path).
Qed.

(** X10: the rendering of either program shows each record once at most;
    it shows a record exactly when a chain of parents leads from it up to
    a root; and a record of the registry that it does not show names as
    its parent a record of the registry that it does not show either. *)
Theorem X10_each_reachable_record_rendered_once (i : input)
  (max_events : option Z) (fuel : nat)
  (cs : list (list Z * ProcessInfo)) :
  let procs := processes (analyze i max_events) in
  tree_calls procs fuel = Some cs ->
  NoDup (map (fun c => pid (snd c)) cs)
  /\ (forall p, In p (map snd cs) <-> exists path, ancestry procs p path)
  /\ (forall k p, In (k, p) procs -> ~ In p (map snd cs) ->
        exists q, ppid p = Some (pid q) /\ In (pid q, q) procs
                  /\ ~ In q (map snd cs)).
Proof.
  intros procs T.
  pose proof (analyze_is_linked i max_events) as L. fold procs in L.
  assert (Z0 : ~ In 0 (dict_keys procs)).
  { intros H. apply (@analyze_keys_pos i max_events) in H. lia. }
  assert (R : forall p, In p (map snd cs)
                        <-> exists path, ancestry procs p path).
  { intros p. split.
    - intros H. apply in_map_iff in H. destruct H as [[path q] [E H]].
      simpl in E. subst q. exists path.
      now apply (@tree_calls_ancestry procs fuel cs L T).
    - intros [path A]. apply in_map_iff. exists (path, p).
      split; [reflexivity|].
      now apply (@tree_calls_complete procs fuel cs L Z0 T). }
  split; [now apply (@tree_calls_NoDup procs fuel)|]. split; [exact R|].
  intros k p Hp Hn.
  assert (Ek : pid p = k) by (destruct L as [_ L']; now destruct (L' _ _ Hp)).
  subst k.
  destruct (is_root procs p) eqn:Rt.
  - exfalso. apply Hn. apply R. exists []. now split.
  - unfold is_root in Rt. destruct (ppid p) as [pp|] eqn:Epp;
      [|discriminate].
    apply negb_false_iff in Rt. unfold reg_mem, dict_mem in Rt.
    fold (reg_get pp procs) in Rt.
    destruct (reg_get pp procs) as [q|] eqn:G; [|discriminate].
    pose proof (@linked_get_pid _ _ _ L G) as Hq.
    assert (Eq : pid q = pp).
    { destruct L as [_ L']. apply reg_get_In_item in G.
      now destruct (L' _ _ G). }
    exists q. split; [now rewrite Eq|]. split; [exact Hq|].
    intros Hr. apply Hn. apply R. apply R in Hr. destruct Hr as [path A].
    exists (pp :: path). simpl. split; [exact Hp|]. split; [exact Epp|].
    exists q. now split.
Qed.

(** The theorem at [cyclic_input]: the records of pids 3 and 4 are
    rendered, once each; those of pids 1 and 2 are not. *)
Lemma X10_witness :
  exists cs,
    tree_calls (processes (analyze cyclic_input None)) 4 = Some cs
    /\ map (fun c => pid (snd c)) cs = [3; 4]
    /\ NoDup (map (fun c => pid (snd c)) cs).
Proof.
  eexists. split; [vm_compute; reflexivity|]. split; [reflexivity|].
  apply (@X10_each_reachable_record_rendered_once cyclic_input None 4%nat).
  vm_compute. reflexivity.
Defined.

(* ------------------------------------------------------------------ *)
(** ** Escaping is compositional and loses nothing *)

Lemma flat_entities_app (s1 s2 : string) :
  flat_entities (s1 ++ s2) = flat_entities s1 ++ flat_entities s2.
Proof.
  induction s1 as [|a s1 IH]; simpl; [reflexivity|].
  now rewrite IH, str_app_assoc.
Qed.

Lemma str_length_app (s1 s2 : string) :
  String.length (s1 ++ s2) = (String.length s1 + String.length s2)%nat.
Proof. induction s1 as [|a s1 IH]; simpl; [reflexivity|]. now rewrite IH. Qed.

Lemma entity_length (a : ascii) : (1 <= String.length (entity a))%nat.
Proof.
  unfold entity.
  destruct (Ascii.eqb a "&"); [simpl; lia|].
  destruct (Ascii.eqb a "<"); [simpl; lia|].
  destruct (Ascii.eqb a ">"); [simpl; lia|].
  destruct (Ascii.eqb a dquote); simpl; lia.
Qed.

Lemma flat_entities_length (t : string) :
  (String.length t <= String.length (flat_entities t))%nat.
Proof.
  induction t as [|a t IH]; simpl; [lia|].
  rewrite str_length_app. pose proof (entity_length a). lia.
Qed.

(** The four characters [_esc] replaces. *)
Lemma entity_cases (a : ascii) :
  (a = "&"%char /\ entity a = "&amp;")
  \/ (a = "<"%char /\ entity a = "&lt;")
  \/ (a = ">"%char /\ entity a = "&gt;")
  \/ (a = dquote /\ entity a = "&quot;")
  \/ (a <> "&"%char /\ entity a = String a EmptyString).
Proof.
  unfold entity.
  destruct (Ascii.eqb_spec a "&") as [->|N1]; [now left|].
  destruct (Ascii.eqb_spec a "<") as [->|N2]; [right; now left|].
  destruct (Ascii.eqb_spec a ">") as [->|N3]; [right; right; now left|].
  destruct (Ascii.eqb_spec a dquote) as [->|N4];
    [right; right; right; now left|].
  right. right. right. right. now split.
Qed.

Lemma flat_entities_inj (s t : string) :
  flat_entities s = flat_entities t -> s = t.
Proof.
  revert t. induction s as [|a s IH]; intros [|b t]; simpl.
  - reflexivity.
  - intros H. apply (f_equal String.length) in H.
    rewrite str_length_app in H. pose proof (entity_length b).
    simpl in H. lia.
  - intros H. apply (f_equal String.length) in H.
    rewrite str_length_app in H. pose proof (entity_length a).
    simpl in H. lia.
  - destruct (entity_cases a) as [[-> ->]|[[-> ->]|[[-> ->]|[[-> ->]|[Na ->]]]]];
      destruct (entity_cases b)
        as [[-> ->]|[[-> ->]|[[-> ->]|[[-> ->]|[Nb ->]]]]];
      simpl; intros H; try discriminate H;
      try (injection H as H; f_equal; now apply IH);
      try (injection H as E H; congruence).
    injection H as E H. subst b. f_equal. now apply IH.
Qed.

Lemma flat_entities_fixed (t : string) :
  flat_entities t = t <->
  str_contains "&" t = false /\ str_contains "<" t = false
  /\ str_contains ">" t = false /\ str_contains dquote t = false.
Proof.
  induction t as [|a t IH]; simpl; [tauto|]. split.
  - intros H.
    assert (L : String.length (entity a ++ flat_entities t)
                = S (String.length t)) by now rewrite H.
    rewrite str_length_app in L. pose proof (flat_entities_length t) as Lt.
    unfold entity in H, L.
    destruct (Ascii.eqb a "&"); [simpl in L; lia|].
    destruct (Ascii.eqb a "<"); [simpl in L; lia|].
    destruct (Ascii.eqb a ">"); [simpl in L; lia|].
    destruct (Ascii.eqb a dquote); [simpl in L; lia|].
    simpl in H. injection H as H. apply IH in H. simpl. exact H.
  - intros [H1 [H2 [H3 H4]]].
    apply orb_false_elim in H1, H2, H3, H4.
    destruct H1 as [A1 H1], H2 as [A2 H2], H3 as [A3 H3], H4 as [A4 H4].
    unfold entity. rewrite A1, A2, A3, A4. simpl. f_equal.
    apply IH. tauto.
Qed.

(** X11: [_esc] works character by character, so the escaped text of a
    concatenation is the concatenation of the escaped texts; it never
    shortens its argument; different values have different escaped texts;
    and a value comes out unchanged exactly when it holds none of the
    four characters ampersand, less-than, greater-than and double
    quote. *)
Theorem X11_esc_compositional_and_injective :
  (forall s1 s2, _esc (s1 ++ s2) = _esc s1 ++ _esc s2)
  /\ (forall t, (String.length t <= String.length (_esc t))%nat)
  /\ (forall s t, _esc s = _esc t -> s = t)
  /\ (forall t, _esc t = t <->
                str_contains "&" t = false /\ str_contains "<" t = false
                /\ str_contains ">" t = false
                /\ str_contains dquote t = false).
Proof.
  split; [|split; [|split]].
  - intros s1 s2. rewrite !esc_flat. apply flat_entities_app.
  - intros t. rewrite esc_flat. apply flat_entities_length.
  - intros s t. rewrite !esc_flat. apply flat_entities_inj.
  - intros t. rewrite esc_flat. apply flat_entities_fixed.
Qed.

(* ------------------------------------------------------------------ *)
(** ** The ROOT label of the header *)

Lemma str_of_Z_not_ROOT (n : Z) : str_of_Z n <> "ROOT".
Proof.
  unfold str_of_Z. destruct (Z.to_int n) as [d|d]; simpl.
  - destruct d; simpl; discriminate.
  - discriminate.
Qed.

Lemma ppid_or_ROOT_spec (v : option Z) :
  ppid_or_ROOT v = "ROOT" <-> v = None \/ v = Some 0.
Proof.
  unfold ppid_or_ROOT. destruct v as [n|]; [|tauto].
  destruct (Z.eqb_spec n 0) as [->|N].
  - tauto.
  - split.
    + intros H. now apply str_of_Z_not_ROOT in H.
    + intros [H|H]; [discriminate|]. injection H as ->. contradiction.
Qed.

(** X12: in the page of either program the header of a record reads
    [PPID:ROOT] exactly when its parent pid is absent or is 0, and such a
    record is always rendered at the top level.  The converse does not
    hold: a top-level record whose parent pid is not 0 names a parent
    that is not in the registry, and its header shows that pid. *)
Theorem X12_ROOT_label_only_on_roots (i : input) (max_events : option Z)
  (k : Z) (p : ProcessInfo) :
  let procs := processes (analyze i max_events) in
  In (k, p) procs ->
  (ppid_or_ROOT (ppid p) = "ROOT" <-> ppid p = None \/ ppid p = Some 0)
  /\ (ppid_or_ROOT (ppid p) = "ROOT" -> is_root procs p = true)
  /\ (is_root procs p = true -> ppid_or_ROOT (ppid p) <> "ROOT" ->
      exists pp, ppid p = Some pp /\ pp <> 0
                 /\ ~ In pp (dict_keys procs)
                 /\ ppid_or_ROOT (ppid p) = str_of_Z pp).
Proof.
  intros procs H. split; [apply ppid_or_ROOT_spec|]. split.
  - intros R. apply ppid_or_ROOT_spec in R. apply is_root_spec.
    destruct R as [R|R]; [now left|]. right. exists 0. split; [exact R|].
    intros H0. apply (@analyze_keys_pos i max_events) in H0. lia.
  - intros R N. apply is_root_spec in R.
    destruct R as [R|[pp [R Hpp]]].
    + exfalso. apply N. apply ppid_or_ROOT_spec. now left.
    + exists pp. split; [exact R|].
      assert (N0 : pp <> 0).
      { intros ->. apply N. apply ppid_or_ROOT_spec. now right. }
      split; [exact N0|]. split; [exact Hpp|].
      rewrite R. unfold ppid_or_ROOT.
      destruct (Z.eqb_spec pp 0); [contradiction|reflexivity].
Qed.

(** The theorem at the record of pid 3 of [cyclic_input], which has no
    parent pid. *)
Lemma X12_witness :
  exists p,
    In (3, p) (processes (analyze cyclic_input None))
    /\ is_root (processes (analyze cyclic_input None)) p = true.
Proof.
  assert (H : exists p, In (3, p) (processes (analyze cyclic_input None))
                        /\ ppid_or_ROOT (ppid p) = "ROOT").
  { eexists. split.
    - vm_compute. right. right. left. reflexivity.
    - reflexivity. }
  destruct H as [p [H R]]. exists p. split; [exact H|].
  exact (proj1 (proj2 (@X12_ROOT_label_only_on_roots cyclic_input None 3 p
                         H)) R).
Defined.

(* ------------------------------------------------------------------ *)
(** ** The field mapping of an event *)

Lemma sdict_get_set_same (k v : string) (d : dict string string) :
  dict_get String.eqb k (dict_set String.eqb k v d) = Some v.
Proof.
  induction d as [|[k' v'] d IH]; simpl.
  - now rewrite String.eqb_refl.
  - destruct (String.eqb_spec k' k) as [->|N]; simpl.
    + now rewrite String.eqb_refl.
    + destruct (String.eqb_spec k' k); [contradiction|exact IH].
Qed.

Lemma sdict_get_set_other (k k' v : string) (d : dict string string) :
  k <> k' ->
  dict_get String.eqb k' (dict_set String.eqb k v d)
  = dict_get String.eqb k' d.
Proof.
  intros N. induction d as [|[k1 v1] d IH]; simpl.
  - destruct (String.eqb_spec k k'); [contradiction|reflexivity].
  - destruct (String.eqb_spec k1 k) as [->|N1]; simpl.
    + destruct (String.eqb_spec k k'); [contradiction|reflexivity].
    + now rewrite IH.
Qed.

Lemma collect_data_get (elems : list DataElem) (n : string)
  (d : dict string string) :
  dict_get String.eqb n
    (fold_left
       (fun data e =>
          match elem_Name e, elem_text e with
          | Some m, Some t =>
              if str_truthy m && str_truthy t
              then dict_set String.eqb m t data
              else data
          | _, _ => data
          end)
       elems d)
  = match find_last (sets_field n) elems with
    | Some e => elem_text e
    | None => dict_get String.eqb n d
    end.
Proof.
  unfold find_last. revert d.
  induction elems as [|e elems IH]; intros d; [reflexivity|].
  cbn [fold_left rev]. rewrite IH, find_app. cbn [find].
  destruct (find (sets_field n) (rev elems)); [reflexivity|].
  unfold sets_field.
  destruct e as [[m|] [t|]]; cbn [elem_Name elem_text]; try reflexivity.
  destruct (str_truthy m && str_truthy t); [|reflexivity].
  cbn [andb]. destruct (String.eqb_spec m n) as [->|N].
  - apply sdict_get_set_same.
  - now apply sdict_get_set_other.
Qed.

Lemma csv_data_get (items : list PayloadItem) (n : string)
  (d : dict string string) :
  dict_get String.eqb n
    (fold_left
       (fun data item =>
          let name := opt_default "" (item_Name item) in
          let text := opt_default "" (item_text item) in
          if str_truthy name then dict_set String.eqb name text data
          else data)
       items d)
  = match find_last (item_sets_field n) items with
    | Some it => Some (opt_default "" (item_text it))
    | None => dict_get String.eqb n d
    end.
Proof.
  unfold find_last. revert d.
  induction items as [|it items IH]; intros d; [reflexivity|].
  cbn [fold_left rev]. rewrite IH, find_app. cbn [find].
  destruct (find (item_sets_field n) (rev items)); [reflexivity|].
  unfold item_sets_field. cbn zeta.
  destruct it as [nm tx]; cbn [item_Name item_text].
  destruct (str_truthy (opt_default "" nm)); [|reflexivity].
  cbn [andb].
  destruct (String.eqb_spec (opt_default "" nm) n) as [<-|N].
  - apply sdict_get_set_same.
  - now apply sdict_get_set_other.
Qed.

(** X13: when a field name occurs more than once among the Data elements
    of an event, the later value wins.  In the EVTX program the value of
    a field is the text of the last element of that name whose text is
    not empty, and the field is missing when there is none; in the CSV
    program it is the text of the last item of that name, empty or not,
    so a later empty item erases an earlier value. *)
Theorem X13_last_data_element_wins :
  (forall (elems : list DataElem) (n : string),
      dict_get String.eqb n (collect_data elems)
      = match find_last (sets_field n) elems with
        | Some e => elem_text e
        | None => None
        end)
  /\ (forall (items : list PayloadItem) (n : string),
         dict_get String.eqb n (csv_data items)
         = option_map (fun it => opt_default "" (item_text it))
             (find_last (item_sets_field n) items))
  /\ (forall (n v : string) (elems : list DataElem)
             (items : list PayloadItem),
         n <> "" -> v <> "" ->
         dict_get String.eqb n
           (collect_data
              (mkDataElem (Some n) (Some v) :: elems
               ++ [mkDataElem (Some n) (Some "")]))
         <> Some ""
         /\ dict_get String.eqb n
              (csv_data
                 (mkPayloadItem (Some n) (Some v) :: items
                  ++ [mkPayloadItem (Some n) (Some "")]))
            = Some "").
Proof.
  split; [|split].
  - intros elems n. unfold collect_data. now rewrite collect_data_get.
  - intros items n. unfold csv_data. rewrite csv_data_get.
    now destruct (find_last (item_sets_field n) items).
  - intros n v elems items Hn Hv. split.
    + unfold collect_data. rewrite collect_data_get.
      destruct (find_last (sets_field n)
                  (mkDataElem (Some n) (Some v) :: elems
                   ++ [mkDataElem (Some n) (Some "")])) as [e|] eqn:F;
        [|discriminate].
      apply find_last_In in F. destruct F as [_ F].
      unfold sets_field in F.
      destruct (elem_Name e) as [m|]; [|discriminate].
      destruct (elem_text e) as [t|]; [|discriminate].
      destruct t; [|discriminate].
      now rewrite andb_false_r in F.
    + unfold csv_data. rewrite csv_data_get. unfold find_last.
      change (mkPayloadItem (Some n) (Some v) :: items
              ++ [mkPayloadItem (Some n) (Some "")])%list
        with ((mkPayloadItem (Some n) (Some v) :: items)
              ++ [mkPayloadItem (Some n) (Some "")])%list.
      rewrite rev_app_distr. cbn [rev app find].
      unfold item_sets_field. cbn [item_Name opt_default].
      rewrite String.eqb_refl. destruct n; [contradiction|reflexivity].
Qed.

(* ------------------------------------------------------------------ *)
(** ** A parent pid that is not a number *)

Lemma bad_parent_field (data : dict string string) (s : string) :
  dict_get String.eqb "ParentProcessId" data = Some s ->
  s <> "" -> py_int s = None ->
  optional_int_of_field "ParentProcessId" data = None.
Proof.
  intros G N P. unfold optional_int_of_field. rewrite G.
  destruct s as [|a s]; [contradiction|]. cbn [str_truthy].
  now rewrite P.
Qed.

Lemma evtx_records_app (us1 us2 : list evtx_unit) :
  evtx_records (us1 ++ us2)%list
  = (evtx_records us1 ++ evtx_records us2)%list.
Proof. unfold evtx_records. apply flat_map_app. Qed.

Lemma csv_records_app (rs1 rs2 : list CsvRow) :
  csv_records (rs1 ++ rs2)%list
  = (csv_records rs1 ++ csv_records rs2)%list.
Proof. unfold csv_records. apply flat_map_app. Qed.

(** X14: an event whose ParentProcessId field is not empty and is not a
    number leaves no record, whatever its ProcessId: the [ValueError] of
    [int] is swallowed by the [except] clause before the insertion.  The
    registry of a log that holds such an event is the registry of the log
    without it.  The event is counted in the total; the EVTX program
    counts it as a process event as well when its EventID is 1, the CSV
    program does not. *)
Theorem X14_bad_parent_field_drops_the_record :
  (forall (root : XmlRoot) (us1 us2 : list evtx_unit) (s : string),
      dict_get String.eqb "ParentProcessId" (evtx_data root) = Some s ->
      s <> "" -> py_int s = None ->
      let with_it := analyze (EvtxFile (us1 ++ Some root :: us2)) None in
      let without := analyze (EvtxFile (us1 ++ us2)) None in
      processes with_it = processes without
      /\ total_events with_it = total_events without + 1
      /\ process_events with_it
         = process_events without
           + (if evtx_is_process_creation root then 1 else 0))
  /\ (forall (row : CsvRow) (rs1 rs2 : list CsvRow)
             (data : dict string string) (s : string),
         csv_row_data row = Some data ->
         dict_get String.eqb "ParentProcessId" data = Some s ->
         s <> "" -> py_int s = None ->
         let with_it := analyze (CsvFile (rs1 ++ row :: rs2)) None in
         let without := analyze (CsvFile (rs1 ++ rs2)) None in
         processes with_it = processes without
         /\ total_events with_it = total_events without + 1
         /\ process_events with_it = process_events without).
Proof.
  split.
  - intros root us1 us2 s G N P with_it without. subst with_it without.
    assert (R : evtx_record root = None).
    { unfold evtx_record.
      destruct (int_of_field "ProcessId" (evtx_data root)) as [p|];
        [|reflexivity].
      destruct (0 <? p); [|reflexivity].
      now rewrite (@bad_parent_field _ s G N P). }
    split; [|split].
    + rewrite !registry_insertions. unfold input_records, cap_prefix.
      rewrite !evtx_records_app.
      change (Some root :: us2) with ([Some root] ++ us2)%list.
      rewrite evtx_records_app. unfold evtx_records at 2.
      cbn [flat_map]. rewrite R.
      now destruct (evtx_is_process_creation root).
    + rewrite !analyze_total_events. unfold input_length.
      rewrite !length_app. cbn [List.length]. lia.
    + rewrite !analyze_process_events. unfold input_qualifying, cap_prefix.
      rewrite !filter_app. cbn [filter evtx_qualifies].
      destruct (evtx_is_process_creation root);
        rewrite !length_app; cbn [List.length]; lia.
  - intros row rs1 rs2 data s D G N P with_it without.
    subst with_it without.
    assert (R : csv_record row = None).
    { unfold csv_record. rewrite D.
      destruct (int_of_field "ProcessId" data) as [p|]; [|reflexivity].
      destruct (p <=? 0); [reflexivity|].
      now rewrite (@bad_parent_field _ s G N P). }
    assert (E : input_records None (CsvFile (rs1 ++ row :: rs2))
                = input_records None (CsvFile (rs1 ++ rs2))).
    { unfold input_records, cap_prefix. rewrite !csv_records_app.
      change (row :: rs2) with ([row] ++ rs2)%list.
      rewrite csv_records_app. unfold csv_records at 2.
      cbn [flat_map]. rewrite R. now destruct (csv_qualifies row). }
    split; [|split].
    + now rewrite !registry_insertions, E.
    + rewrite !analyze_total_events. unfold input_length.
      rewrite !length_app. cbn [List.length]. lia.
    + now rewrite !analyze_process_events, E.
Qed.

(** The theorem at a log of one event with ProcessId 5 and the
    ParentProcessId [abc]: in both programs the registry is that of the
    empty log. *)
Lemma X14_witness :
  let fields := [("ProcessId", "5"); ("ParentProcessId", "abc")] in
  processes (analyze (EvtxFile [evtx_event fields "2024-01-01T00:00:00"])
               None)
  = processes (analyze (EvtxFile []) None)
  /\ processes (analyze (CsvFile [csv_event fields "2024-01-01T00:00:00"])
                  None)
     = processes (analyze (CsvFile []) None).
Proof.
  intros fields. split.
  - exact (proj1 (proj1 X14_bad_parent_field_drops_the_record
                    (xml_of fields "2024-01-01T00:00:00") [] [] "abc"
                    eq_refl ltac:(discriminate) eq_refl)).
  - exact (proj1 (proj2 X14_bad_parent_field_drops_the_record
                    (csv_event fields "2024-01-01T00:00:00") [] []
                    (csv_data
                       (map (fun kv => mkPayloadItem (Some (fst kv))
                                         (Some (snd kv))) fields))
                    "abc" eq_refl eq_refl ltac:(discriminate) eq_refl)).
Defined.

(* ------------------------------------------------------------------ *)
(** ** The two front ends on the same events *)

Lemma collect_data_csv_data (fields : list (string * string))
  (d : dict string string) :
  (forall n v, In (n, v) fields -> v <> "") ->
  fold_left
    (fun data e =>
       match elem_Name e, elem_text e with
       | Some n, Some t =>
           if str_truthy n && str_truthy t then dict_set String.eqb n t data
           else data
       | _, _ => data
       end)
    (map (fun kv => mkDataElem (Some (fst kv)) (Some (snd kv))) fields) d
  = fold_left
      (fun data item =>
         let name := opt_default "" (item_Name item) in
         let text := opt_default "" (item_text item) in
         if str_truthy name then dict_set String.eqb name text data
         else data)
      (map (fun kv => mkPayloadItem (Some (fst kv)) (Some (snd kv))) fields)
      d.
Proof.
  revert d. induction fields as [|[n v] fields IH]; intros d H;
    [reflexivity|].
  cbn [map fold_left fst snd elem_Name elem_text item_Name item_text
       opt_default].
  assert (Hv : str_truthy v = true).
  { destruct v; [|reflexivity]. exfalso.
    now apply (H n ""); [left|]. }
  rewrite Hv, andb_true_r.
  destruct (str_truthy n); apply IH; intros n' v' H'; apply (H n' v');
    now right.
Qed.

Lemma evtx_data_xml_of (fields : list (string * string)) (time : string) :
  evtx_data (xml_of fields time)
  = collect_data
      (map (fun kv => mkDataElem (Some (fst kv)) (Some (snd kv))) fields).
Proof.
  unfold evtx_data, xml_of. cbn [findall_Data_ns findall_Data].
  now destruct (collect_data _).
Qed.

Lemma evtx_data_csv_data (fields : list (string * string)) (time : string) :
  (forall n v, In (n, v) fields -> v <> "") ->
  evtx_data (xml_of fields time)
  = csv_data
      (map (fun kv => mkPayloadItem (Some (fst kv)) (Some (snd kv))) fields).
Proof.
  intros H. rewrite evtx_data_xml_of. unfold collect_data, csv_data.
  now apply collect_data_csv_data.
Qed.

Lemma str_prefix_empty (n : nat) : str_prefix n "" = "".
Proof. now destruct n. Qed.

Lemma front_ends_same_record (fields : list (string * string))
  (time : string) :
  (forall n v, In (n, v) fields -> v <> "") ->
  evtx_record (xml_of fields time) = csv_record (csv_event fields time).
Proof.
  intros H. unfold evtx_record, csv_record, csv_row_data, csv_event.
  cbn [row_Payload row_UserName opt_default].
  rewrite (@evtx_data_csv_data fields time H).
  set (data := csv_data _).
  destruct (int_of_field "ProcessId" data) as [p|]; [|reflexivity].
  rewrite (Z.leb_antisym 0 p) at 1. rewrite Z.ltb_antisym.
  destruct (p <=? 0); cbn [negb]; [reflexivity|].
  destruct (optional_int_of_field "ParentProcessId" data);
    [|reflexivity].
  do 2 f_equal. unfold evtx_timestamp, csv_timestamp, xml_of.
  cbn [find_TimeCreated_ns row_TimeCreated].
  destruct time; [now rewrite str_prefix_empty|reflexivity].
Qed.

Lemma cap_prefix_map {A B : Type} (f : A -> B) (max_events : option Z)
  (l : list A) :
  cap_prefix max_events (map f l) = map f (cap_prefix max_events l).
Proof.
  unfold cap_prefix. destruct max_events as [m|]; [|reflexivity].
  destruct (m =? 0); [reflexivity|]. apply firstn_map.
Qed.

Lemma firstn_incl {A : Type} (n : nat) (l : list A) : incl (firstn n l) l.
Proof.
  revert l. induction n as [|n IH]; intros l z Hz.
  - destruct Hz.
  - destruct l as [|a l]; [destruct Hz|].
    destruct Hz as [E|Hz]; [now left|right; now apply (IH l)].
Qed.

Lemma cap_prefix_incl {A : Type} (max_events : option Z) (l : list A) :
  incl (cap_prefix max_events l) l.
Proof.
  unfold cap_prefix. destruct max_events as [m|]; [|apply incl_refl].
  destruct (m =? 0); [apply incl_refl|apply firstn_incl].
Qed.

Lemma front_ends_same_records (evs : list (list (string * string) * string)) :
  (forall fields time n v,
      In (fields, time) evs -> In (n, v) fields -> v <> "") ->
  evtx_records (map (fun ev => evtx_event (fst ev) (snd ev)) evs)
  = csv_records (map (fun ev => csv_event (fst ev) (snd ev)) evs).
Proof.
  induction evs as [|[fields time] evs IH]; intros H; [reflexivity|].
  cbn [map fst snd].
  change (evtx_event fields time :: ?l) with ([evtx_event fields time] ++ l)%list.
  change (csv_event fields time :: ?l) with ([csv_event fields time] ++ l)%list.
  rewrite evtx_records_app, csv_records_app. f_equal.
  - unfold evtx_records, csv_records, evtx_event. cbn [flat_map].
    fold (xml_of fields time).
    change (evtx_is_process_creation (xml_of fields time)) with true.
    change (csv_qualifies (csv_event fields time)) with true.
    cbn iota. f_equal. f_equal.
    apply front_ends_same_record. intros n v. apply (H fields time).
    now left.
  - apply IH. intros f t n v Hin. apply (H f t n v). now right.
Qed.

(** X16: the two programs agree on the same events.  A list of
    process-creation events, each given by its fields and its time, is
    handed to the EVTX program as XML records and to the CSV program as
    rows; when no field has an empty value, the two programs end with the
    same registry, hence the same roots and the same calls of the
    renderer, and the same total; the EVTX program counts at least as
    many process events as the CSV program. *)
Theorem X16_front_ends_agree (evs : list (list (string * string) * string))
  (max_events : option Z) :
  (forall fields time n v,
      In (fields, time) evs -> In (n, v) fields -> v <> "") ->
  let e :=
    analyze (EvtxFile (map (fun ev => evtx_event (fst ev) (snd ev)) evs))
      max_events in
  let c :=
    analyze (CsvFile (map (fun ev => csv_event (fst ev) (snd ev)) evs))
      max_events in
  processes e = processes c
  /\ get_root_processes (processes e) = get_root_processes (processes c)
  /\ (forall fuel, tree_calls (processes e) fuel
                   = tree_calls (processes c) fuel)
  /\ total_events e = total_events c
  /\ process_events c <= process_events e.
Proof.
  intros H e c. subst e c.
  assert (R : input_records max_events
                (EvtxFile (map (fun ev => evtx_event (fst ev) (snd ev)) evs))
              = input_records max_events
                  (CsvFile (map (fun ev => csv_event (fst ev) (snd ev)) evs))).
  { unfold input_records. rewrite !cap_prefix_map.
    apply front_ends_same_records. intros f t n v Hin.
    apply (H f t n v). now apply (@cap_prefix_incl _ max_events evs). }
  assert (P : processes
                (analyze
                   (EvtxFile
                      (map (fun ev => evtx_event (fst ev) (snd ev)) evs))
                   max_events)
              = processes
                  (analyze
                     (CsvFile
                        (map (fun ev => csv_event (fst ev) (snd ev)) evs))
                     max_events)).
  { now rewrite !registry_insertions, R. }
  split; [exact P|]. rewrite P.
  split; [reflexivity|]. split; [reflexivity|]. split.
  - rewrite !analyze_total_events. unfold input_length.
    now rewrite !length_map.
  - rewrite !analyze_process_events, <- R. apply inj_le.
    unfold input_records, input_qualifying. apply evtx_records_length.
Qed.

(** The theorem at two events, the second a child of the first. *)
Lemma X16_witness :
  let evs :=
    [([("ProcessId", "4"); ("Image", "C:\Windows\System32\smss.exe")],
      "2024-01-01T00:00:00");
     ([("ProcessId", "1000"); ("ParentProcessId", "4")],
      "2024-01-01T00:00:05")] in
  processes
    (analyze (EvtxFile (map (fun ev => evtx_event (fst ev) (snd ev)) evs))
       None)
  = processes
      (analyze (CsvFile (map (fun ev => csv_event (fst ev) (snd ev)) evs))
         None).
Proof.
  intros evs.
  assert (H : forall fields time n v,
             In (fields, time) evs -> In (n, v) fields -> v <> "").
  { intros fields time n v [E|[E|[]]] Hin; injection E as <- <-;
      simpl in Hin; decompose [or] Hin; try contradiction;
      match goal with E : _ = (n, v) |- _ => injection E as <- <- end;
      discriminate. }
  exact (proj1 (@X16_front_ends_agree evs None H)).
Defined.

(* ------------------------------------------------------------------ *)
(** ** A log that cannot be read to its end *)

Lemma all_some_map_total {A B : Type} (f : A -> option B) (g : A -> B)
  (l : list A) :
  (forall x, In x l -> f x = Some (g x)) ->
  all_some (map f l) = Some (map g l).
Proof.
  induction l as [|x l IH]; intros H; simpl; [reflexivity|].
  rewrite (H x (or_introl eq_refl)), IH; [reflexivity|].
  intros y Hy. apply H. now right.
Qed.

Lemma analyze_interrupted_unlinked (i : input) :
  unlinked (processes (analyze_interrupted i)).
Proof.
  destruct i as [units|rows]; unfold analyze_interrupted.
  - apply evtx_loop_unlinked. apply unlinked_nil.
  - apply csv_loop_unlinked. apply unlinked_nil.
Qed.

Lemma walk_leaf {A : Type} (node : list Z -> ProcessInfo -> list A -> A)
  (procs : registry) (fuel : nat) (path : list Z) (p : ProcessInfo) :
  children p = [] ->
  walk node procs (S fuel) path p = Some (node path p []).
Proof. intros C. cbn [walk]. now rewrite C. Qed.

Lemma concat_map_singleton {A B : Type} (f : A -> B) (l : list A) :
  List.concat (map (fun x => [f x]) l) = map f l.
Proof. induction l as [|a l IH]; simpl; [reflexivity|]. now rewrite IH. Qed.

(** X17: when the reader of the log raises before the end of the log,
    the [except] clause returns without the link step, and the page is
    written all the same.  The registry holds the records read so far,
    under the same pids as after a complete run on them, but every child
    list is empty: the page shows the roots only, each as a leaf, and no
    record whose parent is in the registry. *)
Theorem X17_interrupted_parse_renders_roots_only (i : input) :
  let procs := processes (analyze_interrupted i) in
  processes (analyze i None) = _build_tree procs
  /\ dict_keys (processes (analyze i None)) = dict_keys procs
  /\ (forall k p, In (k, p) procs -> children p = [])
  /\ (forall fuel,
         tree_calls procs (S fuel)
         = Some (map (fun r => ([], r)) (get_root_processes procs)))
  /\ (forall fuel,
         generate_html_tree (sep_of i) procs (S fuel)
         = Some (join (map (fun r => html_node (sep_of i) r [])
                         (get_root_processes procs))))
  /\ (forall fuel cs k p pp,
         tree_calls procs (S fuel) = Some cs ->
         In (k, p) procs -> ppid p = Some pp -> In pp (dict_keys procs) ->
         ~ In p (map snd cs)).
Proof.
  intros procs.
  pose proof (analyze_interrupted_unlinked i) as U. fold procs in U.
  assert (E : processes (analyze i None) = _build_tree procs).
  { destruct i as [units|rows]; reflexivity. }
  assert (C : forall k p, In (k, p) procs -> children p = []).
  { intros k p H. destruct U as [_ F]. rewrite Forall_forall in F.
    now destruct (F _ H). }
  assert (R : forall r, In r (get_root_processes procs) ->
                        children r = [] /\ is_root procs r = true).
  { intros r H. unfold get_root_processes in H.
    apply (proj1 (sort_by_timestamp_In _ _)) in H. apply filter_In in H.
    destruct H as [H Hr]. split; [|exact Hr].
    unfold dict_values in H. apply in_map_iff in H.
    destruct H as [[k p] [<- H]]. now apply (C k). }
  assert (T : forall fuel,
             tree_calls procs (S fuel)
             = Some (map (fun r => ([], r)) (get_root_processes procs))).
  { intros fuel. unfold tree_calls.
    rewrite (@all_some_map_total _ _ (calls procs (S fuel))
               (fun r => [([], r)])).
    - now rewrite concat_map_singleton.
    - intros r Hr. unfold calls. rewrite walk_leaf by now apply R.
      reflexivity. }
  split; [exact E|]. split.
  { rewrite E. apply build_tree_keys. now destruct U. }
  split; [exact C|]. split; [exact T|]. split.
  - intros fuel. unfold generate_html_tree, _gen_tree_html.
    rewrite (@all_some_map_total _ _ (_gen_proc_html (sep_of i) procs (S fuel))
               (fun r => html_node (sep_of i) r [])); [reflexivity|].
    intros r Hr. unfold _gen_proc_html. rewrite walk_leaf by now apply R.
    reflexivity.
  - intros fuel cs k p pp Hc Hp Epp Hin Hr. rewrite T in Hc.
    injection Hc as <-. rewrite map_map in Hr. cbn [snd] in Hr.
    rewrite map_id in Hr. apply R in Hr. destruct Hr as [_ Hr].
    unfold is_root in Hr. rewrite Epp in Hr.
    apply negb_true_iff, reg_mem_false in Hr. contradiction.
Qed.

(** The theorem at the four records of [cyclic_input]: after a complete
    run the record of pid 4 is rendered below that of pid 3; after an
    interrupted one only that of pid 3 is rendered. *)
Lemma X17_witness :
  option_map (map (fun c => pid (snd c)))
    (tree_calls (processes (analyze cyclic_input None)) 4)
  = Some [3; 4]
  /\ option_map (map (fun c => pid (snd c)))
       (tree_calls (processes (analyze_interrupted cyclic_input)) 4)
     = Some [3].
Proof.
  split; [reflexivity|].
  rewrite (proj1 (proj2 (proj2 (proj2
             (X17_interrupted_parse_renders_roots_only cyclic_input))))
             3%nat).
  reflexivity.
Defined.

(* ------------------------------------------------------------------ *)
(** ** The registry the loops build: insertion and the cap *)

Lemma after_loop_insertions (i : input) (max_events : option Z) :
  processes (after_loop i max_events)
  = insert_all (input_records max_events i) [].
Proof.
  destruct max_events as [m|].
  - unfold input_records, cap_prefix. destruct (Z.eqb_spec m 0) as [->|Hm].
    + destruct i as [units|rows]; unfold after_loop.
      * rewrite evtx_loop_cap_zero. apply evtx_loop_insert_all.
      * rewrite csv_loop_cap_zero. apply csv_loop_insert_all.
    + destruct i as [units|rows]; unfold after_loop.
      * destruct (@evtx_loop_cap m units 0 SysmonParser_init Hm) as [H _].
        rewrite Z.sub_0_r in H. rewrite H. apply evtx_loop_insert_all.
      * destruct (@csv_loop_cap m rows SysmonParser_init Hm) as [H _].
        cbn [total_events SysmonParser_init] in H.
        rewrite Z.sub_0_r in H. rewrite H. apply csv_loop_insert_all.
  - destruct i as [units|rows]; unfold after_loop, input_records,
      cap_prefix.
    + apply evtx_loop_insert_all.
    + apply csv_loop_insert_all.
Qed.

Lemma analyze_after_loop (i : input) (max_events : option Z) :
  processes (analyze i max_events)
  = _build_tree (processes (after_loop i max_events)).
Proof. destruct i; reflexivity. Qed.

Lemma insert_all_item (records : list ProcessInfo) (k : Z)
  (r : ProcessInfo) :
  In (k, r) (insert_all records []) <->
  find_last (fun x => pid x =? k) records = Some r.
Proof.
  assert (ND : NoDup (dict_keys (insert_all records [])))
    by (apply insert_all_NoDup; constructor).
  assert (G : reg_get k (insert_all records [])
              = find_last (fun x => pid x =? k) records).
  { rewrite insert_all_get.
    now destruct (find_last (fun x => pid x =? k) records). }
  rewrite <- G. split; [now apply In_item_reg_get|apply reg_get_In_item].
Qed.

(** C5: the registry holds one record per pid, the last one inserted.
    One assignment [self.processes[pid] = ProcessInfo(...)] of either
    program puts the record it has built under its pid, in place of what
    was there, and leaves every other pid as it was.  So, when the loop
    of either program has ended, the registry has no pid twice, its pids
    are the pids of the records built from the log, and the record under
    a pid is, in full, the last record built with that pid; the link
    step that follows keeps the pids and changes the child lists only.
    Two events of pid 7 leave the one record of the second event, in
    both programs. *)
Theorem C5_last_write_wins :
  (forall (root : XmlRoot) (procs : registry) (r : ProcessInfo),
      evtx_record root = Some r ->
      let procs' := _extract_process_data root procs in
      reg_get (pid r) procs' = Some r
      /\ (forall k, k <> pid r -> reg_get k procs' = reg_get k procs)
      /\ (NoDup (dict_keys procs) -> NoDup (dict_keys procs')))
  /\ (forall (row : CsvRow) (self : SysmonParser) (r : ProcessInfo),
         csv_record row = Some r ->
         let procs' := processes (_extract_process_from_row row self) in
         reg_get (pid r) procs' = Some r
         /\ (forall k, k <> pid r ->
                       reg_get k procs' = reg_get k (processes self))
         /\ (NoDup (dict_keys (processes self)) ->
             NoDup (dict_keys procs')))
  /\ (forall (i : input) (max_events : option Z),
         let records := input_records max_events i in
         let inserted := processes (after_loop i max_events) in
         let procs := processes (analyze i max_events) in
         NoDup (dict_keys inserted)
         /\ (forall k, In k (dict_keys inserted) <-> In k (map pid records))
         /\ (forall k r,
                In (k, r) inserted <->
                find_last (fun x => pid x =? k) records = Some r)
         /\ NoDup (dict_keys procs)
         /\ dict_keys procs = dict_keys inserted
         /\ (forall k p,
                In (k, p) procs ->
                exists r,
                  find_last (fun x => pid x =? k) records = Some r
                  /\ same_but_children p r))
  /\ processes
       (analyze
          (EvtxFile
             [evtx_event [("ProcessId", "7"); ("CommandLine", "first")]
                "2024-01-01T00:00:01";
              evtx_event [("ProcessId", "7"); ("CommandLine", "second")]
                "2024-01-01T00:00:02"])
          None)
     = [(7, ProcessInfo_init 7 "Unknown" None "second" "" ""
              "2024-01-01T00:00:02")]
  /\ processes
       (analyze
          (CsvFile
             [csv_event [("ProcessId", "7"); ("CommandLine", "first")]
                "2024-01-01T00:00:01";
              csv_event [("ProcessId", "7"); ("CommandLine", "second")]
                "2024-01-01T00:00:02"])
          None)
     = [(7, ProcessInfo_init 7 "Unknown" None "second" "" ""
              "2024-01-01T00:00:02")].
Proof.
  split; [|split; [|split; [|split]]].
  - intros root procs r E procs'. subst procs'.
    rewrite extract_process_data_record, E. split; [|split].
    + apply reg_get_set_same.
    + intros k N. apply reg_get_set_other. congruence.
    + apply NoDup_keys_reg_set.
  - intros row self r E procs'. subst procs'.
    rewrite extract_process_from_row_record, E. cbn [processes].
    split; [|split].
    + apply reg_get_set_same.
    + intros k N. apply reg_get_set_other. congruence.
    + apply NoDup_keys_reg_set.
  - intros i max_events records inserted procs.
    subst records inserted procs.
    rewrite analyze_after_loop, after_loop_insertions.
    set (records := input_records max_events i).
    assert (ND : NoDup (dict_keys (insert_all records [])))
      by (apply insert_all_NoDup; constructor).
    split; [exact ND|]. split; [|split; [|split; [|split]]].
    + intros k. rewrite insert_all_keys. simpl. tauto.
    + intros k r. apply insert_all_item.
    + now rewrite build_tree_keys.
    + now apply build_tree_keys.
    + intros k p H.
      rewrite build_tree_with_children in H by assumption.
      unfold with_children in H. apply in_map_iff in H.
      destruct H as [[k0 r0] [E H]]. simpl in E. injection E as <- <-.
      exists r0. split; [now apply insert_all_item|].
      apply same_but_children_add.
  - vm_compute. reflexivity.
  - vm_compute. reflexivity.
Qed.

(* ------------------------------------------------------------------ *)
(** ** The cap: what is in the registry and what is not *)

Lemma input_records_cap (i : input) (m : Z) :
  m <> 0 ->
  input_records (Some m) i
  = input_records None (input_firstn (Z.to_nat m) i).
Proof.
  intros Hm. unfold input_records, cap_prefix, input_firstn.
  destruct (Z.eqb_spec m 0); [contradiction|]. now destruct i.
Qed.

(** A registry built from two records of different pids holds these two,
    and nothing of any other pid is in it, among its roots, in a child
    list or in the calls of the renderer. *)
Lemma two_records_registry (i : input) (max_events : option Z)
  (r1 r2 : ProcessInfo) :
  input_records max_events i = [r1; r2] -> pid r1 <> pid r2 ->
  let procs := processes (analyze i max_events) in
  (exists p1 p2,
      procs = [(pid r1, p1); (pid r2, p2)]
      /\ same_but_children p1 r1 /\ same_but_children p2 r2)
  /\ (forall k, k <> pid r1 -> k <> pid r2 ->
        reg_get k procs = None
        /\ (forall p, In p (get_root_processes procs) -> pid p <> k)
        /\ (forall k' p, In (k', p) procs -> ~ In k (children p))
        /\ (forall fuel cs c,
               tree_calls procs fuel = Some cs -> In c cs ->
               pid (snd c) <> k)).
Proof.
  intros R N procs.
  assert (E : procs
              = with_children
                  (linked_children [(pid r1, r1); (pid r2, r2)])
                  [(pid r1, r1); (pid r2, r2)]).
  { subst procs. rewrite registry_insertions, R.
    assert (D : insert_all [r1; r2] [] = [(pid r1, r1); (pid r2, r2)]).
    { unfold insert_all, reg_set. cbn [fold_left dict_set].
      destruct (Z.eqb_spec (pid r1) (pid r2)); [contradiction|reflexivity]. }
    rewrite D. apply build_tree_with_children. cbn [dict_keys map fst].
    constructor; [intros [H|[]]; congruence|].
    constructor; [intros []|constructor]. }
  assert (K : dict_keys procs = [pid r1; pid r2]) by now rewrite E.
  pose proof (analyze_is_linked i max_events) as L. fold procs in L.
  split.
  - rewrite E. cbn [with_children map fst snd]. do 2 eexists.
    split; [reflexivity|]. split; apply same_but_children_add.
  - intros k N1 N2.
    assert (Hk : ~ In k (dict_keys procs)).
    { rewrite K. intros [H|[H|[]]]; congruence. }
    split; [now apply reg_get_None|]. split; [|split].
    + intros p Hp Ep. apply Hk. rewrite <- Ep.
      apply (@root_ancestry procs p L) in Hp. apply ancestry_In in Hp.
      change (pid p) with (fst (pid p, p)). unfold dict_keys.
      now apply in_map.
    + intros k' p Hp Hc.
      unfold procs in Hc.
      rewrite (@analyze_children_naming i max_events k' p Hp) in Hc.
      apply naming_parent_In in Hc. destruct Hc as [r [Hr _]].
      apply Hk. change k with (fst (k, r)). unfold dict_keys.
      now apply in_map.
    + intros fuel cs [path q] T Hc Eq. cbn [snd] in Eq. apply Hk.
      rewrite <- Eq.
      pose proof (@tree_calls_ancestry procs fuel cs L T path q Hc) as A.
      apply ancestry_In in A.
      change (pid q) with (fst (pid q, q)). unfold dict_keys.
      now apply in_map.
Qed.

(** C8: when the cap is set (to a number other than zero), processing
    stops at the cap and what was inserted before stays.  The registry of
    either program is built from the records of the log up to the cap
    and from no other: its pids are the pids of the records built from
    them, each held by the last of these records with that pid, and the
    registry, the count of process events, the roots and the rendered
    tree are those of a run without a cap on the records up to the cap.
    With a cap of 2 and three records of which the first two qualify and
    give records of different pids, in either program exactly these two
    are in the registry, whatever the third record is; no other pid, the
    pid of the third included, is in the registry, among the roots, in a
    child list or in a call of the renderer. *)
Theorem C8_cap_keeps_prefix :
  (forall (i : input) (m : Z),
      m <> 0 ->
      let capped := analyze i (Some m) in
      let prefix := analyze (input_firstn (Z.to_nat m) i) None in
      let kept := input_records None (input_firstn (Z.to_nat m) i) in
      processes (after_loop i (Some m)) = insert_all kept []
      /\ (forall k, In k (dict_keys (processes capped))
                    <-> In k (map pid kept))
      /\ (forall k p,
             In (k, p) (processes capped) ->
             exists r, find_last (fun x => pid x =? k) kept = Some r
                       /\ same_but_children p r)
      /\ processes capped = processes prefix
      /\ process_events capped = process_events prefix
      /\ get_root_processes (processes capped)
         = get_root_processes (processes prefix)
      /\ (forall sep fuel,
             generate_html_tree sep (processes capped) fuel
             = generate_html_tree sep (processes prefix) fuel))
  /\ (forall (u1 u2 : XmlRoot) (third : evtx_unit) (r1 r2 : ProcessInfo),
         evtx_is_process_creation u1 = true ->
         evtx_is_process_creation u2 = true ->
         evtx_record u1 = Some r1 -> evtx_record u2 = Some r2 ->
         pid r1 <> pid r2 ->
         let procs :=
           processes (analyze (EvtxFile [Some u1; Some u2; third])
                        (Some 2)) in
         (exists p1 p2,
             procs = [(pid r1, p1); (pid r2, p2)]
             /\ same_but_children p1 r1 /\ same_but_children p2 r2)
         /\ (forall k, k <> pid r1 -> k <> pid r2 ->
               reg_get k procs = None
               /\ (forall p, In p (get_root_processes procs) -> pid p <> k)
               /\ (forall k' p, In (k', p) procs -> ~ In k (children p))
               /\ (forall fuel cs c,
                      tree_calls procs fuel = Some cs -> In c cs ->
                      pid (snd c) <> k)))
  /\ (forall (row1 row2 third : CsvRow) (r1 r2 : ProcessInfo),
         csv_qualifies row1 = true -> csv_qualifies row2 = true ->
         csv_record row1 = Some r1 -> csv_record row2 = Some r2 ->
         pid r1 <> pid r2 ->
         let procs :=
           processes (analyze (CsvFile [row1; row2; third]) (Some 2)) in
         (exists p1 p2,
             procs = [(pid r1, p1); (pid r2, p2)]
             /\ same_but_children p1 r1 /\ same_but_children p2 r2)
         /\ (forall k, k <> pid r1 -> k <> pid r2 ->
               reg_get k procs = None
               /\ (forall p, In p (get_root_processes procs) -> pid p <> k)
               /\ (forall k' p, In (k', p) procs -> ~ In k (children p))
               /\ (forall fuel cs c,
                      tree_calls procs fuel = Some cs -> In c cs ->
                      pid (snd c) <> k))).
Proof.
  split; [|split].
  - intros i m Hm capped prefix kept. subst capped prefix kept.
    assert (P : processes (analyze i (Some m))
                = processes (analyze (input_firstn (Z.to_nat m) i) None)).
    { rewrite !registry_insertions. now rewrite input_records_cap. }
    assert (Q : process_events (analyze i (Some m))
                = process_events
                    (analyze (input_firstn (Z.to_nat m) i) None)).
    { rewrite (proj2 (analyze_cap_prefix i (Some m))).
      unfold cap_prefix, input_firstn.
      destruct (Z.eqb_spec m 0); [contradiction|]. now destruct i. }
    split; [|split; [|split; [|split; [|split; [|split]]]]].
    + rewrite after_loop_insertions. now rewrite input_records_cap.
    + intros k. rewrite registry_insertions, build_tree_keys
        by (apply insert_all_NoDup; constructor).
      rewrite input_records_cap by assumption.
      rewrite insert_all_keys. simpl. tauto.
    + intros k p H.
      rewrite registry_insertions in H.
      rewrite input_records_cap in H by assumption.
      rewrite build_tree_with_children in H
        by (apply insert_all_NoDup; constructor).
      unfold with_children in H. apply in_map_iff in H.
      destruct H as [[k0 r0] [E H]]. simpl in E. injection E as <- <-.
      exists r0. split; [now apply insert_all_item|].
      apply same_but_children_add.
    + exact P.
    + exact Q.
    + now rewrite P.
    + intros sep fuel. now rewrite P.
  - intros u1 u2 third r1 r2 Q1 Q2 E1 E2 N.
    apply two_records_registry; [|exact N].
    unfold input_records, cap_prefix.
    change (2 =? 0) with false. change (Z.to_nat 2) with 2%nat.
    cbn [firstn]. unfold evtx_records. cbn [flat_map].
    rewrite Q1, Q2, E1, E2. reflexivity.
  - intros row1 row2 third r1 r2 Q1 Q2 E1 E2 N.
    apply two_records_registry; [|exact N].
    unfold input_records, cap_prefix.
    change (2 =? 0) with false. change (Z.to_nat 2) with 2%nat.
    cbn [firstn]. unfold csv_records. cbn [flat_map].
    rewrite Q1, Q2, E1, E2. reflexivity.
Qed.

(** The theorem at three process-creation events with pids 4, 1000 and
    2000 and a cap of 2, in each program: the registry holds the pids 4
    and 1000, the pid 2000 is absent, and the records of pids 4 and 1000
    are rendered. *)
Lemma C8_witness :
  let fields1 := [("ProcessId", "4")] in
  let fields2 := [("ProcessId", "1000"); ("ParentProcessId", "4")] in
  let fields3 := [("ProcessId", "2000"); ("ParentProcessId", "4")] in
  let t1 := "2024-01-01T00:00:00" in
  let t2 := "2024-01-01T00:00:05" in
  let t3 := "2024-01-01T00:00:09" in
  let evtx :=
    processes
      (analyze
         (EvtxFile
            [Some (xml_of fields1 t1); Some (xml_of fields2 t2);
             evtx_event fields3 t3])
         (Some 2)) in
  let csv :=
    processes
      (analyze
         (CsvFile
            [csv_event fields1 t1; csv_event fields2 t2;
             csv_event fields3 t3])
         (Some 2)) in
  (dict_keys evtx = [4; 1000] /\ reg_get 2000 evtx = None
   /\ option_map (map (fun c => pid (snd c))) (tree_calls evtx 3)
      = Some [4; 1000])
  /\ (dict_keys csv = [4; 1000] /\ reg_get 2000 csv = None
      /\ option_map (map (fun c => pid (snd c))) (tree_calls csv 3)
         = Some [4; 1000]).
Proof.
  intros fields1 fields2 fields3 t1 t2 t3 evtx csv.
  assert (N : 4 <> 1000) by discriminate.
  assert (N1 : 2000 <> 4) by discriminate.
  assert (N2 : 2000 <> 1000) by discriminate.
  pose proof (proj1 (proj2 C8_cap_keeps_prefix)
                (xml_of fields1 t1) (xml_of fields2 t2)
                (evtx_event fields3 t3)
                (ProcessInfo_init 4 "Unknown" None "" "" "" t1)
                (ProcessInfo_init 1000 "Unknown" (Some 4) "" "" "" t2)
                eq_refl eq_refl eq_refl eq_refl N) as [[p1 [p2 [E _]]] A].
  pose proof (proj2 (proj2 C8_cap_keeps_prefix)
                (csv_event fields1 t1) (csv_event fields2 t2)
                (csv_event fields3 t3)
                (ProcessInfo_init 4 "Unknown" None "" "" "" t1)
                (ProcessInfo_init 1000 "Unknown" (Some 4) "" "" "" t2)
                eq_refl eq_refl eq_refl eq_refl N) as [[q1 [q2 [F _]]] B].
  split.
  - split; [|split].
    + change (dict_keys evtx) with (dict_keys
        (processes
           (analyze
              (EvtxFile
                 [Some (xml_of fields1 t1); Some (xml_of fields2 t2);
                  evtx_event fields3 t3]) (Some 2)))).
      now rewrite E.
    + exact (proj1 (A 2000 N1 N2)).
    + vm_compute. reflexivity.
  - split; [|split].
    + change (dict_keys csv) with (dict_keys
        (processes
           (analyze
              (CsvFile
                 [csv_event fields1 t1; csv_event fields2 t2;
                  csv_event fields3 t3]) (Some 2)))).
      now rewrite F.
    + exact (proj1 (B 2000 N1 N2)).
    + vm_compute. reflexivity.
Defined.
